(** * CSV data validation and integration pipeline

    A shallow embedding of the order pipeline: the row validator
    ([data_validator.py]), the SQLite store with its incremental sync
    ([db_manager.py]) and the JSON export ([json_exporter.py]).

    Python values keep their dynamic types where the code depends on them,
    exceptions are results, the SQLite connection is an explicit state with
    a committed and a working copy of the database, the production tables
    are finite maps keyed by their unique keys and the staging table is a
    list in row order. *)

From Stdlib Require Import ZArith Ascii String List.
From stdpp Require Import gmap strings list fin_maps.

Local Open Scope Z_scope.
Local Open Scope string_scope.

(** ** Python strings

    A [str] is modelled by a [string] whose characters are the code points
    below 256.  [py_isspace] is [str.isspace] on those code points. *)

Definition py_isspace (c : ascii) : bool :=
  let n := nat_of_ascii c in
  (((9 <=? n) && (n <=? 13)) || ((28 <=? n) && (n <=? 32))
   || (n =? 133) || (n =? 160))%nat.

Fixpoint lstrip (s : string) : string :=
  match s with
  | EmptyString => EmptyString
  | String c s' => if py_isspace c then lstrip s' else s
  end.

Fixpoint rstrip (s : string) : string :=
  match s with
  | EmptyString => EmptyString
  | String c s' =>
      match rstrip s' with
      | EmptyString => if py_isspace c then EmptyString else String c EmptyString
      | t => String c t
      end
  end.

(** [value.strip()] *)
Definition strip (s : string) : string := rstrip (lstrip s).

(** ** Exceptions *)

Inductive exn :=
| AttributeError
| OverflowError
| IntegrityError (msg : string)
| ProcessKilled.

Inductive result (A : Type) :=
| Ok (a : A)
| Raise (e : exn).
Arguments Ok {A} a.
Arguments Raise {A} e.

#[global] Instance result_ret : MRet result := @Ok.
#[global] Instance result_bind : MBind result := λ A B f m,
  match m with
  | Ok a => f a
  | Raise e => Raise e
  end.
#[global] Instance result_fmap : FMap result := λ A B f m,
  match m with
  | Ok a => Ok (f a)
  | Raise e => Raise e
  end.

(** ** What the program takes from Python and SQLite

    [int], [float], [datetime.strptime], float arithmetic and SQLite's
    numeric coercion of text are library code: the pipeline is modelled
    over any implementation of them. *)

(** [datetime.date] *)
Record pydate := { year : Z; month : Z; day : Z }.

Class Platform := {
  (** Python [float], which is also SQLite's REAL *)
  float : Type;
  float_eq_dec :: EqDecision float;
  float_countable :: Countable float;
  float_is_nan : float → bool;
  float_is_zero : float → bool;
  float_of_int : Z → float;
  float_mul : float → float → float;
  float_leb : float → float → bool;
  (** [round(x, 2)] on a float *)
  float_round2 : float → float;
  (** [sum(xs)] over one or more floats, the start value being the int 0:
      the floats are added from left to right, with a compensated
      accumulator since Python 3.12 *)
  py_sum_floats : list float → float;
  (** SQLite's [SUM] over one or more REAL values, before the result is
      handed over *)
  sql_sum : list float → float;
  (** The rowid SQLite gives a row inserted with NULL for its INTEGER
      PRIMARY KEY, from the rowids of the table: one more than the
      greatest, 1 in an empty table, a free one picked at random when the
      greatest is 2^63-1 *)
  sqlite_new_rowid : list Z → Z;
  (** [int(s)], [None] for [ValueError] *)
  py_int : string → option Z;
  (** [float(s)], [None] for [ValueError] *)
  py_float : string → option float;
  (** [datetime.strptime(s, fmt).date()], [None] for [ValueError] *)
  strptime : string → string → option pydate;
  (** the number SQLite stores when this text goes into a column of
      INTEGER affinity, [None] when the text is stored as it is *)
  integer_affinity_text : string → option (Z + float)
}.

(** ** Python values *)

Inductive pyval `{Platform} :=
| PyNone
| PyStr (s : string)
| PyInt (z : Z)
| PyFloat (f : float)
| PyBool (b : bool)
| PyDate (d : pydate).

(** * data_validator.py *)

(** A row as [csv.DictReader] gives it, after the keys are normalised. *)
Abbreviation raw_row := (gmap string pyval).

Section Validator.
Context `{Platform}.

(** [row.get(key)] *)
Definition row_get (row : raw_row) (key : string) : pyval :=
  default PyNone (row !! key).

(** [value.strip()] on any Python value: only [str] has the method. *)
Definition py_strip (value : pyval) : result string :=
  match value with
  | PyStr s => Ok (strip s)
  | _ => Raise AttributeError
  end.

Definition _parse_string_field (value : pyval) : result (option string) :=
  match value with
  | PyNone => Ok None
  | _ =>
      s ← py_strip value;
      if decide (s = "") then Ok None else Ok (Some s)
  end.

Definition _parse_int_field (value : pyval) : result (option Z) :=
  match value with
  | PyNone => Ok None
  | _ =>
      s ← py_strip value;
      if decide (s = "") then Ok None else Ok (py_int s)
  end.

Definition _parse_float_field (value : pyval) : result (option float) :=
  match value with
  | PyNone => Ok None
  | _ =>
      s ← py_strip value;
      if decide (s = "") then Ok None else Ok (py_float s)
  end.

(** [not value] *)
Definition py_not (value : pyval) : bool :=
  match value with
  | PyNone => true
  | PyStr s => bool_decide (s = "")
  | PyInt z => bool_decide (z = 0)
  | PyFloat f => float_is_zero f
  | PyBool b => negb b
  | PyDate _ => false
  end.

Definition date_formats : list string :=
  ["%Y-%m-%d"; "%d/%m/%Y"; "%Y/%m/%d"; "%B %d %Y"].

(** The [for fmt in (...)] loop of [_parse_date]: a [ValueError] moves on
    to the next format, the first parse that succeeds returns. *)
Fixpoint try_formats (s : string) (fmts : list string) : option pydate :=
  match fmts with
  | [] => None
  | fmt :: rest =>
      match strptime s fmt with
      | Some d => Some d
      | None => try_formats s rest
      end
  end.

Definition _parse_date (value : pyval) : result (option pydate) :=
  if py_not value then Ok None
  else
    s ← py_strip value;
    Ok (try_formats s date_formats).

Record validated_record := {
  customer_id : option string;
  order_id : option string;
  item : option string;
  quantity : option Z;
  unit_price : option float;
  date : option pydate;
  is_valid : bool;
  error_message : option string
}.

(** [errors.append(msg)] when the parsed field is [None] *)
Definition note_missing {A} (errors : list string) (field : option A)
    (msg : string) : list string :=
  match field with
  | None => errors ++ [msg]
  | Some _ => errors
  end.

(** [_validate_row], together with its local list [errors]. *)
Definition _validate_row_errors (row : raw_row)
    : result (validated_record * list string) :=
  let errors := [] in
  customer_id ← _parse_string_field (row_get row "customer_id");
  let errors := note_missing errors customer_id "Invalid or missing customer_id" in
  order_id ← _parse_string_field (row_get row "order_id");
  let errors := note_missing errors order_id "Invalid or missing order_id" in
  item ← _parse_string_field (row_get row "item");
  let errors := note_missing errors item "Invalid or missing item" in
  quantity ← _parse_int_field (row_get row "quantity");
  let errors := note_missing errors quantity "Invalid or missing quantity" in
  unit_price ← _parse_float_field (row_get row "unit_price");
  let errors := note_missing errors unit_price "Invalid or missing unit_price" in
  parsed_date ← _parse_date (row_get row "date");
  let errors := note_missing errors parsed_date "Invalid or missing date" in
  Ok ({| customer_id := customer_id;
         order_id := order_id;
         item := item;
         quantity := quantity;
         unit_price := unit_price;
         date := parsed_date;
         is_valid := bool_decide (errors = []);
         error_message :=
           match errors with
           | [] => None
           | _ => Some (String.concat "; " errors)
           end |}, errors).

Definition _validate_row (row : raw_row) : result validated_record :=
  fst <$> _validate_row_errors row.

(** [order_key = (result['order_id'], result['item'])] *)
Definition order_key (r : validated_record) : option string * option string :=
  (order_id r, item r).

(** The two assignments made to a duplicate. *)
Definition mark_duplicate (r : validated_record) : validated_record :=
  {| customer_id := customer_id r;
     order_id := order_id r;
     item := item r;
     quantity := quantity r;
     unit_price := unit_price r;
     date := date r;
     is_valid := false;
     error_message := Some "Duplicate order_id and item" |}.

(** The [for row in reader] loop, with [seen_orders] threaded through;
    the records are collected in the order they are yielded. *)
Fixpoint validate_rows (seen_orders : gset (option string * option string))
    (rows : list raw_row) : result (list validated_record) :=
  match rows with
  | [] => Ok []
  | row :: rest =>
      r ← _validate_row row;
      if is_valid r then
        if decide (order_key r ∈ seen_orders) then
          out ← validate_rows seen_orders rest;
          Ok (mark_duplicate r :: out)
        else
          out ← validate_rows ({[order_key r]} ∪ seen_orders) rest;
          Ok (r :: out)
      else
        out ← validate_rows seen_orders rest;
        Ok (r :: out)
  end.

(** [list(valid_order_rows_flexible(path))] on the rows read from the file *)
Definition valid_order_rows_flexible (rows : list raw_row)
    : result (list validated_record) :=
  validate_rows ∅ rows.

End Validator.

(** * db_manager.py: the store *)

(** ** SQL values and three-valued logic *)

Inductive sqlval `{Platform} :=
| SqlNull
| SqlInt (z : Z)
| SqlReal (f : float)
| SqlText (s : string).

#[global] Instance sqlval_eq_dec `{Platform} : EqDecision sqlval.
Proof. solve_decision. Defined.

#[global] Instance sqlval_countable `{Platform} : Countable sqlval.
Proof.
  refine (inj_countable'
    (λ v, match v with
          | SqlNull => inl ()
          | SqlInt z => inr (inl z)
          | SqlReal f => inr (inr (inl f))
          | SqlText s => inr (inr (inr s))
          end)
    (λ x, match x with
          | inl () => SqlNull
          | inr (inl z) => SqlInt z
          | inr (inr (inl f)) => SqlReal f
          | inr (inr (inr s)) => SqlText s
          end) _).
  by intros [].
Defined.

Inductive tri := TTrue | TFalse | TNull.

#[global] Instance tri_eq_dec : EqDecision tri.
Proof. solve_decision. Defined.

Definition tri_and (a b : tri) : tri :=
  match a, b with
  | TFalse, _ | _, TFalse => TFalse
  | TTrue, TTrue => TTrue
  | _, _ => TNull
  end.

Definition tri_or (a b : tri) : tri :=
  match a, b with
  | TTrue, _ | _, TTrue => TTrue
  | TFalse, TFalse => TFalse
  | _, _ => TNull
  end.

Definition tri_not (a : tri) : tri :=
  match a with
  | TTrue => TFalse
  | TFalse => TTrue
  | TNull => TNull
  end.

Section Store.
Context `{Platform}.

(** [a = b] in SQL.  The key columns all have INTEGER affinity, which
    stores a whole number as an integer, so stored values that are equal
    as numbers are the same value. *)
Definition sql_eq (a b : sqlval) : tri :=
  match a, b with
  | SqlNull, _ | _, SqlNull => TNull
  | _, _ => if decide (a = b) then TTrue else TFalse
  end.

(** [(a1, a2) = (b1, b2)] on row values *)
Definition sql_row_eq (a b : sqlval * sqlval) : tri :=
  tri_and (sql_eq a.1 b.1) (sql_eq a.2 b.2).

(** [x IN (SELECT ...)] for a scalar and for a row value *)
Definition sql_in (x : sqlval) (rows : list sqlval) : tri :=
  foldr (λ r acc, tri_or (sql_eq x r) acc) TFalse rows.

Definition sql_row_in (x : sqlval * sqlval) (rows : list (sqlval * sqlval)) : tri :=
  foldr (λ r acc, tri_or (sql_row_eq x r) acc) TFalse rows.

(** A Python [str] or [None] bound as a parameter *)
Definition bind_text (s : option string) : sqlval :=
  match s with
  | None => SqlNull
  | Some s => SqlText s
  end.

(** What a column of INTEGER affinity stores for a bound value *)
Definition integer_affinity (v : sqlval) : sqlval :=
  match v with
  | SqlText s =>
      match integer_affinity_text s with
      | Some (inl z) => SqlInt z
      | Some (inr f) => SqlReal f
      | None => SqlText s
      end
  | _ => v
  end.

(** A Python [int] bound as a parameter: it has to fit 64 bits. *)
Definition bind_int (q : option Z) : result (option Z) :=
  match q with
  | None => Ok None
  | Some z =>
      if bool_decide (- 2 ^ 63 ≤ z < 2 ^ 63)%Z then Ok (Some z)
      else Raise OverflowError
  end.

(** A Python [float] bound as a parameter: SQLite stores NaN as NULL. *)
Definition bind_real (p : option float) : option float :=
  match p with
  | None => None
  | Some f => if float_is_nan f then None else Some f
  end.

(** ** Tables *)

(** [orders]: [order_id] is the INTEGER PRIMARY KEY, hence an integer. *)
Record order_row := {
  o_customer_id : sqlval;
  o_order_date : option pydate
}.

(** [order_items] without its surrogate [id], which no statement reads;
    the key is [UNIQUE(order_id, item)]. *)
Record item_row := {
  i_quantity : option Z;
  i_unit_price : option float;
  i_is_valid : bool;
  i_error_message : option string
}.

Record staging_row := {
  st_order_id : sqlval;
  st_item : option string;
  st_quantity : option Z;
  st_unit_price : option float;
  st_is_valid : bool;
  st_error_message : option string;
  st_customer_id : sqlval;
  st_order_date : option pydate
}.

(** A table that does not exist yet is the empty table. *)
Record database := {
  orders : gmap Z order_row;
  order_items : gmap (sqlval * string) item_row;
  staging_order_items : list staging_row
}.

Definition empty_database : database :=
  {| orders := ∅; order_items := ∅; staging_order_items := [] |}.

Definition set_orders (f : gmap Z order_row → gmap Z order_row)
    (db : database) : database :=
  {| orders := f (orders db);
     order_items := order_items db;
     staging_order_items := staging_order_items db |}.

Definition set_order_items
    (f : gmap (sqlval * string) item_row → gmap (sqlval * string) item_row)
    (db : database) : database :=
  {| orders := orders db;
     order_items := f (order_items db);
     staging_order_items := staging_order_items db |}.

Definition set_staging (f : list staging_row → list staging_row)
    (db : database) : database :=
  {| orders := orders db;
     order_items := order_items db;
     staging_order_items := f (staging_order_items db) |}.

(** ** Statements *)

(** The parameters of the staging INSERT, bound and coerced by the
    staging columns. *)
Definition staged_of (row : validated_record) : result staging_row :=
  q ← bind_int (quantity row);
  let oid := integer_affinity (bind_text (order_id row)) in
  if decide (oid = SqlNull) then
    Raise (IntegrityError "NOT NULL constraint failed: staging_order_items.order_id")
  else
    Ok {| st_order_id := oid;
          st_item := item row;
          st_quantity := q;
          st_unit_price := bind_real (unit_price row);
          st_is_valid := is_valid row;
          st_error_message := error_message row;
          st_customer_id := integer_affinity (bind_text (customer_id row));
          st_order_date := date row |}.

(** [ON CONFLICT(order_id, item)] on [PRIMARY KEY(order_id, item)]: a NULL
    item never conflicts. *)
Definition staging_conflict (old new : staging_row) : bool :=
  bool_decide (sql_row_eq (st_order_id old, bind_text (st_item old))
                          (st_order_id new, bind_text (st_item new)) = TTrue).

(** [INSERT ... ON CONFLICT DO UPDATE] into the staging table: every column
    outside the key is overwritten in place, a new key goes to the end. *)
Fixpoint staging_upsert (new : staging_row) (tbl : list staging_row)
    : list staging_row :=
  match tbl with
  | [] => [new]
  | old :: rest =>
      if staging_conflict old new then new :: rest
      else old :: staging_upsert new rest
  end.

Definition sql_insert_staging (row : validated_record) (db : database)
    : result database :=
  s ← staged_of row;
  Ok (set_staging (staging_upsert s) db).

(** The statement of [_upsert_order]: the INTEGER PRIMARY KEY takes
    integers only, and a NULL stands for a new rowid, which conflicts with
    no row. *)
Definition sql_upsert_order (oid cust : sqlval) (d : option pydate)
    (db : database) : result database :=
  let row := {| o_customer_id := integer_affinity cust; o_order_date := d |} in
  match integer_affinity oid with
  | SqlInt z => Ok (set_orders (insert z row) db)
  | SqlNull =>
      Ok (set_orders
            (insert (sqlite_new_rowid (map_to_list (orders db)).*1) row) db)
  | _ => Raise (IntegrityError "datatype mismatch")
  end.

(** The statement of [_upsert_order_item] *)
Definition sql_upsert_order_item (oid : sqlval) (it : string) (row : item_row)
    (db : database) : result database :=
  let oid := integer_affinity oid in
  if decide (oid = SqlNull) then
    Raise (IntegrityError "NOT NULL constraint failed: order_items.order_id")
  else Ok (set_order_items (insert (oid, it) row) db).

Definition staged_keys (db : database) : list (sqlval * sqlval) :=
  (λ s, (st_order_id s, bind_text (st_item s))) <$> staging_order_items db.

(** [DELETE FROM order_items WHERE (order_id, item) NOT IN (SELECT order_id,
    item FROM staging_order_items)]: a row goes when the condition is true. *)
Definition sql_delete_missing_items (db : database) : database :=
  set_order_items
    (filter (λ kv : (sqlval * string) * item_row,
       tri_not (sql_row_in (kv.1.1, SqlText kv.1.2) (staged_keys db)) ≠ TTrue))
    db.

Definition item_order_ids (db : database) : list sqlval :=
  (λ kv : (sqlval * string) * item_row, kv.1.1) <$> map_to_list (order_items db).

(** [DELETE FROM orders WHERE order_id NOT IN (SELECT DISTINCT order_id FROM
    order_items)] *)
Definition sql_delete_orphan_orders (db : database) : database :=
  set_orders
    (filter (λ kv : Z * order_row,
       tri_not (sql_in (SqlInt kv.1) (item_order_ids db)) ≠ TTrue))
    db.

End Store.

(** ** The connection

    [sqlite3] opens a transaction before the first INSERT, UPDATE or DELETE
    and keeps it open until [commit]; CREATE and DROP run in whatever mode
    the connection is in, so outside a transaction they are durable at once.
    What survives a run that dies is [committed].  [steps_left] is the
    number of calls the process still makes before it is killed, [None] for
    a process that is left alone. *)

Record connection `{Platform} := {
  committed : database;
  working : database;
  in_transaction : bool;
  steps_left : option nat
}.

Definition M `{Platform} (A : Type) : Type := connection → result A * connection.

#[global] Instance M_ret `{Platform} : MRet M := λ A a c, (Ok a, c).
#[global] Instance M_bind `{Platform} : MBind M := λ A B f m c,
  match m c with
  | (Ok a, c') => f a c'
  | (Raise e, c') => (Raise e, c')
  end.

Section Sync.
Context `{Platform}.

(** [sqlite3.connect(db_path)] on a database file *)
Definition connect (db : database) (kill : option nat) : connection :=
  {| committed := db; working := db; in_transaction := false; steps_left := kill |}.

Definition tick : M unit := λ c,
  match steps_left c with
  | Some O => (Raise ProcessKilled, c)
  | Some (S n) =>
      (Ok (), {| committed := committed c; working := working c;
                 in_transaction := in_transaction c; steps_left := Some n |})
  | None => (Ok (), c)
  end.

(** [cursor.execute] of an INSERT or DELETE *)
Definition execute_dml (stmt : database → result database) : M unit :=
  tick ;; (λ c,
  match stmt (working c) with
  | Ok w =>
      (Ok (), {| committed := committed c; working := w;
                 in_transaction := true; steps_left := steps_left c |})
  | Raise e =>
      (Raise e, {| committed := committed c; working := working c;
                   in_transaction := true; steps_left := steps_left c |})
  end) : M unit.

(** [cursor.execute] of a CREATE or DROP *)
Definition execute_ddl (stmt : database → database) : M unit :=
  tick ;; (λ c,
  let w := stmt (working c) in
  (Ok (), {| committed := if in_transaction c then committed c else w;
             working := w;
             in_transaction := in_transaction c;
             steps_left := steps_left c |})) : M unit.

(** [cursor.execute] of a SELECT followed by [cursor.fetchall()] *)
Definition fetchall {A} (query : database → A) : M A :=
  tick ;; (λ c, (Ok (query (working c)), c)) : M A.

(** [conn.commit()] *)
Definition commit : M unit :=
  tick ;; (λ c,
  (Ok (), {| committed := working c; working := working c;
             in_transaction := false; steps_left := steps_left c |})) : M unit.

Fixpoint for_each {A} (l : list A) (body : A → M unit) : M unit :=
  match l with
  | [] => mret ()
  | x :: rest => body x ;; for_each rest body
  end.

(** Both CREATE TABLE IF NOT EXISTS leave the data as it is. *)
Definition _create_main_tables : M unit :=
  execute_ddl (λ db, db) ;;
  execute_ddl (λ db, db).

Definition _upsert_order (order_id customer_id : sqlval)
    (date : option pydate) : M unit :=
  execute_dml (sql_upsert_order order_id customer_id date).

Definition BLANK_ITEM : string := "__BLANK_ITEM__".

(** [row['item'] or "__BLANK_ITEM__"] *)
Definition item_or_blank (item : option string) : string :=
  match item with
  | None => BLANK_ITEM
  | Some s => if decide (s = "") then BLANK_ITEM else s
  end.

Definition _upsert_order_item (order_id : sqlval) (item : option string)
    (quantity : option Z) (unit_price : option float) (is_valid : bool)
    (error_message : option string) : M unit :=
  let item := item_or_blank item in
  execute_dml (λ db,
    q ← bind_int quantity;
    sql_upsert_order_item order_id item
      {| i_quantity := q;
         i_unit_price := bind_real unit_price;
         i_is_valid := is_valid;
         i_error_message := error_message |} db).

Definition _overwrite_load (validated_data : list validated_record) : M unit :=
  execute_dml (λ db, Ok (set_order_items (λ _, ∅) db)) ;;
  execute_dml (λ db, Ok (set_orders (λ _, ∅) db)) ;;
  for_each validated_data (λ row,
    _upsert_order (bind_text (order_id row)) (bind_text (customer_id row))
      (date row) ;;
    _upsert_order_item (bind_text (order_id row)) (item row) (quantity row)
      (unit_price row) (is_valid row) (error_message row)).

Definition _incremental_sync (validated_data : list validated_record) : M unit :=
  (* 1. Clear and create staging table *)
  execute_ddl (set_staging (λ _, [])) ;;
  execute_ddl (set_staging (λ _, [])) ;;
  (* 2. Load new CSV data into staging *)
  for_each validated_data (λ row, execute_dml (sql_insert_staging row)) ;;
  commit ;;
  (* 3. Upsert staging data into production tables *)
  rows ← fetchall staging_order_items;
  for_each rows (λ row,
    _upsert_order (st_order_id row) (st_customer_id row) (st_order_date row) ;;
    _upsert_order_item (st_order_id row) (st_item row) (st_quantity row)
      (st_unit_price row) (st_is_valid row) (st_error_message row)) ;;
  (* 4. Delete order_items missing from staging *)
  execute_dml (λ db, Ok (sql_delete_missing_items db)) ;;
  (* 5. Delete orders with no remaining items *)
  execute_dml (λ db, Ok (sql_delete_orphan_orders db)) ;;
  (* 6. Clean up staging table *)
  execute_dml (λ db, Ok (set_staging (λ _, []) db)).

Definition setup_database (validated_data : list validated_record)
    (overwrite : bool) : M unit :=
  _create_main_tables ;;
  (if overwrite then _overwrite_load validated_data
   else _incremental_sync validated_data) ;;
  commit.

(** The database file after a run of [setup_database] in sync mode, whether
    the run returned or not. *)
Definition sync_run (db : database) (kill : option nat)
    (batch : list validated_record) : result unit * database :=
  let '(r, c) := setup_database batch false (connect db kill) in
  (r, committed c).

End Sync.

(** ** Aggregations

    The read queries are functions of the database the cursor sees.  A
    table is scanned in the order of [map_to_list]; SQL fixes no order for
    these queries. *)

Section Queries.
Context `{Platform}.

(** The rows of [order_items] whose [order_id] equals an order's id, as
    [(item, columns)]: the JOIN of the aggregations and the inner SELECT of
    the export. *)
Definition children_of (db : database) (z : Z) : list (string * item_row) :=
  omap (λ kv : (sqlval * string) * item_row,
          if decide (kv.1.1 = SqlInt z) then Some (kv.1.2, kv.2) else None)
       (map_to_list (order_items db)).

(** [i.quantity * i.unit_price] in SQL: NULL when the product is NaN *)
Definition sql_line_value (row : item_row) : option float :=
  match i_quantity row, i_unit_price row with
  | Some q, Some p =>
      let x := float_mul (float_of_int q) p in
      if float_is_nan x then None else Some x
  | _, _ => None
  end.

(** [SUM(...)] over a group: NULLs are skipped, no value at all gives
    NULL, and so does a sum that is NaN. *)
Definition sql_sum_agg (xs : list (option float)) : option float :=
  match omap id xs with
  | [] => None
  | ys => let total := sql_sum ys in
          if float_is_nan total then None else Some total
  end.

(** The WHERE clause of [_get_total_order_values] *)
Definition totals_where (c : string * item_row) : bool :=
  bool_decide (c.1 ≠ BLANK_ITEM)
  && bool_decide (is_Some (i_quantity c.2))
  && bool_decide (is_Some (i_unit_price c.2)).

(** The values [SUM] receives for one order in [_get_total_order_values] *)
Definition order_total_inputs (db : database) (z : Z) : list (option float) :=
  (λ c : string * item_row, sql_line_value c.2)
    <$> filter (λ c, totals_where c = true) (children_of db z).

Definition _get_total_order_values (db : database)
    : list (Z * sqlval * option float) :=
  omap (λ kv : Z * order_row,
          match order_total_inputs db kv.1 with
          | [] => None
          | xs => Some (kv.1, o_customer_id kv.2, sql_sum_agg xs)
          end)
       (map_to_list (orders db)).

(** The WHERE clause of [_get_top_customer] *)
Definition spend_where (c : string * item_row) : bool :=
  bool_decide (is_Some (i_quantity c.2))
  && bool_decide (is_Some (i_unit_price c.2)).

(** The joined and filtered rows of [_get_top_customer], as
    [(customer_id, quantity * unit_price)] *)
Definition spend_rows (db : database) : list (sqlval * option float) :=
  kv ← map_to_list (orders db);
  (λ c : string * item_row, (o_customer_id kv.2, sql_line_value c.2))
    <$> filter (λ c, spend_where c = true) (children_of db kv.1).

(** The values [SUM] receives for one customer *)
Definition customer_spend_inputs (db : database) (cust : sqlval)
    : list (option float) :=
  snd <$> filter (λ r : sqlval * option float, r.1 = cust) (spend_rows db).

(** [GROUP BY o.customer_id] *)
Definition customer_totals (db : database) : list (sqlval * option float) :=
  (λ cust, (cust, sql_sum_agg (customer_spend_inputs db cust)))
    <$> remove_dups (fst <$> spend_rows db).

(** [a < b] in the order of ORDER BY, where NULL comes before any number *)
Definition total_lt (a b : option float) : bool :=
  match a, b with
  | None, Some _ => true
  | Some x, Some y => negb (float_leb y x)
  | _, None => false
  end.

(** [ORDER BY total_spend DESC LIMIT 1]; among equal totals the model keeps
    the first group. *)
Definition _get_top_customer (db : database) : option (sqlval * option float) :=
  foldl (λ best g,
           match best with
           | None => Some g
           | Some b => if total_lt b.2 g.2 then Some g else Some b
           end)
        None (customer_totals db).

Definition _get_unique_item_counts (db : database) : list (Z * nat) :=
  omap (λ kv : Z * order_row,
          match filter (λ c : string * item_row, is_Some (i_quantity c.2))
                       (children_of db kv.1) with
          | [] => None
          | rows => Some (kv.1, length (remove_dups (fst <$> rows)))
          end)
       (map_to_list (orders db)).

Definition run_aggregations (db : database) :=
  (_get_total_order_values db, _get_top_customer db, _get_unique_item_counts db).

(** * json_exporter.py *)

(** An [int] or a [float]: [sum] starts from the int 0. *)
Inductive pynum :=
| NumInt (z : Z)
| NumFloat (f : float).

(** [sum(...)] of floats: the start value when there is none *)
Definition py_sum (xs : list float) : pynum :=
  match xs with
  | [] => NumInt 0
  | _ => NumFloat (py_sum_floats xs)
  end.

(** [round(total_price, 2)] *)
Definition py_round2 (a : pynum) : pynum :=
  match a with
  | NumInt z => NumInt z
  | NumFloat f => NumFloat (float_round2 f)
  end.

(** The generator under [sum]: [qty * price] for the items that pass the
    [if]. *)
Definition export_terms (items : list (string * item_row)) : list float :=
  omap (λ c : string * item_row,
          if decide (c.1 = BLANK_ITEM) then None
          else match i_quantity c.2, i_unit_price c.2 with
               | Some qty, Some price => Some (float_mul (float_of_int qty) price)
               | _, _ => None
               end)
       items.

Record export_item := {
  ei_item : string;
  ei_quantity : option Z;
  ei_unit_price : option float;
  ei_is_valid : bool;
  ei_error_message : option string
}.

Record export_order := {
  eo_order_id : Z;
  eo_customer_id : sqlval;
  eo_date : option pydate;
  eo_total_price : pynum;
  eo_items : list export_item
}.

(** [export_json] up to [json.dumps]: the list [result]. *)
Definition export_json (db : database) : list export_order :=
  omap (λ kv : Z * order_row,
          let items := children_of db kv.1 in
          match items with
          | [] => None
          | _ =>
              let total_price := py_sum (export_terms items) in
              Some {| eo_order_id := kv.1;
                      eo_customer_id := o_customer_id kv.2;
                      eo_date := o_order_date kv.2;
                      eo_total_price := py_round2 total_price;
                      eo_items :=
                        (λ c : string * item_row,
                           {| ei_item := c.1;
                              ei_quantity := i_quantity c.2;
                              ei_unit_price := i_unit_price c.2;
                              ei_is_valid := i_is_valid c.2;
                              ei_error_message := i_error_message c.2 |})
                          <$> items |}
          end)
       (map_to_list (orders db)).

End Queries.

(** * An instance to run the model

    Plain decimal literals for [int], [float] and the INTEGER coercion,
    amounts kept exactly as a count of hundredths, and the four date
    formats on ASCII digits and English month names.  It agrees with
    Python and SQLite on the inputs used below. *)

Module Sample.

Definition digit_of (c : ascii) : option Z :=
  let n := Z.of_nat (nat_of_ascii c) in
  if bool_decide (48 ≤ n ≤ 57)%Z then Some (n - 48) else None.

Fixpoint parse_digits (s : string) (acc : Z) : option Z :=
  match s with
  | EmptyString => Some acc
  | String c s' =>
      match digit_of c with
      | Some d => parse_digits s' (10 * acc + d)
      | None => None
      end
  end.

Definition parse_nat (s : string) : option Z :=
  if decide (s = "") then None else parse_digits s 0.

Definition parse_signed (s : string) : option Z :=
  match s with
  | String "-" s' => Z.opp <$> parse_nat s'
  | String "+" s' => parse_nat s'
  | _ => parse_nat s
  end.

Fixpoint split_on (sep : ascii) (s : string) : list string :=
  match s with
  | EmptyString => [""]
  | String c s' =>
      if decide (c = sep) then "" :: split_on sep s'
      else match split_on sep s' with
           | h :: t => String c h :: t
           | [] => [String c ""]
           end
  end.

(** A decimal with at most two places, as hundredths *)
Definition parse_hundredths (s : string) : option Z :=
  match split_on "." s with
  | [whole] => Z.mul 100 <$> parse_signed whole
  | [whole; frac] =>
      w ← parse_nat whole;
      f ← parse_nat frac;
      match String.length frac with
      | 1%nat => Some (100 * w + 10 * f)
      | 2%nat => Some (100 * w + f)
      | _ => None
      end
  | _ => None
  end.

Definition parse_width (lo hi : nat) (s : string) : option Z :=
  if bool_decide (lo ≤ String.length s ≤ hi)%nat then parse_nat s else None.

Definition is_leap (y : Z) : bool :=
  bool_decide (y mod 4 = 0) && (negb (bool_decide (y mod 100 = 0))
                                || bool_decide (y mod 400 = 0)).

Definition days_in_month (y m : Z) : Z :=
  if bool_decide (m = 2) then (if is_leap y then 29 else 28)
  else if bool_decide (m ∈ [4; 6; 9; 11]) then 30 else 31.

Definition make_date (y m d : Z) : option pydate :=
  if bool_decide (1 ≤ y ≤ 9999 ∧ 1 ≤ m ≤ 12 ∧ 1 ≤ d ≤ days_in_month y m)%Z
  then Some {| year := y; month := m; day := d |} else None.

Definition month_names : list string :=
  ["January"; "February"; "March"; "April"; "May"; "June"; "July";
   "August"; "September"; "October"; "November"; "December"].

Fixpoint index_of (x : string) (l : list string) (i : Z) : option Z :=
  match l with
  | [] => None
  | y :: rest => if decide (x = y) then Some i else index_of x rest (i + 1)
  end.

Definition sample_strptime (s fmt : string) : option pydate :=
  if decide (fmt = "%Y-%m-%d") then
    match split_on "-" s with
    | [y; m; d] =>
        y ← parse_width 4 4 y; m ← parse_width 1 2 m; d ← parse_width 1 2 d;
        make_date y m d
    | _ => None
    end
  else if decide (fmt = "%d/%m/%Y") then
    match split_on "/" s with
    | [d; m; y] =>
        y ← parse_width 4 4 y; m ← parse_width 1 2 m; d ← parse_width 1 2 d;
        make_date y m d
    | _ => None
    end
  else if decide (fmt = "%Y/%m/%d") then
    match split_on "/" s with
    | [y; m; d] =>
        y ← parse_width 4 4 y; m ← parse_width 1 2 m; d ← parse_width 1 2 d;
        make_date y m d
    | _ => None
    end
  else if decide (fmt = "%B %d %Y") then
    match split_on " " s with
    | [b; d; y] =>
        y ← parse_width 4 4 y; m ← index_of b month_names 1;
        d ← parse_width 1 2 d;
        make_date y m d
    | _ => None
    end
  else None.

Definition in_int64 (z : Z) : option Z :=
  if bool_decide (- 2 ^ 63 ≤ z < 2 ^ 63)%Z then Some z else None.

Definition platform : Platform :=
  {| float := Z;
     float_is_nan := λ _, false;
     float_is_zero := λ x, bool_decide (x = 0);
     float_of_int := λ z, 100 * z;
     float_mul := λ a b, a * b / 100;
     float_leb := Z.leb;
     float_round2 := λ x, x;
     py_sum_floats := foldl Z.add 0;
     sql_sum := foldr Z.add 0;
     sqlite_new_rowid := λ ids, match ids with
                                | [] => 1
                                | z :: zs => foldr Z.max z zs + 1
                                end;
     py_int := parse_signed;
     py_float := parse_hundredths;
     strptime := sample_strptime;
     integer_affinity_text := λ s, inl <$> (parse_signed s ≫= in_int64) |}.

(** A CSV row with its six columns *)
Definition csv_row (customer order it qty price dt : string)
    : @gmap string _ _ (@pyval platform) :=
  list_to_map
    [("customer_id", PyStr customer); ("order_id", PyStr order);
     ("item", PyStr it); ("quantity", PyStr qty);
     ("unit_price", PyStr price); ("date", PyStr dt)].

(** Two rows with the key (5, Bolt), both complete *)
Definition two_bolts : list (@gmap string _ _ (@pyval platform)) :=
  [csv_row "C1" "5" "Bolt" "2" "9.99" "2025-06-01";
   csv_row "C1" "5" "Bolt" "3" "1.50" "02/06/2025"].

Definition records_of (rows : list (@gmap string _ _ (@pyval platform)))
    : list (@validated_record platform) :=
  match valid_order_rows_flexible rows with
  | Ok out => out
  | Raise _ => []
  end.

Definition two_bolts_validated : list (@validated_record platform) :=
  Eval vm_compute in records_of two_bolts.

Definition blank_record : @validated_record platform :=
  {| customer_id := None; order_id := None; item := None; quantity := None;
     unit_price := None; date := None; is_valid := false;
     error_message := None |}.

Definition first_bolt : @validated_record platform :=
  Eval vm_compute in default blank_record (two_bolts_validated !! 0%nat).

Definition second_bolt : @validated_record platform :=
  Eval vm_compute in default blank_record (two_bolts_validated !! 1%nat).

(** A row whose date is no date in any format *)
Definition no_date_row : @gmap string _ _ (@pyval platform) :=
  csv_row "C1" "5" "Bolt" "2" "9.99" "2025-02-30".

Definition no_date_record : @validated_record platform :=
  Eval vm_compute in default blank_record (records_of [no_date_row] !! 0%nat).

(** A database given by the rows of its tables *)
Definition database_of
    (rows : list (Z * @order_row platform)
            * list ((@sqlval platform * string) * @item_row platform)
            * list (@staging_row platform)) : @database platform :=
  {| orders := list_to_map rows.1.1; order_items := list_to_map rows.1.2;
     staging_order_items := rows.2 |}.

(** The rows of the tables a sync leaves *)
Definition synced (db : @database platform)
    (batch : list (@validated_record platform)) :=
  let db' := (sync_run db None batch).2 in
  (map_to_list (orders db'), map_to_list (order_items db'),
   staging_order_items db').

(** A batch with one child of order 5, then a batch whose only row for
    order 5 has no item *)
Definition widget_batch : list (@validated_record platform) :=
  Eval vm_compute in
    records_of [csv_row "C1" "5" "Widget" "2" "9.99" "2025-06-01"].

Definition blank_batch : list (@validated_record platform) :=
  Eval vm_compute in
    records_of [csv_row "C1" "5" "" "3" "1.50" "2025-06-02"].

Definition db_widget_rows :=
  Eval vm_compute in synced empty_database widget_batch.

Definition db_widget : @database platform := database_of db_widget_rows.

Definition db_after_blank_rows :=
  Eval vm_compute in synced db_widget blank_batch.

Definition db_after_blank : @database platform := database_of db_after_blank_rows.

Definition db_two_bolts_rows :=
  Eval vm_compute in synced empty_database two_bolts_validated.

Definition db_two_bolts : @database platform := database_of db_two_bolts_rows.

(** A row whose order_id is no number, a row without order_id and a row
    without quantity *)
Definition text_id_batch : list (@validated_record platform) :=
  Eval vm_compute in
    records_of [csv_row "C1" "A1" "Bolt" "2" "9.99" "2025-06-01"].

Definition db_after_text_id_rows :=
  Eval vm_compute in synced empty_database text_id_batch.

Definition db_after_text_id : @database platform := database_of db_after_text_id_rows.

Definition no_order_batch : list (@validated_record platform) :=
  Eval vm_compute in
    records_of [csv_row "C1" "" "Bolt" "2" "9.99" "2025-06-01"].

Definition no_quantity_batch : list (@validated_record platform) :=
  Eval vm_compute in
    records_of [csv_row "C1" "5" "Bolt" "" "9.99" "2025-06-01"].

Definition db_no_quantity_rows :=
  Eval vm_compute in synced empty_database no_quantity_batch.

Definition db_no_quantity : @database platform := database_of db_no_quantity_rows.

End Sample.

(** * The same instance with the infinities and NaN

    Python's [float] and SQLite's REAL have two infinities and NaN, which
    [float] reads from the texts inf, -inf and nan.  The amounts are still
    counts of hundredths. *)

Module Extended.

Inductive xfloat :=
| Finite (hundredths : Z)
| PosInf
| NegInf
| NaN.

#[global] Instance xfloat_eq_dec : EqDecision xfloat.
Proof. solve_decision. Defined.

#[global] Instance xfloat_countable : Countable xfloat.
Proof.
  refine (inj_countable'
    (λ x, match x with
          | Finite z => inl z
          | PosInf => inr (inl ())
          | NegInf => inr (inr (inl ()))
          | NaN => inr (inr (inr ()))
          end)
    (λ y, match y with
          | inl z => Finite z
          | inr (inl ()) => PosInf
          | inr (inr (inl ())) => NegInf
          | inr (inr (inr ())) => NaN
          end) _).
  by intros [].
Defined.

(** An infinity times a finite number: NaN for zero, else by the sign *)
Definition by_sign (x : Z) (positive negative : xfloat) : xfloat :=
  if bool_decide (x = 0)%Z then NaN
  else if bool_decide (0 < x)%Z then positive else negative.

Definition xmul (a b : xfloat) : xfloat :=
  match a, b with
  | NaN, _ | _, NaN => NaN
  | Finite x, Finite y => Finite (x * y / 100)%Z
  | Finite x, PosInf | PosInf, Finite x => by_sign x PosInf NegInf
  | Finite x, NegInf | NegInf, Finite x => by_sign x NegInf PosInf
  | PosInf, PosInf | NegInf, NegInf => PosInf
  | PosInf, NegInf | NegInf, PosInf => NegInf
  end.

Definition xadd (a b : xfloat) : xfloat :=
  match a, b with
  | NaN, _ | _, NaN => NaN
  | Finite x, Finite y => Finite (x + y)%Z
  | PosInf, NegInf | NegInf, PosInf => NaN
  | PosInf, _ | _, PosInf => PosInf
  | NegInf, _ | _, NegInf => NegInf
  end.

Definition xleb (a b : xfloat) : bool :=
  match a, b with
  | NaN, _ | _, NaN => false
  | NegInf, _ | _, PosInf => true
  | Finite x, Finite y => bool_decide (x ≤ y)%Z
  | _, _ => false
  end.

Definition parse_float (s : string) : option xfloat :=
  if decide (s = "inf") then Some PosInf
  else if decide (s = "-inf") then Some NegInf
  else if decide (s = "nan") then Some NaN
  else Finite <$> Sample.parse_hundredths s.

Definition platform : Platform :=
  {| float := xfloat;
     float_is_nan := λ x, bool_decide (x = NaN);
     float_is_zero := λ x, bool_decide (x = Finite 0);
     float_of_int := λ z, Finite (100 * z);
     float_mul := xmul;
     float_leb := xleb;
     float_round2 := λ x, x;
     py_sum_floats := foldl xadd (Finite 0);
     sql_sum := foldl xadd (Finite 0);
     sqlite_new_rowid := λ ids, match ids with
                                | [] => 1
                                | z :: zs => foldr Z.max z zs + 1
                                end;
     py_int := Sample.parse_signed;
     py_float := parse_float;
     strptime := Sample.sample_strptime;
     integer_affinity_text :=
       λ s, inl <$> (Sample.parse_signed s ≫= Sample.in_int64) |}.

Definition csv_row (customer order it qty price dt : string)
    : @gmap string _ _ (@pyval platform) :=
  list_to_map
    [("customer_id", PyStr customer); ("order_id", PyStr order);
     ("item", PyStr it); ("quantity", PyStr qty);
     ("unit_price", PyStr price); ("date", PyStr dt)].

(** Two children of order 7: no gifts at an infinite price, on a day that
    does not exist, and two bolts at 1.50 *)
Definition gift_rows : list (@gmap string _ _ (@pyval platform)) :=
  [csv_row "C1" "7" "Gift" "0" "inf" "2025-02-30";
   csv_row "C1" "7" "Bolt" "2" "1.50" "2025-06-01"].

Definition gift_batch : list (@validated_record platform) :=
  Eval vm_compute in
    match valid_order_rows_flexible gift_rows with
    | Ok out => out
    | Raise _ => []
    end.

Definition db_gift_rows :=
  Eval vm_compute in
    let db' := (sync_run empty_database None gift_batch).2 in
    (map_to_list (orders db'), map_to_list (order_items db'),
     staging_order_items db').

Definition db_gift : @database platform :=
  {| orders := list_to_map db_gift_rows.1.1;
     order_items := list_to_map db_gift_rows.1.2;
     staging_order_items := db_gift_rows.2 |}.

End Extended.

(** * Notions used in the statements *)

Section Notions.
Context `{Platform}.

(** Every required field of a record is non-null. *)
Definition all_fields_present (r : validated_record) : Prop :=
  is_Some (customer_id r) ∧ is_Some (order_id r) ∧ is_Some (item r)
  ∧ is_Some (quantity r) ∧ is_Some (unit_price r) ∧ is_Some (date r).

Definition py_of_option {A} (f : A → pyval) (x : option A) : pyval :=
  match x with
  | None => PyNone
  | Some a => f a
  end.

(** The dictionary [_validate_row] returns, read as a row again. *)
Definition record_as_row (r : validated_record) : raw_row :=
  list_to_map
    [("customer_id", py_of_option PyStr (customer_id r));
     ("order_id", py_of_option PyStr (order_id r));
     ("item", py_of_option PyStr (item r));
     ("quantity", py_of_option PyInt (quantity r));
     ("unit_price", py_of_option PyFloat (unit_price r));
     ("date", py_of_option PyDate (date r));
     ("is_valid", PyBool (is_valid r));
     ("error_message", py_of_option PyStr (error_message r))].

(** The key under which a record ends up in [order_items]. *)
Definition child_key (r : validated_record) : sqlval * string :=
  (integer_affinity (bind_text (order_id r)), item_or_blank (item r)).

(** The columns a record leaves in [order_items]. *)
Definition stored_item (r : validated_record) : item_row :=
  {| i_quantity := quantity r;
     i_unit_price := bind_real (unit_price r);
     i_is_valid := is_valid r;
     i_error_message := error_message r |}.

(** A record the three tables accept: its order_id is stored as an integer
    and its quantity fits 64 bits. *)
Definition storable (r : validated_record) : Prop :=
  (∃ z, integer_affinity (bind_text (order_id r)) = SqlInt z)
  ∧ ∀ q : Z, quantity r = Some q → (- 2 ^ 63 ≤ q < 2 ^ 63)%Z.

(** A record the staging table accepts: it has an order_id and its
    quantity fits 64 bits. *)
Definition stageable (r : validated_record) : Prop :=
  is_Some (order_id r)
  ∧ ∀ q : Z, quantity r = Some q → (- 2 ^ 63 ≤ q < 2 ^ 63)%Z.

(** The same connection in a process that is not killed *)
Definition unlimited (c : connection) : connection :=
  {| committed := committed c; working := working c;
     in_transaction := in_transaction c; steps_left := None |}.

(** The staging table after the loading loop of step 2 *)
Fixpoint stage_all (batch : list validated_record) (tbl : list staging_row)
    : result (list staging_row) :=
  match batch with
  | [] => Ok tbl
  | row :: rest =>
      s ← staged_of row;
      stage_all rest (staging_upsert s tbl)
  end.

Definition staged_item (s : staging_row) : item_row :=
  {| i_quantity := st_quantity s;
     i_unit_price := bind_real (st_unit_price s);
     i_is_valid := st_is_valid s;
     i_error_message := st_error_message s |}.

(** The two statements of one round of the loop of step 3 *)
Definition upsert_staged (s : staging_row) (db : database) : result database :=
  db ← sql_upsert_order (st_order_id s) (st_customer_id s) (st_order_date s) db;
  q ← bind_int (st_quantity s);
  sql_upsert_order_item (st_order_id s) (item_or_blank (st_item s))
    {| i_quantity := q;
       i_unit_price := bind_real (st_unit_price s);
       i_is_valid := st_is_valid s;
       i_error_message := st_error_message s |} db.

Fixpoint upsert_all (rows : list staging_row) (db : database) : result database :=
  match rows with
  | [] => Ok db
  | s :: rest => db ← upsert_staged s db; upsert_all rest db
  end.

(** What a sync that runs to its end makes of the database *)
Definition sync_database (db : database) (batch : list validated_record)
    : result database :=
  tbl ← stage_all batch [];
  db ← upsert_all tbl (set_staging (λ _, tbl) db);
  Ok (set_staging (λ _, [])
        (sql_delete_orphan_orders (sql_delete_missing_items db))).

(** What step 3 writes for one staged row *)
Definition staged_order (s : staging_row) : order_row :=
  {| o_customer_id := integer_affinity (st_customer_id s);
     o_order_date := st_order_date s |}.

Definition staged_child_key (s : staging_row) : sqlval * string :=
  (integer_affinity (st_order_id s), item_or_blank (st_item s)).

(** A staged row that both statements of step 3 accept *)
Definition upsert_ready (s : staging_row) : Prop :=
  (∃ z, integer_affinity (st_order_id s) = SqlInt z)
  ∧ bind_int (st_quantity s) = Ok (st_quantity s).

(** The production tables after the loop of step 3 *)
Definition orders_after (tbl : list staging_row) (m : gmap Z order_row)
    : gmap Z order_row :=
  foldl (λ m s, match integer_affinity (st_order_id s) with
                | SqlInt z => <[z := staged_order s]> m
                | _ => m
                end) m tbl.

Definition items_after (tbl : list staging_row)
    (m : gmap (sqlval * string) item_row) : gmap (sqlval * string) item_row :=
  foldl (λ m s, <[staged_child_key s := staged_item s]> m) m tbl.

(** The last staged row that writes a given child, a given order *)
Definition last_staged (k : sqlval * string) (tbl : list staging_row)
    : option staging_row :=
  last (filter (λ s, staged_child_key s = k) tbl).

Definition last_order (z : Z) (tbl : list staging_row) : option staging_row :=
  last (filter (λ s, integer_affinity (st_order_id s) = SqlInt z) tbl).

(** The rows of [SELECT order_id, item FROM staging_order_items] *)
Definition staging_keys (tbl : list staging_row) : list (sqlval * sqlval) :=
  (λ s, (st_order_id s, bind_text (st_item s))) <$> tbl.

(** A staged order_id is non-null and already coerced. *)
Definition staging_normal (s : staging_row) : Prop :=
  integer_affinity (st_order_id s) = st_order_id s ∧ st_order_id s ≠ SqlNull.

(** The primary key of the staging table *)
Definition staging_unique (tbl : list staging_row) : Prop :=
  ∀ (i j : nat) (s s' : staging_row),
    tbl !! i = Some s → tbl !! j = Some s' →
    staging_conflict s s' = true → i = j.

(** quantity times unit_price of a child, when both are there *)
Definition line_total (row : item_row) : option float :=
  q ← i_quantity row; p ← i_unit_price row;
  Some (float_mul (float_of_int q) p).

(** A child that counts for a total: its item is not the placeholder and
    its quantity and unit_price are non-null. *)
Definition priced_child (c : string * item_row) : Prop :=
  c.1 ≠ BLANK_ITEM ∧ is_Some (i_quantity c.2) ∧ is_Some (i_unit_price c.2).

#[global] Instance priced_child_dec (c : string * item_row) :
  Decision (priced_child c).
Proof. unfold priced_child. apply _. Defined.

(** [cs] lists, once each and in some order, the children of an order that
    count for a total, as [(item, (quantity, unit_price))]. *)
Definition lists_priced_children (db : database) (z : Z)
    (cs : list (string * (Z * float))) : Prop :=
  NoDup (cs.*1)
  ∧ ∀ it q p,
      (it, (q, p)) ∈ cs
      ↔ it ≠ BLANK_ITEM
        ∧ ∃ row, order_items db !! (SqlInt z, it) = Some row
                 ∧ i_quantity row = Some q ∧ i_unit_price row = Some p.

(** Every child has its parent, under an integer order_id, and every
    parent has a child. *)
Definition consistent (db : database) : Prop :=
  (∀ k row, order_items db !! k = Some row →
            ∃ z, k.1 = SqlInt z ∧ is_Some (orders db !! z))
  ∧ (∀ z, is_Some (orders db !! z) →
          ∃ it, is_Some (order_items db !! (SqlInt z, it))).

(** The stores the pipeline leaves behind: the empty one, and the one after
    a run in sync mode on such a store, whether the run returned or not. *)
Inductive persisted : database → Prop :=
| persisted_empty : persisted empty_database
| persisted_sync (db : database) (kill : option nat)
    (batch : list validated_record) :
    persisted db → persisted (sync_run db kill batch).2.

(** Postconditions of a command, one for a return and one for an exception *)
Definition hoare {A} (P : connection → Prop) (m : M A)
    (Q : A → connection → Prop) (E : connection → Prop) : Prop :=
  ∀ c, P c →
    match m c with
    | (Ok a, c') => Q a c'
    | (Raise _, c') => E c'
    end.

(** The committed production tables are those of [db]. *)
Definition frozen (db : database) (c : connection) : Prop :=
  orders (committed c) = orders db
  ∧ order_items (committed c) = order_items db.

(** Neither copy of the production tables has moved away from [db]. *)
Definition untouched (db : database) (c : connection) : Prop :=
  frozen db c
  ∧ orders (working c) = orders db
  ∧ order_items (working c) = order_items db.

(** A command that returns in a process with a budget returns the same way
    in a process that is left alone. *)
Definition budget_free {A} (m : M A) : Prop :=
  ∀ c a c', m c = (Ok a, c') → m (unlimited c) = (Ok a, unlimited c').

(** A statement that leaves the production tables alone *)
Definition keeps_production (f : database → database) : Prop :=
  ∀ w, orders (f w) = orders w ∧ order_items (f w) = order_items w.

End Notions.

(** * data_validator.py: reading the file

    The file is taken as [csv.reader] splits it: a list of rows, each a
    list of cells, the first row being the header. *)

(** [str.lower] on a code point below 256 *)
Definition py_lower (c : ascii) : ascii :=
  let n := nat_of_ascii c in
  if (((65 <=? n) && (n <=? 90))
      || ((192 <=? n) && (n <=? 222) && negb (n =? 215)))%nat
  then ascii_of_nat (n + 32) else c.

Fixpoint string_map (f : ascii → ascii) (s : string) : string :=
  match s with
  | EmptyString => EmptyString
  | String c s' => String (f c) (string_map f s')
  end.

(** [s.lower()] *)
Definition lower (s : string) : string := string_map py_lower s.

(** [s.replace(" ", "_")] *)
Definition replace_spaces (s : string) : string :=
  string_map (λ c, if decide (c = " "%char) then "_"%char else c) s.

(** [h.strip().lower().replace(" ", "_")] *)
Definition normalize_key (h : string) : string :=
  replace_spaces (lower (strip h)).

(** [d[key] = value] on a [dict], whose items stay in insertion order *)
Fixpoint dict_set {V} (key : string) (value : V) (d : list (string * V))
    : list (string * V) :=
  match d with
  | [] => [(key, value)]
  | (k, v) :: rest =>
      if decide (k = key) then (k, value) :: rest
      else (k, v) :: dict_set key value rest
  end.

(** [dict(pairs)] *)
Definition dict_of {V} (pairs : list (string * V)) : list (string * V) :=
  foldl (λ d kv, dict_set kv.1 kv.2 d) [] pairs.

(** The dictionary [csv.DictReader] makes of one row: the items under the
    field names, a cell being [Some] and the [restval] being [None], and
    the cells beyond the field names, which go under the key [None]. *)
Record reader_dict := {
  named : list (string * option string);
  rest : option (list string)
}.

(** [DictReader.__next__] on a row that is not empty *)
Definition dictreader_row (fieldnames row : list string) : reader_dict :=
  let d := dict_of (zip fieldnames (Some <$> row)) in
  let lf := length fieldnames in
  let lr := length row in
  if (lf <? lr)%nat then {| named := d; rest := Some (drop lf row) |}
  else {| named := foldl (λ d key, dict_set key None d) d (drop lr fieldnames);
          rest := None |}.

(** A run that can also end in the [TypeError] of a file without a header
    row or of a total that is [None] under a number format *)
Inductive outcome (A : Type) :=
| Returned (a : A)
| Raised (e : exn)
| RaisedTypeError.
Arguments Returned {A} a.
Arguments Raised {A} e.
Arguments RaisedTypeError {A}.

Definition outcome_of {A} (r : result A) : outcome A :=
  match r with
  | Ok a => Returned a
  | Raise e => Raised e
  end.

Section Reader.
Context `{Platform}.

(** [{k.strip().lower().replace(" ", "_"): v for k, v in row.items()}]:
    the key [None] has no [strip]. *)
Definition normalize_row (d : reader_dict) : result raw_row :=
  match rest d with
  | Some _ => Raise AttributeError
  | None =>
      Ok (list_to_map
            ((λ kv : string * option string, (kv.1, py_of_option PyStr kv.2))
               <$> dict_of ((λ kv : string * option string,
                               (normalize_key kv.1, kv.2)) <$> named d)))
  end.

(** The body of [for row in reader] on the cells of one line *)
Definition read_row (fieldnames cells : list string) : result validated_record :=
  row ← normalize_row (dictreader_row fieldnames cells);
  _validate_row row.

(** The loop of [valid_order_rows_flexible] over the lines after the
    header; [DictReader] passes over a line without cells. *)
Fixpoint read_rows (fieldnames : list string)
    (seen_orders : gset (option string * option string))
    (lines : list (list string)) : result (list validated_record) :=
  match lines with
  | [] => Ok []
  | [] :: rest => read_rows fieldnames seen_orders rest
  | cells :: rest =>
      r ← read_row fieldnames cells;
      if is_valid r then
        if decide (order_key r ∈ seen_orders) then
          out ← read_rows fieldnames seen_orders rest;
          Ok (mark_duplicate r :: out)
        else
          out ← read_rows fieldnames ({[order_key r]} ∪ seen_orders) rest;
          Ok (r :: out)
      else
        out ← read_rows fieldnames seen_orders rest;
        Ok (r :: out)
  end.

(** [list(valid_order_rows_flexible(path))] on the rows of the file: with
    no row at all [reader.fieldnames] is [None], which cannot be iterated. *)
Definition valid_order_rows_file (file : list (list string))
    : outcome (list validated_record) :=
  match file with
  | [] => RaisedTypeError
  | header :: lines =>
      outcome_of (read_rows (normalize_key <$> header) ∅ lines)
  end.

End Reader.

(** * db_manager.py: overwrite mode and the review queries *)

Section Overwrite.
Context `{Platform}.

(** The database file after a run of [setup_database] in overwrite mode,
    whether the run returned or not. *)
Definition overwrite_run (db : database) (kill : option nat)
    (batch : list validated_record) : result unit * database :=
  let '(r, c) := setup_database batch true (connect db kill) in
  (r, committed c).

(** The columns a record leaves in [orders]. *)
Definition stored_order (r : validated_record) : order_row :=
  {| o_customer_id := integer_affinity (bind_text (customer_id r));
     o_order_date := date r |}.

(** The two statements of one round of the loop of [_overwrite_load] *)
Definition upsert_record (r : validated_record) (db : database)
    : result database :=
  db ← sql_upsert_order (bind_text (order_id r)) (bind_text (customer_id r))
         (date r) db;
  q ← bind_int (quantity r);
  sql_upsert_order_item (bind_text (order_id r)) (item_or_blank (item r))
    {| i_quantity := q;
       i_unit_price := bind_real (unit_price r);
       i_is_valid := is_valid r;
       i_error_message := error_message r |} db.

Fixpoint load_all (batch : list validated_record) (db : database)
    : result database :=
  match batch with
  | [] => Ok db
  | r :: rest => db ← upsert_record r db; load_all rest db
  end.

(** What an overwrite that runs to its end makes of the database *)
Definition overwrite_database (db : database) (batch : list validated_record)
    : result database :=
  load_all batch (set_orders (λ _, ∅) (set_order_items (λ _, ∅) db)).

(** The last record of a batch that writes a given child, a given order *)
Definition last_record (k : sqlval * string) (batch : list validated_record)
    : option validated_record :=
  last (filter (λ r, child_key r = k) batch).

Definition last_order_record (z : Z) (batch : list validated_record)
    : option validated_record :=
  last (filter (λ r, integer_affinity (bind_text (order_id r)) = SqlInt z)
               batch).

(** A record with an item that is neither empty nor the placeholder *)
Definition regular_item (r : validated_record) : Prop :=
  ∃ i, item r = Some i ∧ i ≠ "" ∧ i ≠ BLANK_ITEM.

(** The rows of [order_items] that pass [WHERE is_valid = 0] *)
Definition invalid_rows (db : database)
    : list ((sqlval * string) * item_row) :=
  filter (λ kv : (sqlval * string) * item_row, i_is_valid kv.2 = false)
         (map_to_list (order_items db)).

(** [SELECT COUNT( * ) ...] and [fetchone()[0]] *)
Definition count_invalid_items (db : database) : nat :=
  length (invalid_rows db).

Definition get_invalid_items (db : database)
    : list (sqlval * string * option Z * option float * option string) :=
  (λ kv : (sqlval * string) * item_row,
     (kv.1.1, kv.1.2, i_quantity kv.2, i_unit_price kv.2, i_error_message kv.2))
    <$> invalid_rows db.

End Overwrite.

(** * Notions used in the further statements *)

Section FurtherNotions.
Context `{Platform}.

(** A row as the reader makes it: every value is a [str] or [None]. *)
Definition csv_typed (row : raw_row) : Prop :=
  ∀ k v, row !! k = Some v → v = PyNone ∨ ∃ s, v = PyStr s.

(** The assignments that build the reader's dictionary of a line with no
    more cells than field names, in the order they are made. *)
Definition reader_pairs (fieldnames cells : list string)
    : list (string * option string) :=
  zip fieldnames (Some <$> cells)
  ++ ((λ key, (key, None)) <$> drop (length cells) fieldnames).

(** The row of one line of the file under the given field names *)
Definition line_row (fieldnames cells : list string) : result raw_row :=
  normalize_row (dictreader_row fieldnames cells).

(** The text of a cell as the parsers read it: stripped, an absent cell
    being an empty one. *)
Definition cell_text (value : pyval) : pyval :=
  match value with
  | PyNone => PyStr ""
  | PyStr s => PyStr (strip s)
  | _ => value
  end.

(** The six columns [_validate_row] reads *)
Definition required_columns : list string :=
  ["customer_id"; "order_id"; "item"; "quantity"; "unit_price"; "date"].

(** The six parsed fields of a record, without its two flags *)
Definition parsed_fields (r : validated_record) :=
  (customer_id r, order_id r, item r, quantity r, unit_price r, date r).

(** Nothing is committed beyond [db], and outside a transaction nothing is
    pending either. *)
Definition unwritten (db : database) (c : connection) : Prop :=
  committed c = db ∧ (in_transaction c = false → working c = db).

(** The committed database is [db]. *)
Definition held (db : database) (c : connection) : Prop := committed c = db.

End FurtherNotions.

(** * main.py

    The run of the pipeline over the three files it touches, the CSV file
    being read and the database and the JSON file written, and over what
    it prints.  A printed line is kept as the values it is formatted
    from. *)

Inductive line `{Platform} :=
| Banner
| CsvNotFound
| Reading
| RowsProcessed (n : nat)
| SyncMode
| DatabaseUpdated
| InvalidCount (n : nat)
| InvalidTitle
| InvalidDetail (row : sqlval * string * option Z * option float * option string)
| AnalyticsTitle
| TotalsTitle
| OrderTotal (order_id : Z) (customer_id : sqlval) (total : float)
| TopCustomer (customer_id : sqlval) (total : float)
| UniqueTitle
| UniqueItems (order_id : Z) (n : nat)
| ExportTitle
| Json (orders : list export_order)
| JsonSaved.

(** [pepper_orders.db], [exported_orders.json] when it exists, and the
    standard output *)
Record files `{Platform} := {
  db_file : database;
  json_file : option (list export_order);
  stdout : list line
}.

Definition P `{Platform} (A : Type) : Type := files → outcome A * files.

#[global] Instance P_ret `{Platform} : MRet P := λ A a st, (Returned a, st).
#[global] Instance P_bind `{Platform} : MBind P := λ A B f m st,
  match m st with
  | (Returned a, st') => f a st'
  | (Raised e, st') => (Raised e, st')
  | (RaisedTypeError, st') => (RaisedTypeError, st')
  end.

Section Main.
Context `{Platform}.
Local Open Scope list_scope.

Definition print (l : line) : P unit := λ st,
  (Returned (), {| db_file := db_file st; json_file := json_file st;
                   stdout := stdout st ++ [l] |}).

(** A call that returns or raises without touching the files *)
Definition call {A} (o : outcome A) : P A := λ st, (o, st).

Fixpoint for_lines {A} (l : list A) (body : A → P unit) : P unit :=
  match l with
  | [] => mret ()
  | x :: rest => body x ;; for_lines rest body
  end.

(** [conn, cursor = setup_database(DB_PATH, validated_data, overwrite=False)]
    in a process that is left alone: the line [_incremental_sync] prints,
    the database file as the run leaves it and, when the run returns, the
    database the cursor sees. *)
Definition run_setup (validated_data : list validated_record) : P database :=
  λ st,
  let '(r, c) := setup_database validated_data false (connect (db_file st) None) in
  let st' := {| db_file := committed c; json_file := json_file st;
                stdout := stdout st ++ [SyncMode] |} in
  match r with
  | Ok _ => (Returned (working c), st')
  | Raise e => (Raised e, st')
  end.

(** [f"{x:.2f}"] on a fetched total: [None] has no such format. *)
Definition format_2f (x : option float) : outcome float :=
  match x with
  | Some f => Returned f
  | None => RaisedTypeError
  end.

(** [with open('exported_orders.json', 'w') as f: f.write(json_output)] *)
Definition write_json (json_output : list export_order) : P unit := λ st,
  (Returned (), {| db_file := db_file st; json_file := Some json_output;
                   stdout := stdout st |}).

(** [main()], [csv] being the rows of [user_data.csv] when the file is
    there *)
Definition main (csv : option (list (list string))) : P unit :=
  print Banner ;;
  match csv with
  | None => print CsvNotFound
  | Some file =>
      print Reading ;;
      validated_data ← call (valid_order_rows_file file);
      print (RowsProcessed (length validated_data)) ;;
      cursor ← run_setup validated_data;
      print DatabaseUpdated ;;
      let invalid_count := count_invalid_items cursor in
      print (InvalidCount invalid_count) ;;
      (if decide (0 < invalid_count)%nat then
         print InvalidTitle ;;
         for_lines (get_invalid_items cursor) (λ row, print (InvalidDetail row))
       else mret ()) ;;
      print AnalyticsTitle ;;
      let '(orders, top_customer, item_counts) := run_aggregations cursor in
      print TotalsTitle ;;
      for_lines orders (λ order,
        total ← call (format_2f order.2);
        print (OrderTotal order.1.1 order.1.2 total)) ;;
      match top_customer with
      | Some top =>
          total ← call (format_2f top.2);
          print (TopCustomer top.1 total)
      | None => mret ()
      end ;;
      print UniqueTitle ;;
      for_lines item_counts (λ item, print (UniqueItems item.1 item.2)) ;;
      print ExportTitle ;;
      let json_output := export_json cursor in
      print (Json json_output) ;;
      write_json json_output ;;
      print JsonSaved
  end.

(** ** The run of [main] as a function

    The lines of a loop that formats a fetched total in every round, up to
    the first total that is [None] *)
Fixpoint total_lines {A} (mk : A → float → line) (total : A → option float)
    (rows : list A) : outcome unit * list line :=
  match rows with
  | [] => (Returned (), [])
  | row :: rest =>
      match total row with
      | None => (RaisedTypeError, [])
      | Some t =>
          let '(o, ls) := total_lines mk total rest in (o, mk row t :: ls)
      end
  end.

(** What [main] prints about the invalid rows *)
Definition review_lines (db : database) : list line :=
  InvalidCount (count_invalid_items db)
  :: (if decide (0 < count_invalid_items db)%nat
      then InvalidTitle :: (InvalidDetail <$> get_invalid_items db)
      else []).

(** What [main] prints once [setup_database] has returned, and how it
    ends, [db] being the database the cursor sees *)
Definition report (db : database) : outcome unit * list line :=
  let head := DatabaseUpdated :: review_lines db
              ++ [AnalyticsTitle; TotalsTitle] in
  match total_lines (λ order : Z * sqlval * option float,
                       OrderTotal order.1.1 order.1.2) snd
                    (_get_total_order_values db) with
  | (Returned _, totals) =>
      match total_lines (λ top : sqlval * option float, TopCustomer top.1)
                        snd (option_list (_get_top_customer db)) with
      | (Returned _, top) =>
          (Returned (),
           head ++ totals ++ top ++ UniqueTitle
             :: ((λ item : Z * nat, UniqueItems item.1 item.2)
                   <$> _get_unique_item_counts db)
             ++ [ExportTitle; Json (export_json db); JsonSaved])
      | (_, top) => (RaisedTypeError, head ++ totals ++ top)
      end
  | (_, totals) => (RaisedTypeError, head ++ totals)
  end.

Definition add_lines (ls : list line) (st : files) : files :=
  {| db_file := db_file st; json_file := json_file st;
     stdout := stdout st ++ ls |}.

(** [main] on a CSV file that exists, by the outcome of each stage *)
Definition main_stages (file : list (list string)) (st : files)
    : outcome unit * files :=
  match valid_order_rows_file file with
  | Returned batch =>
      let started := [Banner; Reading; RowsProcessed (length batch); SyncMode] in
      match sync_run (db_file st) None batch with
      | (Ok _, db') =>
          let '(o, ls) := report db' in
          (o, {| db_file := db';
                 json_file := match o with
                              | Returned _ => Some (export_json db')
                              | _ => json_file st
                              end;
                 stdout := stdout st ++ started ++ ls |})
      | (Raise e, db') =>
          (Raised e, {| db_file := db'; json_file := json_file st;
                        stdout := stdout st ++ started |})
      end
  | Raised e => (Raised e, add_lines [Banner; Reading] st)
  | RaisedTypeError => (RaisedTypeError, add_lines [Banner; Reading] st)
  end.

(** A run that did not return *)
Definition failed {A} (o : outcome A) : Prop :=
  match o with
  | Returned _ => False
  | _ => True
  end.

End Main.

(** * More cases to run the model on *)

Module Cases.

(** The store after a first batch whose only row has no item *)
Definition db_blank_only_rows :=
  Eval vm_compute in Sample.synced empty_database Sample.blank_batch.

Definition db_blank_only : @database Sample.platform :=
  Sample.database_of db_blank_only_rows.




(** A valid row, then a row without order_id; a row without order_id whose
    quantity does not fit 64 bits *)
Definition late_no_order_batch : list (@validated_record Sample.platform) :=
  Eval vm_compute in
    Sample.records_of
      [Sample.csv_row "C1" "5" "Bolt" "2" "9.99" "2025-06-01";
       Sample.csv_row "C1" "" "Nut" "2" "9.99" "2025-06-01"].

Definition huge_quantity_batch : list (@validated_record Sample.platform) :=
  Eval vm_compute in
    Sample.records_of
      [Sample.csv_row "C1" "" "Nut" "9223372036854775808" "9.99" "2025-06-01"].

(** A file of one complete row under headers written with capitals and
    blanks *)
Definition widget_file : list (list string) :=
  [["Customer ID"; " Order ID"; "Item"; "Quantity"; "Unit Price"; "Date "];
   ["C1"; "5"; "Widget"; "2"; "9.99"; "2025-06-01"]].

End Cases.

(** * Properties of the validator *)

Lemma lstrip_head (s : string) :
  lstrip s = EmptyString ∨ ∃ c t, lstrip s = String c t ∧ py_isspace c = false.
Proof.
  induction s as [|c s IH]; simpl; [by left|].
  destruct (py_isspace c) eqn:Hc; [done|].
  right. by exists c, s.
Qed.

Lemma rstrip_head (c : ascii) (t : string) :
  py_isspace c = false → ∃ t', rstrip (String c t) = String c t'.
Proof.
  intros Hc. simpl. rewrite Hc.
  destruct (rstrip t); eauto.
Qed.

Lemma rstrip_idempotent (s : string) : rstrip (rstrip s) = rstrip s.
Proof.
  induction s as [|c s IH]; simpl; [done|].
  destruct (rstrip s) as [|c' t] eqn:Hs.
  - destruct (py_isspace c) eqn:Hc; simpl; [done|]. by rewrite Hc.
  - simpl in *. by rewrite IH.
Qed.

Lemma lstrip_nonspace (c : ascii) (t : string) :
  py_isspace c = false → lstrip (String c t) = String c t.
Proof. intros Hc. simpl. by rewrite Hc. Qed.

Lemma strip_idempotent (s : string) : strip (strip s) = strip s.
Proof.
  unfold strip.
  destruct (lstrip_head s) as [-> | (c & t & -> & Hc)]; [done|].
  destruct (rstrip_head c t Hc) as [t' Ht'].
  rewrite Ht', (lstrip_nonspace c t' Hc), <- Ht'.
  apply rstrip_idempotent.
Qed.

Section ValidatorFacts.
Context `{Platform}.

Lemma try_formats_Some (s : string) (fmts : list string) (d : pydate) :
  try_formats s fmts = Some d ↔
  ∃ (i : nat) (fmt : string),
    fmts !! i = Some fmt ∧ strptime s fmt = Some d
    ∧ ∀ (j : nat) (fmt' : string),
        (j < i)%nat → fmts !! j = Some fmt' → strptime s fmt' = None.
Proof.
  induction fmts as [|f fmts IH]; simpl.
  - split; [done|]. by intros (i & fmt & ? & _).
  - destruct (strptime s f) as [d'|] eqn:Hf.
    + split.
      * intros [= ->]. exists 0%nat, f. split_and!; [done|done|]. lia.
      * intros (i & fmt & Hi & Hd & Hbefore).
        destruct i as [|i]; simpl in Hi.
        -- injection Hi as ->. congruence.
        -- specialize (Hbefore 0%nat f). rewrite Hbefore in Hf; [done|lia|done].
    + rewrite IH. split.
      * intros (i & fmt & Hi & Hd & Hbefore).
        exists (S i), fmt. split_and!; [done|done|].
        intros [|j] fmt' Hj Hfmt'; simpl in Hfmt'.
        -- by injection Hfmt' as <-.
        -- apply (Hbefore j); [lia|done].
      * intros (i & fmt & Hi & Hd & Hbefore).
        destruct i as [|i]; simpl in Hi.
        -- injection Hi as ->. congruence.
        -- exists i, fmt. split_and!; [done|done|].
           intros j fmt' Hj Hfmt'. apply (Hbefore (S j)); [lia|done].
Qed.

Lemma try_formats_None (s : string) (fmts : list string) :
  (∀ fmt, fmt ∈ fmts → strptime s fmt = None) → try_formats s fmts = None.
Proof.
  induction fmts as [|f fmts IH]; simpl; [done|].
  intros Hall. rewrite (Hall f) by left.
  apply IH. intros fmt Hfmt. apply Hall. by right.
Qed.

Lemma note_missing_nil {A} (errors : list string) (field : option A) (msg : string) :
  note_missing errors field msg = [] ↔ errors = [] ∧ is_Some field.
Proof.
  destruct field; simpl.
  - split; [intros ->; eauto|by intros [-> _]].
  - split.
    + by intros ?%app_nil_r_inv%eq_sym%nil_cons.
    + by intros [_ [? ?]].
Qed.

Lemma note_missing_keeps {A} (errors : list string) (field : option A)
    (msg msg' : string) :
  msg' ∈ errors → msg' ∈ note_missing errors field msg.
Proof. destruct field; simpl; [done|]. intros. apply elem_of_app. by left. Qed.

(** What a returning [_validate_row] has computed. *)
Lemma validate_row_errors_inv (row : raw_row) (r : validated_record)
    (errors : list string) :
  _validate_row_errors row = Ok (r, errors) →
  ∃ c o i q p d,
    _parse_string_field (row_get row "customer_id") = Ok c
    ∧ _parse_string_field (row_get row "order_id") = Ok o
    ∧ _parse_string_field (row_get row "item") = Ok i
    ∧ _parse_int_field (row_get row "quantity") = Ok q
    ∧ _parse_float_field (row_get row "unit_price") = Ok p
    ∧ _parse_date (row_get row "date") = Ok d
    ∧ errors =
        note_missing
          (note_missing
             (note_missing
                (note_missing
                   (note_missing
                      (note_missing [] c "Invalid or missing customer_id")
                      o "Invalid or missing order_id")
                   i "Invalid or missing item")
                q "Invalid or missing quantity")
             p "Invalid or missing unit_price")
          d "Invalid or missing date"
    ∧ r = {| customer_id := c; order_id := o; item := i; quantity := q;
             unit_price := p; date := d;
             is_valid := bool_decide (errors = []);
             error_message := match errors with
                              | [] => None
                              | _ => Some (String.concat "; " errors)
                              end |}.
Proof.
  unfold _validate_row_errors. intros Hv.
  destruct (_parse_string_field (row_get row "customer_id")) as [c|] eqn:Hc;
    [|done].
  destruct (_parse_string_field (row_get row "order_id")) as [o|] eqn:Ho;
    [|done].
  destruct (_parse_string_field (row_get row "item")) as [i|] eqn:Hi; [|done].
  destruct (_parse_int_field (row_get row "quantity")) as [q|] eqn:Hq; [|done].
  destruct (_parse_float_field (row_get row "unit_price")) as [p|] eqn:Hp;
    [|done].
  destruct (_parse_date (row_get row "date")) as [d|] eqn:Hd; [|done].
  simpl in Hv. injection Hv as <- <-.
  by exists c, o, i, q, p, d.
Qed.

Lemma validate_row_inv (row : raw_row) (r : validated_record) :
  _validate_row row = Ok r → ∃ errors, _validate_row_errors row = Ok (r, errors).
Proof.
  unfold _validate_row.
  destruct (_validate_row_errors row) as [[r' errors]|] eqn:Hv; [|done].
  intros [= <-]. by exists errors.
Qed.

(** The invariant of a record as [_validate_row] returns it. *)
Lemma validate_row_invariant (row : raw_row) (r : validated_record) :
  _validate_row row = Ok r →
  (is_valid r = true ↔ all_fields_present r)
  ∧ (error_message r = None ↔ is_valid r = true).
Proof.
  intros (errors & Hv)%validate_row_inv.
  destruct (validate_row_errors_inv _ _ _ Hv)
    as (c & o & i & q & p & d & _ & _ & _ & _ & _ & _ & Herr & ->).
  unfold all_fields_present. simpl. rewrite bool_decide_eq_true. split.
  - rewrite Herr, !note_missing_nil. tauto.
  - destruct errors; split; intros; congruence.
Qed.

End ValidatorFacts.

Section ValidatorTheorems.
Context `{Platform}.

Lemma parse_date_str (s : string) :
  _parse_date (PyStr s) =
  Ok (if decide (s = "") then None else try_formats (strip s) date_formats).
Proof.
  unfold _parse_date. simpl.
  destruct (decide (s = "")) as [->|Hs].
  - done.
  - by rewrite bool_decide_eq_false_2.
Qed.

(** C7: a date string is parsed against the formats in the fixed order
    ISO, day/month/year, year/month/day, "Month DD YYYY", and the first
    format that parses gives the date; when no format parses, the date of
    the record is null and the list of errors holds the date error. *)
Theorem parse_date_first_format_wins (s : string) (row : raw_row)
    (r : validated_record) (errors : list string) :
  row_get row "date" = PyStr s →
  _validate_row_errors row = Ok (r, errors) →
  date_formats = ["%Y-%m-%d"; "%d/%m/%Y"; "%Y/%m/%d"; "%B %d %Y"]
  ∧ _parse_date (PyStr s) = Ok (date r)
  ∧ (∀ d : pydate,
       date r = Some d ↔
       s ≠ ""
       ∧ ∃ (i : nat) (fmt : string),
           date_formats !! i = Some fmt
           ∧ strptime (strip s) fmt = Some d
           ∧ ∀ (j : nat) (fmt' : string),
               (j < i)%nat → date_formats !! j = Some fmt' →
               strptime (strip s) fmt' = None)
  ∧ ((∀ fmt, fmt ∈ date_formats → strptime (strip s) fmt = None) →
     date r = None
     ∧ "Invalid or missing date" ∈ errors
     ∧ error_message r = Some (String.concat "; " errors)).
Proof.
  intros Hrow Hv.
  destruct (validate_row_errors_inv _ _ _ Hv)
    as (c & o & i & q & p & d & _ & _ & _ & _ & _ & Hd & Herr & ->).
  rewrite Hrow, parse_date_str in Hd.
  assert ((if decide (s = "") then None
           else try_formats (strip s) date_formats) = d) as Hd'
    by congruence.
  clear Hd. rename Hd' into Hd. cbn [date error_message].
  split_and!.
  - done.
  - by rewrite parse_date_str, Hd.
  - intros d'. rewrite <- Hd. destruct (decide (s = "")) as [->|Hs].
    + split; [done|]. by intros [? _].
    + rewrite try_formats_Some. split; [by intros ?|by intros [_ ?]].
  - intros Hnone.
    assert (d = None) as ->.
    { rewrite <- Hd. destruct (decide (s = "")); [done|].
      by apply try_formats_None. }
    assert ("Invalid or missing date" ∈ errors) as Hin.
    { rewrite Herr. simpl. apply elem_of_app. right. by left. }
    split_and!; [done|done|].
    destruct errors; [by apply elem_of_nil in Hin|done].
Qed.

Lemma validated_string_stripped (value : pyval) (s : string) :
  _parse_string_field value = Ok (Some s) → strip s = s ∧ s ≠ "".
Proof.
  destruct value as [|s0| | | |]; try done. simpl.
  destruct (decide (strip s0 = "")); [done|].
  intros [= <-]. split; [apply strip_idempotent|done].
Qed.

Lemma parse_string_field_again (s : string) :
  strip s = s → s ≠ "" → _parse_string_field (PyStr s) = Ok (Some s).
Proof.
  intros Hs Hne. simpl. rewrite Hs. by destruct (decide (s = "")).
Qed.

(** C9, as the code has it: the string fields of a valid record validate
    again to themselves without an error, but the whole record does not:
    its quantity is an int, which has no [strip], and the validator raises
    AttributeError. *)
Theorem revalidate_valid_record (row : raw_row) (r : validated_record) :
  _validate_row row = Ok r →
  is_valid r = true →
  _parse_string_field (row_get (record_as_row r) "customer_id")
    = Ok (customer_id r)
  ∧ _parse_string_field (row_get (record_as_row r) "order_id")
    = Ok (order_id r)
  ∧ _parse_string_field (row_get (record_as_row r) "item") = Ok (item r)
  ∧ _validate_row (record_as_row r) = Raise AttributeError.
Proof.
  intros Hv Hvalid.
  destruct (validate_row_invariant _ _ Hv) as [Hall _].
  apply Hall in Hvalid as ([c Hc] & [o Ho] & [i Hi] & [q Hq] & _).
  destruct (validate_row_inv _ _ Hv) as (errors & Hve).
  destruct (validate_row_errors_inv _ _ _ Hve)
    as (c' & o' & i' & q' & p' & d' & Hpc & Hpo & Hpi & _ & _ & _ & _ & Hr).
  assert (c' = Some c ∧ o' = Some o ∧ i' = Some i) as (-> & -> & ->).
  { rewrite Hr in Hc, Ho, Hi. simpl in *. by subst. }
  apply validated_string_stripped in Hpc as [Hc1 Hc2].
  apply validated_string_stripped in Hpo as [Ho1 Ho2].
  apply validated_string_stripped in Hpi as [Hi1 Hi2].
  assert (row_get (record_as_row r) "customer_id" = PyStr c) as Hgc.
  { unfold row_get, record_as_row. cbn [list_to_map foldr curry fst snd].
    rewrite Hc. by rewrite lookup_insert_eq. }
  assert (row_get (record_as_row r) "order_id" = PyStr o) as Hgo.
  { unfold row_get, record_as_row. cbn [list_to_map foldr curry fst snd].
    rewrite Ho. rewrite !lookup_insert_ne by done. by rewrite lookup_insert_eq. }
  assert (row_get (record_as_row r) "item" = PyStr i) as Hgi.
  { unfold row_get, record_as_row. cbn [list_to_map foldr curry fst snd].
    rewrite Hi. rewrite !lookup_insert_ne by done. by rewrite lookup_insert_eq. }
  assert (row_get (record_as_row r) "quantity" = PyInt q) as Hgq.
  { unfold row_get, record_as_row. cbn [list_to_map foldr curry fst snd].
    rewrite Hq. rewrite !lookup_insert_ne by done. by rewrite lookup_insert_eq. }
  rewrite Hc, Ho, Hi, Hgc, Hgo, Hgi.
  rewrite !parse_string_field_again by done.
  split_and!; try done.
  unfold _validate_row, _validate_row_errors.
  rewrite Hgc, Hgo, Hgi, Hgq, !parse_string_field_again by done.
  done.
Qed.

Lemma validate_rows_spec (seen : gset (option string * option string))
    (rows : list raw_row) (out : list validated_record) :
  validate_rows seen rows = Ok out →
  ∀ (i : nat) (r : validated_record),
    out !! i = Some r →
    (is_valid r = true ↔
       all_fields_present r ∧ (order_key r ∉ seen)
       ∧ ∀ (j : nat) (r' : validated_record),
           (j < i)%nat → out !! j = Some r' → is_valid r' = true →
           order_key r' ≠ order_key r)
    ∧ (error_message r = None ↔ is_valid r = true).
Proof.
  revert seen out. induction rows as [|row rows IH]; intros seen out; simpl.
  - intros [= <-] i r Hi. by rewrite lookup_nil in Hi.
  - destruct (_validate_row row) as [r0|] eqn:Hv; [|done]. simpl.
    destruct (is_valid r0) eqn:Hvalid;
      destruct (validate_row_invariant _ _ Hv) as [Hall Hmsg].
    + destruct (decide (order_key r0 ∈ seen)) as [Hseen|Hseen].
      * destruct (validate_rows seen rows) as [out'|] eqn:Hrest; [|done].
        simpl. intros [= <-] [|i] r Hi; simpl in Hi.
        -- injection Hi as <-. simpl. split; [|done].
           split; [done|]. by intros (_ & ? & _).
        -- destruct (IH _ _ Hrest i r Hi) as [IH1 IH2]. split; [|done].
           rewrite IH1. split.
           ++ intros (? & ? & Hbefore). split_and!; [done|done|].
              intros [|j] r' Hj Hr'; simpl in Hr'.
              ** by injection Hr' as <-.
              ** apply (Hbefore j); [lia|done].
           ++ intros (? & ? & Hbefore). split_and!; [done|done|].
              intros j r' Hj Hr'. apply (Hbefore (S j)); [lia|done].
      * destruct (validate_rows ({[order_key r0]} ∪ seen) rows)
          as [out'|] eqn:Hrest; [|done].
        simpl. intros [= <-] [|i] r Hi; simpl in Hi.
        -- injection Hi as <-. split; [|done]. rewrite Hvalid.
           split; [|done]. intros _. split_and!; [by apply Hall|done|].
           intros j r' Hj. lia.
        -- destruct (IH _ _ Hrest i r Hi) as [IH1 IH2]. split; [|done].
           rewrite IH1, not_elem_of_union, not_elem_of_singleton. split.
           ++ intros (? & [Hne ?] & Hbefore). split_and!; [done|done|].
              intros [|j] r' Hj Hr'; simpl in Hr'.
              ** injection Hr' as <-. done.
              ** apply (Hbefore j); [lia|done].
           ++ intros (? & ? & Hbefore). split_and!; [done| |done|].
              ** intros Heq. apply (Hbefore 0%nat r0); [lia|done|done|done].
              ** intros j r' Hj Hr'. apply (Hbefore (S j)); [lia|done].
    + destruct (validate_rows seen rows) as [out'|] eqn:Hrest; [|done].
      simpl. intros [= <-] [|i] r Hi; simpl in Hi.
      -- injection Hi as <-. split; [|done]. rewrite Hvalid.
         split; [done|]. intros (Hp & _). apply Hall in Hp. congruence.
      -- destruct (IH _ _ Hrest i r Hi) as [IH1 IH2]. split; [|done].
         rewrite IH1. split.
         ++ intros (? & ? & Hbefore). split_and!; [done|done|].
            intros [|j] r' Hj Hr'; simpl in Hr'.
            ** injection Hr' as <-. congruence.
            ** apply (Hbefore j); [lia|done].
         ++ intros (? & ? & Hbefore). split_and!; [done|done|].
            intros j r' Hj Hr'. apply (Hbefore (S j)); [lia|done].
Qed.

(** C4, as the code has it: a record yielded by
    [valid_order_rows_flexible] is valid exactly when its six required
    fields are non-null and no record yielded before it was valid with the
    same (order_id, item); in every case its error message is null exactly
    when it is valid. *)
Theorem yielded_record_validity (rows : list raw_row)
    (out : list validated_record) (i : nat) (r : validated_record) :
  valid_order_rows_flexible rows = Ok out →
  out !! i = Some r →
  (is_valid r = true ↔
     all_fields_present r
     ∧ ∀ (j : nat) (r' : validated_record),
         (j < i)%nat → out !! j = Some r' → is_valid r' = true →
         order_key r' ≠ order_key r)
  ∧ (error_message r = None ↔ is_valid r = true).
Proof.
  intros Hrows Hi.
  destruct (validate_rows_spec _ _ _ Hrows i r Hi) as [H1 H2].
  split; [|done]. rewrite H1. split.
  - by intros (? & _ & ?).
  - intros [? ?]. split_and!; [done|apply not_elem_of_empty|done].
Qed.

End ValidatorTheorems.

(** ** The validator on concrete rows *)

Section ValidatorRuns.
#[local] Existing Instance Sample.platform.

Lemma parse_date_first_format_wins_witness :
  row_get Sample.no_date_row "date" = PyStr "2025-02-30"
  ∧ _validate_row_errors Sample.no_date_row
    = Ok (Sample.no_date_record, ["Invalid or missing date"])
  ∧ (∀ fmt, fmt ∈ date_formats → strptime (strip "2025-02-30") fmt = None)
  ∧ date Sample.no_date_record = None
  ∧ "Invalid or missing date" ∈ ["Invalid or missing date"].
Proof.
  assert (∀ fmt, fmt ∈ date_formats → strptime (strip "2025-02-30") fmt = None)
    as Hnone.
  { intros fmt Hfmt. unfold date_formats in Hfmt.
    repeat (apply elem_of_cons in Hfmt as [->|Hfmt]; [reflexivity|]).
    by apply elem_of_nil in Hfmt. }
  destruct (parse_date_first_format_wins "2025-02-30" Sample.no_date_row
              Sample.no_date_record ["Invalid or missing date"])
    as (_ & _ & _ & Hlast); [reflexivity|reflexivity|].
  destruct (Hlast Hnone) as (Hd & Herr & _).
  split_and!; [reflexivity|reflexivity|exact Hnone|exact Hd|exact Herr].
Defined.

Example parse_date_day_first :
  _parse_date (PyStr " 01/06/2025 ")
  = Ok (Some {| year := 2025; month := 6; day := 1 |}).
Proof. reflexivity. Qed.

Example parse_date_month_name :
  _parse_date (PyStr "June 4 2025")
  = Ok (Some {| year := 2025; month := 6; day := 4 |}).
Proof. reflexivity. Qed.

(** C4, as the claim states it, fails on the second of two complete rows
    with the same key: all six fields are there and it is not valid. *)
Lemma duplicate_record_complete_but_invalid :
  valid_order_rows_flexible Sample.two_bolts = Ok Sample.two_bolts_validated
  ∧ Sample.second_bolt ∈ Sample.two_bolts_validated
  ∧ ¬ (is_valid Sample.second_bolt = true
       ↔ all_fields_present Sample.second_bolt).
Proof.
  split_and!.
  - reflexivity.
  - apply elem_of_cons. right. apply elem_of_cons. by left.
  - intros [_ Hall].
    assert (is_valid Sample.second_bolt = true) as Hvalid; [|done].
    apply Hall. unfold all_fields_present. simpl. eauto 10.
Qed.

Lemma yielded_record_validity_witness :
  valid_order_rows_flexible Sample.two_bolts = Ok Sample.two_bolts_validated
  ∧ Sample.two_bolts_validated !! 1%nat = Some Sample.second_bolt
  ∧ (is_valid Sample.second_bolt = true ↔
       all_fields_present Sample.second_bolt
       ∧ ∀ (j : nat) (r' : validated_record),
           (j < 1)%nat → Sample.two_bolts_validated !! j = Some r' →
           is_valid r' = true → order_key r' ≠ order_key Sample.second_bolt)
  ∧ (error_message Sample.second_bolt = None
     ↔ is_valid Sample.second_bolt = true).
Proof.
  split; [reflexivity|]. split; [reflexivity|].
  apply (yielded_record_validity Sample.two_bolts Sample.two_bolts_validated
           1 Sample.second_bolt); reflexivity.
Defined.

(** C9, as the claim states it, fails on a valid record: validating it
    again returns no record at all. *)
Lemma revalidation_raises :
  _validate_row (Sample.csv_row "C1" "5" "Bolt" "2" "9.99" "2025-06-01")
    = Ok Sample.first_bolt
  ∧ is_valid Sample.first_bolt = true
  ∧ ∀ r', _validate_row (record_as_row Sample.first_bolt) ≠ Ok r'.
Proof.
  split_and!; [reflexivity|reflexivity|].
  intros r'.
  assert (_validate_row (record_as_row Sample.first_bolt)
          = Raise AttributeError) as -> by reflexivity.
  discriminate.
Qed.

Lemma revalidate_valid_record_witness :
  _validate_row (Sample.csv_row "C1" "5" "Bolt" "2" "9.99" "2025-06-01")
    = Ok Sample.first_bolt
  ∧ is_valid Sample.first_bolt = true
  ∧ _parse_string_field (row_get (record_as_row Sample.first_bolt) "item")
    = Ok (Some "Bolt")
  ∧ _validate_row (record_as_row Sample.first_bolt) = Raise AttributeError.
Proof.
  assert (_validate_row (Sample.csv_row "C1" "5" "Bolt" "2" "9.99" "2025-06-01")
          = Ok Sample.first_bolt) as Hv by reflexivity.
  destruct (revalidate_valid_record _ _ Hv eq_refl) as (_ & _ & Hitem & Hraise).
  split_and!; [exact Hv|reflexivity|exact Hitem|exact Hraise].
Defined.

End ValidatorRuns.

(** * Properties of the connection *)

Section ConnectionFacts.
Context `{Platform}.

Lemma bind_run {A B} (m : M A) (f : A → M B) (c : connection) :
  (m ≫= f) c =
  match m c with
  | (Ok a, c') => f a c'
  | (Raise e, c') => (Raise e, c')
  end.
Proof. reflexivity. Qed.

Lemma hoare_ret {A} (P : connection → Prop) (a : A)
    (Q : A → connection → Prop) (E : connection → Prop) :
  (∀ c, P c → Q a c) → hoare P (mret a) Q E.
Proof. intros HPQ c HP. by apply HPQ. Qed.

Lemma hoare_bind {A B} (P : connection → Prop) (m : M A) (f : A → M B)
    (Q : A → connection → Prop) (R : B → connection → Prop)
    (E : connection → Prop) :
  hoare P m Q E → (∀ a, hoare (Q a) (f a) R E) → hoare P (m ≫= f) R E.
Proof.
  intros Hm Hf c HP. rewrite bind_run. specialize (Hm c HP).
  destruct (m c) as [[a|e] c']; [|done].
  by apply Hf.
Qed.

Lemma hoare_weaken {A} (P P' : connection → Prop) (m : M A)
    (Q Q' : A → connection → Prop) (E E' : connection → Prop) :
  hoare P m Q E →
  (∀ c, P' c → P c) → (∀ a c, Q a c → Q' a c) → (∀ c, E c → E' c) →
  hoare P' m Q' E'.
Proof.
  intros Hm HP HQ HE c HP'. specialize (Hm c (HP c HP')).
  destruct (m c) as [[a|e] c']; eauto.
Qed.

Lemma hoare_for_each {A} (I E : connection → Prop) (l : list A)
    (body : A → M unit) :
  (∀ x, hoare I (body x) (λ _, I) E) → hoare I (for_each l body) (λ _, I) E.
Proof.
  intros Hbody. induction l as [|x l IH]; simpl.
  - by apply hoare_ret.
  - eapply hoare_bind; [apply Hbody|]. intros ?. apply IH.
Qed.

Lemma keeps_production_id : keeps_production (λ db, db).
Proof. done. Qed.

Lemma keeps_production_set_staging (g : list staging_row → list staging_row) :
  keeps_production (set_staging g).
Proof. done. Qed.

Lemma untouched_frozen (db : database) (c : connection) :
  untouched db c → frozen db c.
Proof. by intros [? _]. Qed.

Lemma hoare_tick (P : connection → Prop) :
  (∀ k w t s s', P {| committed := k; working := w; in_transaction := t;
                     steps_left := s |} →
                 P {| committed := k; working := w; in_transaction := t;
                      steps_left := s' |}) →
  hoare P tick (λ _, P) P.
Proof.
  intros Hstable [k w t [[|n]|]] HP; unfold tick; simpl; eauto.
Qed.

Lemma frozen_steps (db : database) k w t s s' :
  frozen db {| committed := k; working := w; in_transaction := t;
               steps_left := s |} →
  frozen db {| committed := k; working := w; in_transaction := t;
               steps_left := s' |}.
Proof. done. Qed.

Lemma untouched_steps (db : database) k w t s s' :
  untouched db {| committed := k; working := w; in_transaction := t;
                  steps_left := s |} →
  untouched db {| committed := k; working := w; in_transaction := t;
                  steps_left := s' |}.
Proof. done. Qed.

Lemma execute_ddl_untouched (db : database) (f : database → database) :
  keeps_production f →
  hoare (untouched db) (execute_ddl f) (λ _, untouched db) (frozen db).
Proof.
  intros Hf. unfold execute_ddl. eapply hoare_bind.
  - eapply hoare_weaken; [apply (hoare_tick (untouched db))| | |]; eauto using untouched_steps, untouched_frozen.
  - intros ? c ([Hko Hki] & Hwo & Hwi). simpl.
    destruct (Hf (working c)) as [Ho Hi].
    unfold untouched, frozen. simpl.
    destruct (in_transaction c); simpl; rewrite ?Ho, ?Hi; done.
Qed.

Lemma execute_dml_untouched (db : database) (stmt : database → result database) :
  (∀ w w', stmt w = Ok w' →
           orders w' = orders w ∧ order_items w' = order_items w) →
  hoare (untouched db) (execute_dml stmt) (λ _, untouched db) (frozen db).
Proof.
  intros Hstmt. unfold execute_dml. eapply hoare_bind.
  - eapply hoare_weaken; [apply (hoare_tick (untouched db))| | |]; eauto using untouched_steps, untouched_frozen.
  - intros ? c ([Hko Hki] & Hwo & Hwi). simpl.
    destruct (stmt (working c)) as [w'|e] eqn:Hw; [|done].
    destruct (Hstmt _ _ Hw) as [Ho Hi].
    unfold untouched, frozen. simpl. by rewrite Ho, Hi.
Qed.

Lemma commit_untouched (db : database) :
  hoare (untouched db) commit (λ _, untouched db) (frozen db).
Proof.
  unfold commit. eapply hoare_bind.
  - eapply hoare_weaken; [apply (hoare_tick (untouched db))| | |]; eauto using untouched_steps, untouched_frozen.
  - by intros ? c (_ & Hwo & Hwi).
Qed.

Lemma execute_dml_frozen (db : database) (stmt : database → result database) :
  hoare (frozen db) (execute_dml stmt) (λ _, frozen db) (frozen db).
Proof.
  unfold execute_dml. eapply hoare_bind.
  - apply hoare_tick, frozen_steps.
  - intros ? c Hc. simpl. by destruct (stmt (working c)).
Qed.

Lemma fetchall_frozen {A} (db : database) (query : database → A) :
  hoare (frozen db) (fetchall query) (λ _, frozen db) (frozen db).
Proof.
  unfold fetchall. eapply hoare_bind.
  - apply hoare_tick, frozen_steps.
  - by intros ? c Hc.
Qed.

Lemma commit_frozen (db : database) :
  hoare (frozen db) commit (λ _ _, True) (frozen db).
Proof.
  unfold commit. eapply hoare_bind.
  - apply hoare_tick, frozen_steps.
  - by intros ? c Hc.
Qed.

Lemma sql_insert_staging_keeps (row : validated_record) (w w' : database) :
  sql_insert_staging row w = Ok w' →
  orders w' = orders w ∧ order_items w' = order_items w.
Proof.
  unfold sql_insert_staging. destruct (staged_of row); [|done].
  by intros [= <-].
Qed.

(** Whatever happens to a sync, the committed production tables stay as
    they were until the last commit. *)
Lemma incremental_sync_frozen (db : database) (batch : list validated_record) :
  hoare (untouched db) (_incremental_sync batch) (λ _, frozen db) (frozen db).
Proof.
  unfold _incremental_sync.
  eapply hoare_bind;
    [apply execute_ddl_untouched, keeps_production_set_staging|intros ?].
  eapply hoare_bind;
    [apply execute_ddl_untouched, keeps_production_set_staging|intros ?].
  eapply hoare_bind.
  { apply hoare_for_each. intros row.
    apply execute_dml_untouched, sql_insert_staging_keeps. }
  intros ?. eapply hoare_bind; [apply commit_untouched|intros ?].
  eapply hoare_weaken with (P := frozen db) (Q := λ _, frozen db)
                           (E := frozen db);
    [|apply untouched_frozen|done|done].
  eapply hoare_bind; [apply fetchall_frozen|intros rows].
  eapply hoare_bind.
  { apply hoare_for_each. intros row. unfold _upsert_order, _upsert_order_item.
    eapply hoare_bind; [apply execute_dml_frozen|intros ?].
    apply execute_dml_frozen. }
  intros ?. eapply hoare_bind; [apply execute_dml_frozen|intros ?].
  eapply hoare_bind; [apply execute_dml_frozen|intros ?].
  apply execute_dml_frozen.
Qed.

Lemma setup_database_frozen (db : database) (batch : list validated_record) :
  hoare (untouched db) (setup_database batch false) (λ _ _, True) (frozen db).
Proof.
  unfold setup_database, _create_main_tables.
  eapply hoare_bind.
  { eapply hoare_bind;
      [apply execute_ddl_untouched, keeps_production_id|intros ?].
    apply execute_ddl_untouched, keeps_production_id. }
  intros ?. eapply hoare_bind; [apply incremental_sync_frozen|intros ?].
  apply commit_frozen.
Qed.

Lemma connect_untouched (db : database) (kill : option nat) :
  untouched db (connect db kill).
Proof. done. Qed.

(** A sync that raises leaves [orders] and [order_items] as they were. *)
Lemma sync_run_raise_frozen (db db' : database) (kill : option nat)
    (batch : list validated_record) (e : exn) :
  sync_run db kill batch = (Raise e, db') →
  orders db' = orders db ∧ order_items db' = order_items db.
Proof.
  unfold sync_run. intros Hrun.
  pose proof (setup_database_frozen db batch _ (connect_untouched db kill))
    as Hfrozen.
  destruct (setup_database batch false (connect db kill)) as [[[]|e'] c'].
  - done.
  - injection Hrun as _ <-. done.
Qed.

End ConnectionFacts.

Section BudgetFacts.
Context `{Platform}.

Lemma budget_free_ret {A} (a : A) : budget_free (mret a : M A).
Proof. intros c a' c' [= <- <-]. done. Qed.

Lemma budget_free_bind {A B} (m : M A) (f : A → M B) :
  budget_free m → (∀ a, budget_free (f a)) → budget_free (m ≫= f).
Proof.
  intros Hm Hf c b c'. rewrite !bind_run.
  destruct (m c) as [[a|e] c1] eqn:Hmc; [|done].
  rewrite (Hm _ _ _ Hmc). apply Hf.
Qed.

Lemma budget_free_for_each {A} (l : list A) (body : A → M unit) :
  (∀ x, budget_free (body x)) → budget_free (for_each l body).
Proof.
  intros Hbody. induction l as [|x l IH]; simpl.
  - apply budget_free_ret.
  - apply budget_free_bind; [apply Hbody|]. intros ?. apply IH.
Qed.

Lemma budget_free_execute_dml (stmt : database → result database) :
  budget_free (execute_dml stmt).
Proof.
  intros [k w t [[|n]|]] a c'; unfold execute_dml, unlimited;
    rewrite !bind_run; simpl; try done;
    destruct (stmt w); try done; by intros [= <- <-].
Qed.

Lemma budget_free_execute_ddl (stmt : database → database) :
  budget_free (execute_ddl stmt).
Proof.
  intros [k w t [[|n]|]] a c'; unfold execute_ddl, unlimited;
    rewrite !bind_run; simpl; try done; by intros [= <- <-].
Qed.

Lemma budget_free_fetchall {A} (query : database → A) :
  budget_free (fetchall query).
Proof.
  intros [k w t [[|n]|]] a c'; unfold fetchall, unlimited;
    rewrite !bind_run; simpl; try done; by intros [= <- <-].
Qed.

Lemma budget_free_commit : budget_free commit.
Proof.
  intros [k w t [[|n]|]] a c'; unfold commit, unlimited;
    rewrite !bind_run; simpl; try done; by intros [= <- <-].
Qed.

Lemma budget_free_setup_database (batch : list validated_record) :
  budget_free (setup_database batch false).
Proof.
  unfold setup_database, _create_main_tables, _incremental_sync,
    _upsert_order, _upsert_order_item.
  repeat first
    [ apply budget_free_execute_dml
    | apply budget_free_execute_ddl
    | apply budget_free_fetchall
    | apply budget_free_commit
    | apply budget_free_for_each; intros ?
    | apply budget_free_bind; [|intros ?] ].
Qed.

(** A sync that returns under a budget ends in the state in which it ends
    without one. *)
Lemma sync_run_budget_free (db db' : database) (kill : option nat)
    (batch : list validated_record) :
  sync_run db kill batch = (Ok (), db') →
  sync_run db None batch = (Ok (), db').
Proof.
  unfold sync_run. intros Hrun.
  destruct (setup_database batch false (connect db kill)) as [[[]|e] c']
    eqn:Hsetup; [|done].
  apply budget_free_setup_database in Hsetup.
  change (unlimited (connect db kill)) with (connect db None) in Hsetup.
  rewrite Hsetup. by injection Hrun as <-.
Qed.

(** ** A process that is left alone *)

Lemma execute_dml_alive (stmt : database → result database) (c : connection) :
  steps_left c = None →
  execute_dml stmt c =
  match stmt (working c) with
  | Ok w =>
      (Ok (), {| committed := committed c; working := w;
                 in_transaction := true; steps_left := None |})
  | Raise e =>
      (Raise e, {| committed := committed c; working := working c;
                   in_transaction := true; steps_left := None |})
  end.
Proof.
  intros Hc. unfold execute_dml. rewrite bind_run. unfold tick.
  rewrite Hc. simpl. rewrite Hc. by destruct (stmt (working c)).
Qed.

Lemma execute_total_alive (f : database → database) (c : connection) :
  steps_left c = None →
  execute_dml (λ db, Ok (f db)) c =
  (Ok (), {| committed := committed c; working := f (working c);
             in_transaction := true; steps_left := None |}).
Proof. intros Hc. by rewrite execute_dml_alive. Qed.

Lemma execute_ddl_alive (stmt : database → database) (c : connection) :
  steps_left c = None →
  execute_ddl stmt c =
  (Ok (), {| committed := if in_transaction c then committed c
                          else stmt (working c);
             working := stmt (working c);
             in_transaction := in_transaction c;
             steps_left := None |}).
Proof.
  intros Hc. unfold execute_ddl. rewrite bind_run. unfold tick.
  rewrite Hc. simpl. by rewrite Hc.
Qed.

Lemma fetchall_alive {A} (query : database → A) (c : connection) :
  steps_left c = None → fetchall query c = (Ok (query (working c)), c).
Proof.
  intros Hc. unfold fetchall. rewrite bind_run. unfold tick. by rewrite Hc.
Qed.

Lemma commit_alive (c : connection) :
  steps_left c = None →
  commit c =
  (Ok (), {| committed := working c; working := working c;
             in_transaction := false; steps_left := None |}).
Proof.
  intros Hc. unfold commit. rewrite bind_run. unfold tick.
  rewrite Hc. simpl. by rewrite Hc.
Qed.

Lemma set_staging_const (tbl : list staging_row)
    (f : list staging_row → list staging_row) (w : database) :
  set_staging (λ _, tbl) (set_staging f w) = set_staging (λ _, tbl) w.
Proof. done. Qed.

Lemma set_staging_same (w : database) :
  set_staging (λ _, staging_order_items w) w = w.
Proof. by destruct w. Qed.

Lemma sql_insert_staging_eq (row : validated_record) (db : database) :
  sql_insert_staging row db =
  match staged_of row with
  | Ok s => Ok (set_staging (staging_upsert s) db)
  | Raise e => Raise e
  end.
Proof. reflexivity. Qed.

(** The loading loop of step 2 *)
Lemma stage_loop_alive (batch : list validated_record) (c : connection) :
  steps_left c = None →
  match stage_all batch (staging_order_items (working c)) with
  | Ok tbl =>
      ∃ t, for_each batch (λ row, execute_dml (sql_insert_staging row)) c
           = (Ok (), {| committed := committed c;
                        working := set_staging (λ _, tbl) (working c);
                        in_transaction := t; steps_left := None |})
  | Raise e =>
      ∃ c', for_each batch (λ row, execute_dml (sql_insert_staging row)) c
            = (Raise e, c')
  end.
Proof.
  revert c. induction batch as [|row batch IH]; intros c Hc; simpl.
  - exists (in_transaction c). rewrite set_staging_same.
    destruct c; simpl in *; by subst.
  - rewrite bind_run, execute_dml_alive by done.
    rewrite (sql_insert_staging_eq row (working c)).
    destruct (staged_of row) as [s|e]; simpl; [|eauto].
    match goal with
    | |- context [for_each _ _ ?c1] => specialize (IH c1 eq_refl)
    end.
    simpl in IH.
    destruct (stage_all batch (staging_upsert s (staging_order_items (working c))));
      [|done].
    destruct IH as [t IH]. exists t. by rewrite IH, set_staging_const.
Qed.

(** One round of the loop of step 3 *)
Lemma upsert_round_alive (s : staging_row) (c : connection) :
  steps_left c = None →
  match upsert_staged s (working c) with
  | Ok w =>
      (_upsert_order (st_order_id s) (st_customer_id s) (st_order_date s) ;;
       _upsert_order_item (st_order_id s) (st_item s) (st_quantity s)
         (st_unit_price s) (st_is_valid s) (st_error_message s)) c
      = (Ok (), {| committed := committed c; working := w;
                   in_transaction := true; steps_left := None |})
  | Raise e =>
      ∃ c',
        (_upsert_order (st_order_id s) (st_customer_id s) (st_order_date s) ;;
         _upsert_order_item (st_order_id s) (st_item s) (st_quantity s)
           (st_unit_price s) (st_is_valid s) (st_error_message s)) c
        = (Raise e, c')
  end.
Proof.
  intros Hc. unfold _upsert_order, _upsert_order_item, upsert_staged.
  rewrite bind_run, execute_dml_alive by done.
  destruct (sql_upsert_order _ _ _ (working c)) as [w1|e]; simpl; [|eauto].
  rewrite execute_dml_alive by done. simpl.
  destruct (bind_int (st_quantity s)) as [q|e]; simpl; [|eauto].
  destruct (sql_upsert_order_item _ _ _ w1); eauto.
Qed.

Lemma upsert_loop_alive (rows : list staging_row) (c : connection) :
  steps_left c = None →
  match upsert_all rows (working c) with
  | Ok w =>
      ∃ t, for_each rows (λ row,
             _upsert_order (st_order_id row) (st_customer_id row)
               (st_order_date row) ;;
             _upsert_order_item (st_order_id row) (st_item row)
               (st_quantity row) (st_unit_price row) (st_is_valid row)
               (st_error_message row)) c
           = (Ok (), {| committed := committed c; working := w;
                        in_transaction := t; steps_left := None |})
  | Raise e =>
      ∃ c', for_each rows (λ row,
              _upsert_order (st_order_id row) (st_customer_id row)
                (st_order_date row) ;;
              _upsert_order_item (st_order_id row) (st_item row)
                (st_quantity row) (st_unit_price row) (st_is_valid row)
                (st_error_message row)) c
            = (Raise e, c')
  end.
Proof.
  revert c. induction rows as [|s rows IH]; intros c Hc; simpl.
  - exists (in_transaction c). destruct c; simpl in *; by subst.
  - rewrite bind_run. pose proof (upsert_round_alive s c Hc) as Hround.
    destruct (upsert_staged s (working c)) as [w|e]; simpl.
    2: { destruct Hround as [c' ->]. eauto. }
    rewrite Hround.
    match goal with
    | |- context [for_each _ _ ?c1] => specialize (IH c1 eq_refl)
    end.
    simpl in IH. destruct (upsert_all rows w); [|done].
    destruct IH as [t IH]. exists t. by rewrite IH.
Qed.

Lemma run_bind_ok {A B} (m : M A) (f : A → M B) (c c1 : connection) (a : A) :
  m c = (Ok a, c1) → (m ≫= f) c = f a c1.
Proof. intros Hm. by rewrite bind_run, Hm. Qed.

Lemma run_bind_raise {A B} (m : M A) (f : A → M B) (c c1 : connection)
    (e : exn) :
  m c = (Raise e, c1) → (m ≫= f) c = (Raise e, c1).
Proof. intros Hm. by rewrite bind_run, Hm. Qed.

(** [_incremental_sync] for a process that is left alone *)
Lemma incremental_sync_alive (batch : list validated_record) (c : connection) :
  steps_left c = None →
  match stage_all batch [] with
  | Ok tbl =>
      match upsert_all tbl (set_staging (λ _, tbl) (working c)) with
      | Ok w =>
          ∃ c', _incremental_sync batch c = (Ok (), c')
                ∧ steps_left c' = None
                ∧ working c'
                  = set_staging (λ _, [])
                      (sql_delete_orphan_orders (sql_delete_missing_items w))
      | Raise e => ∃ c', _incremental_sync batch c = (Raise e, c')
      end
  | Raise e => ∃ c', _incremental_sync batch c = (Raise e, c')
  end.
Proof.
  intros Hc. unfold _incremental_sync.
  erewrite run_bind_ok by (by apply execute_ddl_alive).
  erewrite run_bind_ok by (by apply execute_ddl_alive).
  cbn [working committed in_transaction].
  match goal with
  | |- context [mbind _ (for_each batch _) ?c1] =>
      pose proof (stage_loop_alive batch c1 eq_refl) as Hstage
  end.
  cbn [working committed staging_order_items set_staging] in Hstage.
  destruct (stage_all batch []) as [tbl|e].
  2: { destruct Hstage as [c' Hstage].
       erewrite run_bind_raise by exact Hstage. eauto. }
  destruct Hstage as [t Hstage].
  erewrite run_bind_ok by exact Hstage.
  erewrite run_bind_ok by (by apply commit_alive).
  erewrite run_bind_ok by (by apply fetchall_alive).
  cbn [working committed]. rewrite !set_staging_const.
  change (staging_order_items (set_staging (λ _, tbl) (working c))) with tbl.
  match goal with
  | |- context [mbind _ (for_each tbl _) ?c2] =>
      pose proof (upsert_loop_alive tbl c2 eq_refl) as Hups
  end.
  cbn [working committed] in Hups.
  destruct (upsert_all tbl (set_staging (λ _, tbl) (working c))) as [w|e].
  2: { destruct Hups as [c' Hups].
       erewrite run_bind_raise by exact Hups. eauto. }
  destruct Hups as [t' Hups].
  erewrite run_bind_ok by exact Hups.
  erewrite run_bind_ok by (by apply execute_total_alive).
  erewrite run_bind_ok by (by apply execute_total_alive).
  rewrite execute_total_alive by done.
  cbn [working committed]. eauto.
Qed.

(** The whole of [setup_database] in sync mode, for a process that is left
    alone: it returns exactly when [sync_database] does, with that database
    committed, and raises what [sync_database] raises. *)
Lemma sync_run_alive (db : database) (batch : list validated_record) :
  match sync_database db batch with
  | Ok db' => sync_run db None batch = (Ok (), db')
  | Raise e => (sync_run db None batch).1 = Raise e
  end.
Proof.
  unfold sync_database, sync_run, setup_database, _create_main_tables.
  erewrite (run_bind_ok (execute_ddl _ ;; execute_ddl _)).
  2: { erewrite run_bind_ok by (by apply execute_ddl_alive).
       by apply execute_ddl_alive. }
  cbn [working committed in_transaction connect].
  match goal with
  | |- context [mbind _ (_incremental_sync batch) ?c1] =>
      pose proof (incremental_sync_alive batch c1 eq_refl) as Hsync
  end.
  cbn [working] in Hsync.
  destruct (stage_all batch []) as [tbl|e]; simpl.
  2: { destruct Hsync as [c' Hsync].
       by erewrite run_bind_raise by exact Hsync. }
  destruct (upsert_all tbl (set_staging (λ _, tbl) db)) as [w|e]; simpl.
  2: { destruct Hsync as [c' Hsync].
       by erewrite run_bind_raise by exact Hsync. }
  destruct Hsync as (c' & Hsync & Hc' & Hw).
  erewrite run_bind_ok by exact Hsync.
  rewrite commit_alive by done. cbn [committed]. by rewrite Hw.
Qed.

End BudgetFacts.

(** * Properties of the sync *)

Section SyncFacts.
Context `{Platform}.

(** A sync either returns, with what [sync_database] computes committed,
    or raises and leaves the committed production tables as they were. *)
Lemma sync_run_cases (db : database) (kill : option nat)
    (batch : list validated_record) :
  (∃ db', sync_run db kill batch = (Ok (), db')
          ∧ sync_database db batch = Ok db')
  ∨ (∃ e db', sync_run db kill batch = (Raise e, db')
              ∧ orders db' = orders db
              ∧ order_items db' = order_items db).
Proof.
  destruct (sync_run db kill batch) as [[[]|e] db'] eqn:Hrun.
  - left. exists db'. split; [done|].
    apply sync_run_budget_free in Hrun.
    pose proof (sync_run_alive db batch) as Halive.
    destruct (sync_database db batch) as [db''|e].
    + congruence.
    + rewrite Hrun in Halive. done.
  - right. exists e, db'. split; [done|].
    by eapply sync_run_raise_frozen.
Qed.

Lemma sync_run_ok_inv (db db' : database) (kill : option nat)
    (batch : list validated_record) :
  sync_run db kill batch = (Ok (), db') → sync_database db batch = Ok db'.
Proof.
  intros Hrun.
  destruct (sync_run_cases db kill batch)
    as [(db1 & Hrun1 & Hsync)|(e & db1 & Hrun1 & _)]; congruence.
Qed.

(** C2, as the code has it: the statements that change [orders] and
    [order_items] run in one transaction, so a sync either returns with the
    whole result committed or, whatever fails and whenever the process
    dies, leaves these two tables as they were.  The staging table is
    outside of this: it is created in autocommit mode and its load is
    committed on its own. *)
Theorem sync_production_all_or_nothing (db : database) (kill : option nat)
    (batch : list validated_record) :
  (∃ db', sync_run db kill batch = (Ok (), db')
          ∧ sync_run db None batch = (Ok (), db')
          ∧ sync_database db batch = Ok db')
  ∨ (∃ e db', sync_run db kill batch = (Raise e, db')
              ∧ orders db' = orders db
              ∧ order_items db' = order_items db).
Proof.
  destruct (sync_run_cases db kill batch)
    as [(db' & Hrun & Hsync)|Hraise]; [left|by right].
  exists db'. split_and!; [done| |done].
  by eapply sync_run_budget_free.
Qed.

Lemma integer_affinity_idempotent (v : sqlval) :
  integer_affinity (integer_affinity v) = integer_affinity v.
Proof.
  destruct v as [| | |s]; simpl; try done.
  destruct (integer_affinity_text s) as [[z|f]|] eqn:Hs; simpl; try done.
  by rewrite Hs.
Qed.

Lemma bind_int_ok (q q' : option Z) : bind_int q = Ok q' → q' = q.
Proof.
  destruct q as [z|]; simpl; [|by intros [= <-]].
  case_bool_decide; [by intros [= <-]|done].
Qed.

Lemma upsert_staged_ok (s : staging_row) (db db' : database) :
  upsert_staged s db = Ok db' →
  upsert_ready s
  ∧ orders db' = orders_after [s] (orders db)
  ∧ order_items db' = items_after [s] (order_items db)
  ∧ staging_order_items db' = staging_order_items db.
Proof.
  unfold upsert_staged, sql_upsert_order, sql_upsert_order_item, upsert_ready,
    orders_after, items_after, staged_child_key, staged_item.
  simpl.
  destruct (integer_affinity (st_order_id s)) as [|z| |] eqn:Hid; simpl;
    try done.
  { by destruct (bind_int (st_quantity s)). }
  destruct (bind_int (st_quantity s)) as [q|] eqn:Hq; simpl; [|done].
  apply bind_int_ok in Hq as Hq'. subst q.
  intros [= <-]. simpl. eauto 10.
Qed.

Lemma upsert_staged_ready (s : staging_row) (db : database) :
  upsert_ready s → ∃ db', upsert_staged s db = Ok db'.
Proof.
  intros [[z Hz] Hq].
  unfold upsert_staged, sql_upsert_order, sql_upsert_order_item.
  rewrite Hz. simpl. rewrite Hq. simpl. eauto.
Qed.

Lemma orders_after_cons (s : staging_row) (tbl : list staging_row)
    (m : gmap Z order_row) :
  orders_after (s :: tbl) m = orders_after tbl (orders_after [s] m).
Proof. done. Qed.

Lemma items_after_cons (s : staging_row) (tbl : list staging_row)
    (m : gmap (sqlval * string) item_row) :
  items_after (s :: tbl) m = items_after tbl (items_after [s] m).
Proof. done. Qed.

Lemma upsert_all_ok (tbl : list staging_row) (db db' : database) :
  upsert_all tbl db = Ok db' →
  Forall upsert_ready tbl
  ∧ orders db' = orders_after tbl (orders db)
  ∧ order_items db' = items_after tbl (order_items db)
  ∧ staging_order_items db' = staging_order_items db.
Proof.
  revert db. induction tbl as [|s tbl IH]; intros db; simpl.
  - intros [= <-]. by split.
  - destruct (upsert_staged s db) as [db1|] eqn:Hs; simpl; [|done].
    intros Hrest. apply upsert_staged_ok in Hs as (Hready & Ho & Hi & Hst).
    apply IH in Hrest as (Hall & Ho' & Hi' & Hst').
    split_and!; [by constructor|by rewrite Ho', Ho|by rewrite Hi', Hi|congruence].
Qed.

Lemma upsert_all_ready (tbl : list staging_row) (db : database) :
  Forall upsert_ready tbl → ∃ db', upsert_all tbl db = Ok db'.
Proof.
  intros Hall. revert db. induction Hall as [|s tbl Hs _ IH]; intros db; simpl.
  - eauto.
  - destruct (upsert_staged_ready s db Hs) as [db1 ->]. simpl. apply IH.
Qed.

Lemma items_after_snoc (tbl : list staging_row) (s : staging_row)
    (m : gmap (sqlval * string) item_row) :
  items_after (tbl ++ [s]) m
  = <[staged_child_key s := staged_item s]> (items_after tbl m).
Proof. unfold items_after. by rewrite foldl_app. Qed.

Lemma orders_after_snoc (tbl : list staging_row) (s : staging_row)
    (m : gmap Z order_row) :
  orders_after (tbl ++ [s]) m
  = match integer_affinity (st_order_id s) with
    | SqlInt z => <[z := staged_order s]> (orders_after tbl m)
    | _ => orders_after tbl m
    end.
Proof. unfold orders_after. by rewrite foldl_app. Qed.

(** After step 3 a child holds what the last staged row with its key
    wrote, and is as it was when no staged row has its key. *)
Lemma lookup_items_after (tbl : list staging_row)
    (m : gmap (sqlval * string) item_row) (k : sqlval * string) :
  items_after tbl m !! k =
  match last_staged k tbl with
  | Some s => Some (staged_item s)
  | None => m !! k
  end.
Proof.
  unfold last_staged.
  induction tbl as [|s tbl IH] using rev_ind; [done|].
  rewrite items_after_snoc, filter_app, filter_cons, filter_nil.
  destruct (decide (staged_child_key s = k)) as [<-|Hne].
  - by rewrite last_snoc, lookup_insert_eq.
  - by rewrite app_nil_r, lookup_insert_ne.
Qed.

Lemma lookup_orders_after (tbl : list staging_row) (m : gmap Z order_row)
    (z : Z) :
  orders_after tbl m !! z =
  match last_order z tbl with
  | Some s => Some (staged_order s)
  | None => m !! z
  end.
Proof.
  unfold last_order.
  induction tbl as [|s tbl IH] using rev_ind; [done|].
  rewrite orders_after_snoc, filter_app, filter_cons, filter_nil.
  destruct (decide (integer_affinity (st_order_id s) = SqlInt z)) as [Hz|Hne].
  - by rewrite Hz, last_snoc, lookup_insert_eq.
  - rewrite app_nil_r.
    destruct (integer_affinity (st_order_id s)) as [|z'| |]; try done.
    rewrite lookup_insert_ne; [done|congruence].
Qed.

Lemma tri_not_not_true (t : tri) : tri_not t ≠ TTrue ↔ t ≠ TFalse.
Proof. by destruct t. Qed.

Lemma guard_keep {A} (t : tri) (x : A) :
  (guard (tri_not t ≠ TTrue);; Some x) = if decide (t = TFalse) then None else Some x.
Proof. by destruct t. Qed.

Lemma lookup_delete_missing (db : database) (k : sqlval * string) :
  order_items (sql_delete_missing_items db) !! k =
  if decide (sql_row_in (k.1, SqlText k.2)
               (staging_keys (staging_order_items db)) = TFalse)
  then None else order_items db !! k.
Proof.
  unfold sql_delete_missing_items. simpl. rewrite map_lookup_filter.
  destruct (order_items db !! k) as [row|]; simpl; [|by case_decide].
  apply guard_keep.
Qed.

Lemma lookup_delete_orphans (db : database) (z : Z) :
  orders (sql_delete_orphan_orders db) !! z =
  if decide (sql_in (SqlInt z) (item_order_ids db) = TFalse)
  then None else orders db !! z.
Proof.
  unfold sql_delete_orphan_orders. simpl. rewrite map_lookup_filter.
  destruct (orders db !! z) as [row|]; simpl; [|by case_decide].
  apply guard_keep.
Qed.

(** What a sync that returns has made of the store. *)
Lemma sync_database_ok (db db' : database) (batch : list validated_record) :
  sync_database db batch = Ok db' →
  ∃ tbl,
    stage_all batch [] = Ok tbl
    ∧ Forall upsert_ready tbl
    ∧ staging_order_items db' = []
    ∧ (∀ k, order_items db' !! k =
            if decide (sql_row_in (k.1, SqlText k.2) (staging_keys tbl) = TFalse)
            then None
            else match last_staged k tbl with
                 | Some s => Some (staged_item s)
                 | None => order_items db !! k
                 end)
    ∧ (∀ z, orders db' !! z =
            if decide (sql_in (SqlInt z) (item_order_ids db') = TFalse)
            then None
            else match last_order z tbl with
                 | Some s => Some (staged_order s)
                 | None => orders db !! z
                 end).
Proof.
  unfold sync_database.
  destruct (stage_all batch []) as [tbl|] eqn:Hstage; simpl; [|done].
  destruct (upsert_all tbl (set_staging (λ _, tbl) db)) as [db1|] eqn:Hups;
    simpl; [|done].
  intros [= <-].
  apply upsert_all_ok in Hups as (Hready & Ho & Hi & Hst). simpl in Hst.
  exists tbl. split_and!; try done.
  - intros k.
    transitivity (order_items (sql_delete_missing_items db1) !! k); [done|].
    by rewrite lookup_delete_missing, Hst, Hi, lookup_items_after.
  - intros z.
    transitivity (orders (sql_delete_orphan_orders
                            (sql_delete_missing_items db1)) !! z); [done|].
    rewrite lookup_delete_orphans.
    change (orders (sql_delete_missing_items db1)) with (orders db1).
    by rewrite Ho, lookup_orders_after.
Qed.

Lemma sync_database_ready (db : database) (batch : list validated_record)
    (tbl : list staging_row) :
  stage_all batch [] = Ok tbl → Forall upsert_ready tbl →
  ∃ db', sync_database db batch = Ok db'.
Proof.
  intros Hstage Hready. unfold sync_database. rewrite Hstage. simpl.
  destruct (upsert_all_ready tbl (set_staging (λ _, tbl) db) Hready) as [db1 ->].
  simpl. eauto.
Qed.

(** Syncing the same batch again changes nothing. *)
Lemma sync_database_idempotent (db db1 : database)
    (batch : list validated_record) :
  sync_database db batch = Ok db1 → sync_database db1 batch = Ok db1.
Proof.
  intros Hfirst.
  destruct (sync_database_ok _ _ _ Hfirst)
    as (tbl & Hstage & Hready & Hst & Hitems & Horders).
  destruct (sync_database_ready db1 batch tbl Hstage Hready) as [db2 Hsecond].
  rewrite Hsecond. f_equal.
  destruct (sync_database_ok _ _ _ Hsecond)
    as (tbl' & Hstage' & _ & Hst' & Hitems' & Horders').
  assert (tbl' = tbl) as -> by congruence.
  assert (order_items db2 = order_items db1) as Hi.
  { apply map_eq. intros k. rewrite Hitems', Hitems.
    case_decide; [done|].
    by destruct (last_staged k tbl). }
  assert (orders db2 = orders db1) as Ho.
  { apply map_eq. intros z. rewrite Horders', Horders.
    unfold item_order_ids. rewrite Hi.
    case_decide; [done|].
    by destruct (last_order z tbl). }
  destruct db1, db2; simpl in *; by subst.
Qed.

(** C6: a sync with batch B followed by a sync with the same batch B leaves
    [orders] and [order_items] as the first sync left them. *)
Theorem incremental_sync_idempotent (db : database)
    (batch : list validated_record) :
  orders (sync_run (sync_run db None batch).2 None batch).2
  = orders (sync_run db None batch).2
  ∧ order_items (sync_run (sync_run db None batch).2 None batch).2
    = order_items (sync_run db None batch).2.
Proof.
  destruct (sync_run_cases db None batch)
    as [(db1 & Hrun & Hsync)|(e & db1 & Hrun & Ho & Hi)];
    rewrite Hrun; simpl.
  - apply sync_database_idempotent in Hsync.
    pose proof (sync_run_alive db1 batch) as Halive.
    rewrite Hsync in Halive. by rewrite Halive.
  - destruct (sync_run_cases db1 None batch)
      as [(db2 & Hrun2 & Hsync2)|(e2 & db2 & Hrun2 & Ho2 & Hi2)];
      rewrite Hrun2; simpl; [|done].
    (* the second run cannot return where the first one raised *)
    exfalso.
    destruct (sync_database_ok _ _ _ Hsync2) as (tbl & Hstage & Hready & _).
    destruct (sync_database_ready db batch tbl Hstage Hready) as [db3 Hsync3].
    pose proof (sync_run_alive db batch) as Halive.
    rewrite Hsync3, Hrun in Halive. done.
Qed.

End SyncFacts.

(** * Properties of the staging table *)

Local Open Scope list_scope.

Section StagingFacts.
Context `{Platform}.

Lemma sql_eq_true (a b : sqlval) : sql_eq a b = TTrue ↔ a = b ∧ a ≠ SqlNull.
Proof.
  unfold sql_eq.
  destruct a, b; try case_decide; split; try done;
    try (by intros [? ?]); by intros _.
Qed.

Lemma tri_and_true (a b : tri) : tri_and a b = TTrue ↔ a = TTrue ∧ b = TTrue.
Proof. destruct a, b; simpl; split; try done; by intros [? ?]. Qed.

Lemma staging_conflict_true (a b : staging_row) :
  staging_conflict a b = true ↔
  st_order_id a = st_order_id b ∧ st_order_id a ≠ SqlNull
  ∧ ∃ i, st_item a = Some i ∧ st_item b = Some i.
Proof.
  unfold staging_conflict, sql_row_eq. rewrite bool_decide_eq_true. simpl.
  split.
  - intros [Ho Hi]%tri_and_true.
    apply sql_eq_true in Ho as [Ho Hnull]. apply sql_eq_true in Hi as [Hi Hn].
    split_and!; [done|done|].
    destruct (st_item a) as [i|], (st_item b) as [i'|]; simpl in *; try done.
    exists i. by injection Hi as ->.
  - intros (Ho & Hnull & i & Ha & Hb).
    apply tri_and_true. split; apply sql_eq_true; [done|].
    by rewrite Ha, Hb.
Qed.

Lemma staging_conflict_sym (a b : staging_row) :
  staging_conflict a b = true → staging_conflict b a = true.
Proof.
  rewrite !staging_conflict_true. intros (Ho & Hnull & i & Ha & Hb).
  split_and!; [done|congruence|eauto].
Qed.

Lemma staging_conflict_trans (a b c : staging_row) :
  staging_conflict a b = true → staging_conflict b c = true →
  staging_conflict a c = true.
Proof.
  rewrite !staging_conflict_true.
  intros (Ho & Hnull & i & Ha & Hb) (Ho' & Hnull' & i' & Hb' & Hc).
  split_and!; [congruence|done|].
  exists i. split; [done|congruence].
Qed.

(** The two ways an upsert changes the staging table *)
Lemma staging_upsert_cases (s : staging_row) (tbl : list staging_row) :
  (staging_upsert s tbl = tbl ++ [s]
   ∧ ∀ old, old ∈ tbl → staging_conflict old s = false)
  ∨ (∃ before old after,
       tbl = before ++ old :: after
       ∧ staging_upsert s tbl = before ++ s :: after
       ∧ staging_conflict old s = true
       ∧ ∀ x, x ∈ before → staging_conflict x s = false).
Proof.
  induction tbl as [|old tbl IH]; simpl.
  - left. split; [done|]. by intros old ?%elem_of_nil.
  - destruct (staging_conflict old s) eqn:Hc.
    + right. exists [], old, tbl. split_and!; try done.
      by intros x ?%elem_of_nil.
    + destruct IH as [[-> Hnone]|(before & old' & after & -> & -> & Hc' & Hb)].
      * left. split; [done|]. intros x [->|?]%elem_of_cons; eauto.
      * right. exists (old :: before), old', after. split_and!; try done.
        intros x [->|?]%elem_of_cons; eauto.
Qed.

Lemma staging_upsert_unique (s : staging_row) (tbl : list staging_row) :
  staging_unique tbl → staging_unique (staging_upsert s tbl).
Proof.
  intros Huniq.
  destruct (staging_upsert_cases s tbl)
    as [[-> Hnone]|(before & old & after & -> & -> & Hc & _)].
  - intros i j a b Hi Hj Hab.
    apply lookup_snoc_Some in Hi as [[Hil Hi]|[-> <-]];
      apply lookup_snoc_Some in Hj as [[Hjl Hj]|[-> <-]].
    + by eapply Huniq.
    + apply list_elem_of_lookup_2 in Hi. apply Hnone in Hi. congruence.
    + apply list_elem_of_lookup_2 in Hj. apply Hnone in Hj.
      apply staging_conflict_sym in Hab. congruence.
    + done.
  - assert (∀ i x, (before ++ s :: after) !! i = Some x →
                   ∃ y, (before ++ old :: after) !! i = Some y
                        ∧ (staging_conflict x y = true ∨ x = y)) as Hsame.
    { intros i x Hx.
      destruct (decide (i = length before)) as [->|Hne].
      - rewrite list_lookup_middle in Hx by done. injection Hx as <-.
        exists old. rewrite list_lookup_middle by done.
        split; [done|]. left. by apply staging_conflict_sym.
      - exists x. split; [|by right].
        rewrite <- Hx.
        destruct (decide (i < length before)%nat) as [Hlt|Hge].
        + by rewrite !lookup_app_l.
        + rewrite !lookup_app_r by lia.
          destruct (i - length before)%nat as [|m] eqn:Hm; [lia|done]. }
    intros i j a b Hi Hj Hab.
    destruct (Hsame _ _ Hi) as (a' & Hi' & Ha).
    destruct (Hsame _ _ Hj) as (b' & Hj' & Hb).
    apply (Huniq i j a' b' Hi' Hj').
    destruct Ha as [Ha| ->], Hb as [Hb| ->].
    + apply (staging_conflict_trans a' a b'); [by apply staging_conflict_sym|].
      by apply (staging_conflict_trans a b b').
    + apply (staging_conflict_trans a' a b'); [by apply staging_conflict_sym|done].
    + by apply (staging_conflict_trans a' b b').
    + done.
Qed.

Lemma staging_upsert_elem (s x : staging_row) (tbl : list staging_row) :
  x ∈ staging_upsert s tbl → x = s ∨ x ∈ tbl.
Proof.
  destruct (staging_upsert_cases s tbl)
    as [[-> _]|(before & old & after & -> & -> & _ & _)].
  - rewrite elem_of_app, list_elem_of_singleton. tauto.
  - rewrite !elem_of_app, !elem_of_cons. tauto.
Qed.

Lemma staged_of_inv (r : validated_record) (s : staging_row) :
  staged_of r = Ok s →
  s = {| st_order_id := integer_affinity (bind_text (order_id r));
         st_item := item r;
         st_quantity := quantity r;
         st_unit_price := bind_real (unit_price r);
         st_is_valid := is_valid r;
         st_error_message := error_message r;
         st_customer_id := integer_affinity (bind_text (customer_id r));
         st_order_date := date r |}
  ∧ bind_int (quantity r) = Ok (quantity r)
  ∧ integer_affinity (bind_text (order_id r)) ≠ SqlNull.
Proof.
  unfold staged_of.
  destruct (bind_int (quantity r)) as [q|] eqn:Hq; simpl; [|done].
  apply bind_int_ok in Hq as Hq'. subst q.
  case_decide; [done|]. by intros [= <-].
Qed.

Lemma bind_real_idempotent (p : option float) :
  bind_real (bind_real p) = bind_real p.
Proof.
  destruct p as [f|]; simpl; [|done].
  destruct (float_is_nan f) eqn:Hf; simpl; [done|]. by rewrite Hf.
Qed.

Lemma staged_of_facts (r : validated_record) (s : staging_row) :
  staged_of r = Ok s →
  staging_normal s
  ∧ staged_child_key s = child_key r
  ∧ staged_item s = stored_item r
  ∧ st_item s = item r
  ∧ bind_int (st_quantity s) = Ok (st_quantity s).
Proof.
  intros (-> & Hq & Hnull)%staged_of_inv.
  unfold staging_normal, staged_child_key, child_key, staged_item, stored_item.
  simpl. rewrite integer_affinity_idempotent, bind_real_idempotent. done.
Qed.

Lemma stage_all_app (b1 b2 : list validated_record) (tbl : list staging_row) :
  stage_all (b1 ++ b2) tbl = (stage_all b1 tbl ≫= stage_all b2).
Proof.
  revert tbl. induction b1 as [|r b1 IH]; intros tbl; simpl; [done|].
  destruct (staged_of r); simpl; [apply IH|done].
Qed.

(** What holds of every row of a staging table loaded by step 2 *)
Lemma stage_all_invariant (batch : list validated_record)
    (tbl0 tbl : list staging_row) :
  stage_all batch tbl0 = Ok tbl →
  staging_unique tbl0 → Forall staging_normal tbl0 →
  staging_unique tbl ∧ Forall staging_normal tbl
  ∧ ∀ s, s ∈ tbl → s ∈ tbl0 ∨ ∃ r, r ∈ batch ∧ staged_of r = Ok s.
Proof.
  revert tbl0. induction batch as [|r batch IH]; intros tbl0; simpl.
  - intros [= <-] ? ?. split_and!; eauto.
  - destruct (staged_of r) as [s|] eqn:Hs; simpl; [|done].
    intros Hrest Huniq Hnormal.
    destruct (staged_of_facts _ _ Hs) as (Hn & _).
    apply IH in Hrest as (Huniq' & Hnormal' & Hfrom).
    + split_and!; [done|done|].
      intros x Hx. destruct (Hfrom x Hx) as [Hx'|(r' & Hr' & Hx')].
      * apply staging_upsert_elem in Hx' as [->|Hx'].
        -- right. exists r. split; [by left|done].
        -- by left.
      * right. exists r'. split; [by right|done].
    + by apply staging_upsert_unique.
    + apply Forall_forall. intros x [->|Hx]%staging_upsert_elem; [done|].
      by eapply Forall_forall in Hnormal.
Qed.

Lemma staging_unique_nil : staging_unique [].
Proof. intros i j s s' Hi. by rewrite lookup_nil in Hi. Qed.

Lemma stage_all_ready (batch : list validated_record) (tbl : list staging_row) :
  stage_all batch [] = Ok tbl → Forall storable batch → Forall upsert_ready tbl.
Proof.
  intros Hstage Hstorable.
  destruct (stage_all_invariant _ _ _ Hstage staging_unique_nil)
    as (_ & _ & Hfrom); [done|].
  apply Forall_forall. intros s Hs.
  destruct (Hfrom s Hs) as [Hnil|(r & Hr & Hsr)]; [by apply elem_of_nil in Hnil|].
  eapply Forall_forall in Hstorable as [[z Hz] _]; [|done].
  destruct (staged_of_facts _ _ Hsr) as (_ & _ & _ & _ & Hq).
  apply staged_of_inv in Hsr as (Heq & _). split; [|done].
  exists z. rewrite Heq. simpl. by rewrite integer_affinity_idempotent.
Qed.

Lemma stage_all_storable (batch : list validated_record)
    (tbl0 : list staging_row) :
  Forall storable batch → ∃ tbl, stage_all batch tbl0 = Ok tbl.
Proof.
  intros Hall. revert tbl0.
  induction Hall as [|r batch [[z Hz] Hq] _ IH]; intros tbl0; simpl.
  - eauto.
  - unfold staged_of.
    assert (bind_int (quantity r) = Ok (quantity r)) as ->.
    { destruct (quantity r) as [q|]; simpl; [|done].
      by rewrite bool_decide_eq_true_2 by auto. }
    simpl. rewrite Hz. destruct (decide (SqlInt z = SqlNull)); [done|].
    simpl. apply IH.
Qed.

End StagingFacts.

Section LastWins.
Context `{Platform}.

Lemma conflict_same_child (a b : staging_row) :
  staging_conflict a b = true → staged_child_key a = staged_child_key b.
Proof.
  intros (Ho & _ & i & Ha & Hb)%staging_conflict_true.
  unfold staged_child_key. by rewrite Ho, Ha, Hb.
Qed.

Lemma item_or_blank_regular (x : option string) (i : string) :
  item_or_blank x = i → i ≠ BLANK_ITEM → x = Some i.
Proof.
  unfold item_or_blank. destruct x as [s|]; [|congruence].
  case_decide; congruence.
Qed.

Lemma filter_upsert_other (k : sqlval * string) (s : staging_row)
    (tbl : list staging_row) :
  staged_child_key s ≠ k →
  filter (λ x, staged_child_key x = k) (staging_upsert s tbl)
  = filter (λ x, staged_child_key x = k) tbl.
Proof.
  intros Hs.
  destruct (staging_upsert_cases s tbl)
    as [[-> _]|(before & old & after & -> & -> & Hc & _)].
  - rewrite filter_app, filter_cons_False by done. by rewrite app_nil_r.
  - apply conflict_same_child in Hc.
    rewrite !filter_app.
    rewrite (filter_cons_False _ s) by done.
    by rewrite (filter_cons_False _ old) by congruence.
Qed.

(** Rows staged later under other keys leave the last row of a key alone. *)
Lemma last_staged_stage_all (k : sqlval * string)
    (batch : list validated_record) (tbl0 tbl : list staging_row) :
  stage_all batch tbl0 = Ok tbl →
  (∀ r, r ∈ batch → child_key r ≠ k) →
  last_staged k tbl = last_staged k tbl0.
Proof.
  revert tbl0. induction batch as [|r batch IH]; intros tbl0; simpl.
  - by intros [= <-] _.
  - destruct (staged_of r) as [s|] eqn:Hs; simpl; [|done].
    intros Hrest Hother.
    destruct (staged_of_facts _ _ Hs) as (_ & Hkey & _).
    rewrite (IH _ Hrest) by (intros r' Hr'; apply Hother; by right).
    unfold last_staged. rewrite filter_upsert_other; [done|].
    rewrite Hkey. apply Hother. by left.
Qed.

Lemma filter_none {A} (P : A → Prop) `{∀ x, Decision (P x)} (l : list A) :
  (∀ x, x ∈ l → ¬ P x) → filter P l = [].
Proof.
  induction l as [|x l IH]; intros Hall; [done|].
  rewrite filter_cons_False by (apply Hall; by left).
  apply IH. intros y Hy. apply Hall. by right.
Qed.

(** A row just staged is the last row of its key, when its item is null
    or an ordinary name. *)
Lemma last_staged_upsert (s : staging_row) (tbl : list staging_row) :
  staging_unique tbl → Forall staging_normal tbl → staging_normal s →
  st_item s ≠ Some "" → st_item s ≠ Some BLANK_ITEM →
  last_staged (staged_child_key s) (staging_upsert s tbl) = Some s.
Proof.
  intros Huniq Hnormal [Hs Hnull] Hempty Hblank. unfold last_staged.
  destruct (staging_upsert_cases s tbl)
    as [[-> _]|(before & old & after & -> & -> & Hc & _)].
  - rewrite filter_app, filter_cons_True by done.
    by rewrite filter_nil, last_snoc.
  - rewrite filter_app, filter_cons_True by done.
    assert (filter (λ x, staged_child_key x = staged_child_key s) after = [])
      as ->; [|by rewrite last_snoc].
    apply filter_none. intros x Hx Hkey.
    apply staging_conflict_true in Hc as (Ho & Hon & i & Hio & His).
    assert (staging_normal x) as [Hxn _].
    { eapply Forall_forall in Hnormal; [done|].
      apply elem_of_app. right. by right. }
    unfold staged_child_key in Hkey. injection Hkey as Hko Hki.
    rewrite Hxn, Hs in Hko.
    rewrite His in Hki. unfold item_or_blank at 2 in Hki.
    destruct (decide (i = "")) as [->|_]; [done|].
    apply item_or_blank_regular in Hki; [|congruence].
    assert (staging_conflict old x = true) as Hox.
    { apply staging_conflict_true. split_and!; [congruence|done|eauto]. }
    apply list_elem_of_lookup in Hx as [n Hn].
    assert ((before ++ old :: after) !! (length before + S n)%nat = Some x)
      as Hxi.
    { rewrite lookup_app_r by lia.
      by replace (length before + S n - length before)%nat with (S n) by lia. }
    pose proof (Huniq (length before) _ old x
                  (list_lookup_middle _ _ _ _ eq_refl) Hxi Hox).
    lia.
Qed.

Lemma tri_or_false (a b : tri) : tri_or a b = TFalse ↔ a = TFalse ∧ b = TFalse.
Proof. destruct a, b; simpl; split; try done; by intros [? ?]. Qed.

Lemma sql_row_in_false (x : sqlval * sqlval) (rows : list (sqlval * sqlval)) :
  sql_row_in x rows = TFalse ↔ ∀ y, y ∈ rows → sql_row_eq x y = TFalse.
Proof.
  unfold sql_row_in. induction rows as [|y rows IH]; simpl.
  - split; [by intros _ y ?%elem_of_nil|done].
  - rewrite tri_or_false, IH. split.
    + intros [Hy Hrows] y' [->|?]%elem_of_cons; eauto.
    + intros Hall. split; [apply Hall; by left|].
      intros y' ?. apply Hall. by right.
Qed.

Lemma sql_in_false (x : sqlval) (rows : list sqlval) :
  sql_in x rows = TFalse ↔ ∀ y, y ∈ rows → sql_eq x y = TFalse.
Proof.
  unfold sql_in. induction rows as [|y rows IH]; simpl.
  - split; [by intros _ y ?%elem_of_nil|done].
  - rewrite tri_or_false, IH. split.
    + intros [Hy Hrows] y' [->|?]%elem_of_cons; eauto.
    + intros Hall. split; [apply Hall; by left|].
      intros y' ?. apply Hall. by right.
Qed.

(** Step 4 keeps the child of every staged row whose item is not the empty
    string: its key is found in the staging table, or the comparison with
    its own staged row is NULL. *)
Lemma staged_row_kept (s : staging_row) (tbl : list staging_row) :
  s ∈ tbl → staging_normal s → st_item s ≠ Some "" →
  sql_row_in ((staged_child_key s).1, SqlText (staged_child_key s).2)
    (staging_keys tbl) ≠ TFalse.
Proof.
  intros Hin [Hs Hnull] Hempty Hfalse.
  rewrite sql_row_in_false in Hfalse.
  specialize (Hfalse (st_order_id s, bind_text (st_item s))).
  unfold sql_row_eq, staged_child_key in Hfalse. simpl in Hfalse.
  rewrite Hs in Hfalse.
  assert (sql_eq (st_order_id s) (st_order_id s) = TTrue) as Heq
    by by apply sql_eq_true.
  rewrite Heq in Hfalse.
  assert (tri_and TTrue
            (sql_eq (SqlText (item_or_blank (st_item s)))
                    (bind_text (st_item s))) ≠ TFalse) as Hne.
  { destruct (st_item s) as [i|]; simpl; [|done].
    unfold item_or_blank. destruct (decide (i = "")) as [->|_]; [done|].
    unfold sql_eq. by rewrite decide_True. }
  apply Hne, Hfalse. unfold staging_keys.
  apply list_elem_of_fmap. by exists s.
Qed.

Lemma last_staged_elem (k : sqlval * string) (tbl : list staging_row)
    (s : staging_row) :
  last_staged k tbl = Some s → s ∈ tbl ∧ staged_child_key s = k.
Proof.
  unfold last_staged. intros Hlast.
  assert (s ∈ filter (λ x, staged_child_key x = k) tbl) as Hin.
  { apply last_Some in Hlast as [l' ->]. apply elem_of_app. right. by left. }
  by apply list_elem_of_filter in Hin as [? ?].
Qed.

(** The last record of a batch with its key is what the store holds under
    that key after a sync that returns. *)
Lemma synced_child (db db' : database) (b1 b2 : list validated_record)
    (r : validated_record) :
  sync_database db (b1 ++ r :: b2) = Ok db' →
  (∀ r', r' ∈ b2 → child_key r' ≠ child_key r) →
  item r ≠ Some "" → item r ≠ Some BLANK_ITEM →
  order_items db' !! child_key r = Some (stored_item r).
Proof.
  intros Hsync Hlast Hempty Hblank.
  destruct (sync_database_ok _ _ _ Hsync)
    as (tbl & Hstage & _ & _ & Hitems & _).
  destruct (stage_all_invariant _ _ _ Hstage staging_unique_nil)
    as (_ & Hnormal & _); [done|].
  rewrite stage_all_app in Hstage.
  destruct (stage_all b1 []) as [t1|] eqn:H1; simpl in Hstage; [|done].
  destruct (staged_of r) as [s|] eqn:Hs; simpl in Hstage; [|done].
  destruct (stage_all_invariant _ _ _ H1 staging_unique_nil)
    as (Huniq1 & Hnormal1 & _); [done|].
  destruct (staged_of_facts _ _ Hs) as (Hn & Hkey & Hitem & Hit & _).
  assert (last_staged (child_key r) tbl = Some s) as Hl.
  { rewrite (last_staged_stage_all _ _ _ _ Hstage Hlast), <- Hkey.
    apply last_staged_upsert; try done; by rewrite Hit. }
  rewrite Hitems, Hl, Hitem.
  apply last_staged_elem in Hl as [Hin _].
  case_decide as Hdead; [|done].
  exfalso. revert Hdead. rewrite <- Hkey.
  apply staged_row_kept; [done| |by rewrite Hit].
  by eapply Forall_forall in Hnormal.
Qed.

Lemma stage_all_raise (batch : list validated_record) (tbl0 : list staging_row)
    (r : validated_record) :
  r ∈ batch → (∀ s, staged_of r ≠ Ok s) → ∃ e, stage_all batch tbl0 = Raise e.
Proof.
  intros Hin Hr. revert tbl0.
  induction batch as [|r' batch IH]; intros tbl0; [by apply elem_of_nil in Hin|].
  simpl. destruct (staged_of r') as [s|e] eqn:Hs; simpl; [|eauto].
  apply elem_of_cons in Hin as [->|Hin]; [by destruct (Hr s)|].
  by apply IH.
Qed.

Lemma bind_int_fits (q : option Z) :
  (∀ z : Z, q = Some z → (- 2 ^ 63 ≤ z < 2 ^ 63)%Z) → bind_int q = Ok q.
Proof.
  intros Hq. destruct q as [z|]; simpl; [|done].
  by rewrite bool_decide_eq_true_2 by by apply Hq.
Qed.

Lemma stageable_staged (r : validated_record) :
  stageable r → ∃ s, staged_of r = Ok s.
Proof.
  intros [[o Ho] Hq]. unfold staged_of.
  rewrite (bind_int_fits _ Hq), Ho. simpl.
  destruct (integer_affinity_text o) as [[z|f]|]; simpl; eauto.
Qed.

(** What the staging INSERT raises for a record it does not accept: the
    quantity is bound before the statement runs. *)
Lemma unstageable_raises (r : validated_record) :
  ¬ stageable r →
  ∃ e, staged_of r = Raise e
       ∧ ((∀ q : Z, quantity r = Some q → (- 2 ^ 63 ≤ q < 2 ^ 63)%Z) →
          e = IntegrityError
                "NOT NULL constraint failed: staging_order_items.order_id")
       ∧ (∀ q : Z, quantity r = Some q → ¬ (- 2 ^ 63 ≤ q < 2 ^ 63)%Z →
          e = OverflowError).
Proof.
  intros Hr. unfold staged_of.
  destruct (quantity r) as [q|] eqn:Hq; simpl.
  - case_bool_decide as Hfit; simpl.
    + destruct (order_id r) as [o|] eqn:Ho.
      * destruct Hr. split; [by eauto|]. intros q0 Hq0. by simplify_eq.
      * simpl. eexists. split; [done|]. split; [done|].
        intros q0 Hq0 Hno. by simplify_eq.
    + eexists. split; [done|]. split; [|done].
      intros Hall. destruct Hfit. by apply Hall.
  - destruct (order_id r) as [o|] eqn:Ho.
    + destruct Hr. split; [by eauto|]. intros q0 Hq0. by simplify_eq.
    + simpl. eexists. split; [done|]. split; done.
Qed.

Lemma stage_all_first_failure (b1 b2 : list validated_record)
    (r : validated_record) (e : exn) (tbl0 : list staging_row) :
  Forall stageable b1 → staged_of r = Raise e →
  stage_all (b1 ++ r :: b2) tbl0 = Raise e.
Proof.
  intros Hb1 Hr. revert tbl0.
  induction Hb1 as [|r' b1 Hr' _ IH]; intros tbl0; simpl.
  - by rewrite Hr.
  - destruct (stageable_staged r' Hr') as [s ->]. simpl. apply IH.
Qed.

(** A batch with a record the staging table does not accept has a first
    such record. *)
Lemma first_unstageable (batch : list validated_record) (r : validated_record) :
  r ∈ batch → ¬ stageable r →
  ∃ b1 r1 b2, batch = b1 ++ r1 :: b2 ∧ Forall stageable b1 ∧ ¬ stageable r1.
Proof.
  intros Hin Hr. induction batch as [|r' batch IH];
    [by apply elem_of_nil in Hin|].
  assert (Decision (stageable r')) as [Hr'|Hr'].
  { unfold stageable. destruct (quantity r') as [q|].
    - destruct (decide (is_Some (order_id r') ∧ (- 2 ^ 63 ≤ q < 2 ^ 63)%Z))
        as [[? ?]|Hno]; [left|right].
      + split; [done|]. by intros ? [= <-].
      + intros [? Hq]. apply Hno. split; [done|]. by apply Hq.
    - destruct (decide (is_Some (order_id r'))); [left|right]; [|tauto].
      split; [done|]. done. }
  - apply elem_of_cons in Hin as [->|Hin]; [done|].
    destruct (IH Hin) as (b1 & r1 & b2 & -> & Hb1 & Hr1).
    exists (r' :: b1), r1, b2. split_and!; [done| |done].
    by constructor.
  - exists [], r', batch. split_and!; [done|constructor|done].
Qed.

(** C5, as the code has it: when every record of the batch has an order_id
    that is stored as an integer (and a quantity within 64 bits), missing
    or malformed other fields do not abort the sync: it returns, and a
    record whose item is null or an ordinary name and which is the last of
    the batch with its key is in [order_items] as validated, is_valid and
    error_message included.  A batch with a record without order_id does
    abort the sync, at the staging INSERT of the first record that has no
    order_id or whose quantity is outside 64 bits: with OverflowError when
    the quantity of that record is outside 64 bits, with the IntegrityError
    of the NOT NULL constraint otherwise; [orders] and [order_items] are
    left as they were. *)
Theorem field_errors_and_the_sync (db : database)
    (batch : list validated_record) :
  (Forall storable batch →
   ∃ db', sync_run db None batch = (Ok (), db')
     ∧ ∀ b1 r b2,
         batch = b1 ++ r :: b2 →
         (∀ r', r' ∈ b2 → child_key r' ≠ child_key r) →
         item r ≠ Some "" → item r ≠ Some BLANK_ITEM →
         order_items db' !! child_key r = Some (stored_item r))
  ∧ (∀ r, r ∈ batch → order_id r = None →
     ∃ b1 r1 b2 e db',
       batch = b1 ++ r1 :: b2
       ∧ Forall stageable b1 ∧ ¬ stageable r1
       ∧ sync_run db None batch = (Raise e, db')
       ∧ ((∀ q : Z, quantity r1 = Some q → (- 2 ^ 63 ≤ q < 2 ^ 63)%Z) →
          e = IntegrityError
                "NOT NULL constraint failed: staging_order_items.order_id")
       ∧ (∀ q : Z, quantity r1 = Some q → ¬ (- 2 ^ 63 ≤ q < 2 ^ 63)%Z →
          e = OverflowError)
       ∧ orders db' = orders db ∧ order_items db' = order_items db).
Proof.
  split.
  - intros Hstorable.
    destruct (stage_all_storable batch [] Hstorable) as [tbl Hstage].
    pose proof (stage_all_ready _ _ Hstage Hstorable) as Hready.
    destruct (sync_database_ready db batch tbl Hstage Hready) as [db' Hsync].
    exists db'. split.
    + pose proof (sync_run_alive db batch) as Halive.
      by rewrite Hsync in Halive.
    + intros b1 r b2 -> Hlast Hempty Hblank. by eapply synced_child.
  - intros r Hin Hnull.
    destruct (first_unstageable batch r Hin) as (b1 & r1 & b2 & -> & Hb1 & Hr1).
    { intros [[o Ho] _]. congruence. }
    destruct (unstageable_raises r1 Hr1) as (e & Hraise & Hnull1 & Hover).
    pose proof (stage_all_first_failure b1 b2 r1 e [] Hb1 Hraise) as Hstage.
    pose proof (sync_run_alive db (b1 ++ r1 :: b2)) as Halive.
    unfold sync_database in Halive. rewrite Hstage in Halive. simpl in Halive.
    destruct (sync_run db None (b1 ++ r1 :: b2)) as [res db'] eqn:Hrun.
    simpl in Halive. subst res.
    exists b1, r1, b2, e, db'. split_and!; try done.
    all: by eapply sync_run_raise_frozen.
Qed.

End LastWins.

(** * The key sets after a sync *)

Section KeySets.
Context `{Platform}.

Lemma elem_of_item_order_ids (db : database) (id : sqlval) :
  id ∈ item_order_ids db ↔ ∃ it row, order_items db !! (id, it) = Some row.
Proof.
  unfold item_order_ids. rewrite list_elem_of_fmap. split.
  - intros ([[id' it] row] & -> & Hin). exists it, row.
    by apply elem_of_map_to_list in Hin.
  - intros (it & row & Hrow). exists ((id, it), row). split; [done|].
    by apply elem_of_map_to_list.
Qed.

Lemma sql_row_in_not_false (x : sqlval * sqlval)
    (rows : list (sqlval * sqlval)) :
  sql_row_in x rows ≠ TFalse → ∃ y, y ∈ rows ∧ sql_row_eq x y ≠ TFalse.
Proof.
  unfold sql_row_in. induction rows as [|y rows IH]; simpl; [done|].
  intros Hor. destruct (decide (sql_row_eq x y = TFalse)) as [Hy|Hy].
  - destruct IH as (y' & Hy' & Hne).
    { intros Hrest. apply Hor. by rewrite Hy, Hrest. }
    exists y'. split; [by right|done].
  - exists y. split; [by left|done].
Qed.

Lemma sql_in_not_false (x : sqlval) (rows : list sqlval) :
  sql_in x rows ≠ TFalse → ∃ y, y ∈ rows ∧ sql_eq x y ≠ TFalse.
Proof.
  unfold sql_in. induction rows as [|y rows IH]; simpl; [done|].
  intros Hor. destruct (decide (sql_eq x y = TFalse)) as [Hy|Hy].
  - destruct IH as (y' & Hy' & Hne).
    { intros Hrest. apply Hor. by rewrite Hy, Hrest. }
    exists y'. split; [by right|done].
  - exists y. split; [by left|done].
Qed.

Lemma tri_and_not_false (a b : tri) :
  tri_and a b ≠ TFalse ↔ a ≠ TFalse ∧ b ≠ TFalse.
Proof.
  destruct a, b; simpl; split; try done; try (by intros [? ?]).
Qed.

Lemma sql_eq_int_not_false (z : Z) (y : sqlval) :
  sql_eq (SqlInt z) y ≠ TFalse → y = SqlInt z ∨ y = SqlNull.
Proof.
  unfold sql_eq. destruct y; try case_decide; try done; eauto.
Qed.

Lemma last_filter_is_Some {A} (P : A → Prop) `{∀ x, Decision (P x)}
    (l : list A) (x : A) :
  x ∈ l → P x → is_Some (last (filter P l)).
Proof.
  intros Hin HP.
  assert (x ∈ filter P l) as Hf by by apply list_elem_of_filter.
  destruct (filter P l) as [|y l'] using rev_ind; [by apply elem_of_nil in Hf|].
  rewrite last_snoc. eauto.
Qed.

(** A child that step 4 keeps has the order_id of a staged row. *)
Lemma kept_child_staged_order (tbl : list staging_row) (z : Z) (it : string) :
  Forall staging_normal tbl →
  sql_row_in (SqlInt z, SqlText it) (staging_keys tbl) ≠ TFalse →
  ∃ s, s ∈ tbl ∧ st_order_id s = SqlInt z
       ∧ sql_eq (SqlText it) (bind_text (st_item s)) ≠ TFalse.
Proof.
  intros Hnormal (y & Hy & Hne)%sql_row_in_not_false.
  unfold staging_keys in Hy. apply list_elem_of_fmap in Hy as (s & -> & Hs).
  unfold sql_row_eq in Hne. simpl in Hne.
  apply tri_and_not_false in Hne as [Hoid Hitem].
  exists s. split_and!; [done| |done].
  eapply Forall_forall in Hnormal as [_ Hnull]; [|done].
  by destruct (sql_eq_int_not_false _ _ Hoid).
Qed.

(** A sync that returns leaves every child with its parent and no parent
    without a child. *)
Lemma sync_database_consistent (db db' : database)
    (batch : list validated_record) :
  consistent db → sync_database db batch = Ok db' → consistent db'.
Proof.
  intros [Href _] Hsync.
  destruct (sync_database_ok _ _ _ Hsync)
    as (tbl & Hstage & Hready & _ & Hitems & Horders).
  destruct (stage_all_invariant _ _ _ Hstage staging_unique_nil)
    as (_ & Hnormal & _); [done|].
  assert (∀ k row, order_items db' !! k = Some row → ∃ z, k.1 = SqlInt z)
    as Hint.
  { intros k row Hk. rewrite Hitems in Hk. case_decide; [done|].
    destruct (last_staged k tbl) as [s|] eqn:Hl.
    - apply last_staged_elem in Hl as [Hs <-].
      eapply Forall_forall in Hready as [Hz _]; [|done]. done.
    - destruct (Href _ _ Hk) as (z & Hz & _). eauto. }
  split.
  - intros [oid it] row Hk.
    destruct (Hint _ _ Hk) as [z Hz]. simpl in Hz. subst oid.
    exists z. split; [done|].
    pose proof Hk as Hkept. rewrite Hitems in Hkept. simpl in Hkept.
    case_decide as Hdead; [done|].
    destruct (kept_child_staged_order tbl z it Hnormal Hdead)
      as (s & Hs & Hoid & _).
    rewrite Horders, decide_False.
    + destruct (last_filter_is_Some
                  (λ s, integer_affinity (st_order_id s) = SqlInt z) tbl s)
        as [s' Hs']; [done|by rewrite Hoid|].
      unfold last_order. rewrite Hs'. eauto.
    + rewrite sql_in_false. intros Hall.
      specialize (Hall (SqlInt z)). rewrite elem_of_item_order_ids in Hall.
      assert (sql_eq (SqlInt z) (SqlInt z) = TTrue) as Heq
        by by apply sql_eq_true.
      rewrite Hall in Heq; [done|eauto].
  - intros z Hz. rewrite Horders in Hz.
    case_decide as Horphan; [by destruct Hz|].
    apply sql_in_not_false in Horphan as (id & Hid & Hne).
    apply elem_of_item_order_ids in Hid as (it & row & Hrow).
    destruct (Hint _ _ Hrow) as [z' Hz']. simpl in Hz'. subst id.
    destruct (sql_eq_int_not_false _ _ Hne) as [[= ->]|?]; [|done].
    exists it. eauto.
Qed.

Lemma persisted_consistent (db : database) : persisted db → consistent db.
Proof.
  induction 1 as [|db kill batch _ IH].
  - split.
    + intros k row Hk. simpl in Hk. by rewrite lookup_empty in Hk.
    + intros z [o Ho]. simpl in Ho. by rewrite lookup_empty in Ho.
  - destruct (sync_run_cases db kill batch)
      as [(db' & -> & Hsync)|(e & db' & -> & Ho & Hi)]; simpl.
    + by eapply sync_database_consistent.
    + unfold consistent. by rewrite Ho, Hi.
Qed.

(** After a sync that returns, a child under an integer order_id has its
    parent, whatever the store held before. *)
Lemma synced_child_parent (db db' : database) (batch : list validated_record)
    (z : Z) (it : string) (row : item_row) :
  sync_database db batch = Ok db' →
  order_items db' !! (SqlInt z, it) = Some row →
  is_Some (orders db' !! z).
Proof.
  intros Hsync Hk.
  destruct (sync_database_ok _ _ _ Hsync)
    as (tbl & Hstage & Hready & _ & Hitems & Horders).
  destruct (stage_all_invariant _ _ _ Hstage staging_unique_nil)
    as (_ & Hnormal & _); [done|].
  pose proof Hk as Hkept. rewrite Hitems in Hkept. simpl in Hkept.
  case_decide as Hdead; [done|].
  destruct (kept_child_staged_order tbl z it Hnormal Hdead)
    as (s & Hs & Hoid & _).
  rewrite Horders, decide_False.
  - destruct (last_filter_is_Some
                (λ s, integer_affinity (st_order_id s) = SqlInt z) tbl s)
      as [s' Hs']; [done|by rewrite Hoid|].
    unfold last_order. rewrite Hs'. eauto.
  - rewrite sql_in_false. intros Hall.
    specialize (Hall (SqlInt z)). rewrite elem_of_item_order_ids in Hall.
    assert (sql_eq (SqlInt z) (SqlInt z) = TTrue) as Heq
      by by apply sql_eq_true.
    rewrite Hall in Heq; [done|eauto].
Qed.

(** The second half of C1: after a sync the parents are exactly the
    order_ids that a remaining child refers to. *)
Lemma sync_parents_are_referenced (db db' : database) (kill : option nat)
    (batch : list validated_record) (z : Z) :
  persisted db → sync_run db kill batch = (Ok (), db') →
  is_Some (orders db' !! z) ↔ ∃ it, is_Some (order_items db' !! (SqlInt z, it)).
Proof.
  intros Hdb Hrun.
  destruct (sync_database_consistent db db' batch) as [Href Hchild].
  { by apply persisted_consistent. }
  { by eapply sync_run_ok_inv. }
  split; [apply Hchild|].
  intros (it & row & Hrow).
  destruct (Href _ _ Hrow) as (z' & [= <-] & Hz). done.
Qed.

Lemma staging_upsert_has (s s0 : staging_row) (tbl : list staging_row) :
  s0 ∈ tbl ∨ s0 = s →
  ∃ s', s' ∈ staging_upsert s tbl
        ∧ st_order_id s' = st_order_id s0 ∧ st_item s' = st_item s0.
Proof.
  intros Hin.
  destruct (staging_upsert_cases s tbl)
    as [[-> _]|(before & old & after & -> & -> & Hc & _)].
  - exists s0. split; [|done]. rewrite elem_of_app, list_elem_of_singleton. tauto.
  - destruct Hin as [Hin| ->].
    + rewrite elem_of_app, elem_of_cons in Hin.
      destruct Hin as [Hin|[->|Hin]].
      * exists s0. rewrite elem_of_app. eauto.
      * apply staging_conflict_true in Hc as (Ho & _ & i & Ha & Hb).
        exists s. rewrite elem_of_app, elem_of_cons.
        split_and!; [eauto|done|congruence].
      * exists s0. rewrite elem_of_app, elem_of_cons. eauto.
    + exists s. rewrite elem_of_app, elem_of_cons. eauto.
Qed.

Lemma stage_all_keeps (batch : list validated_record)
    (tbl0 tbl : list staging_row) (s0 : staging_row) :
  stage_all batch tbl0 = Ok tbl → s0 ∈ tbl0 →
  ∃ s, s ∈ tbl ∧ st_order_id s = st_order_id s0 ∧ st_item s = st_item s0.
Proof.
  revert tbl0 s0. induction batch as [|r batch IH]; intros tbl0 s0; simpl.
  - intros [= <-] ?. eauto.
  - destruct (staged_of r) as [sr|] eqn:Hsr; simpl; [|done].
    intros Hrest Hin.
    destruct (staging_upsert_has sr s0 tbl0) as (s1 & Hs1 & Ho1 & Hi1);
      [by left|].
    destruct (IH _ _ Hrest Hs1) as (s & Hs & Ho & Hi).
    exists s. split_and!; [done|congruence|congruence].
Qed.

(** Every record of a batch has a staged row with its order_id and item. *)
Lemma stage_all_has (batch : list validated_record)
    (tbl0 tbl : list staging_row) (r : validated_record) :
  stage_all batch tbl0 = Ok tbl → r ∈ batch →
  ∃ s, s ∈ tbl
       ∧ st_order_id s = integer_affinity (bind_text (order_id r))
       ∧ st_item s = item r.
Proof.
  revert tbl0. induction batch as [|r' batch IH]; intros tbl0; simpl.
  - intros _ Hin. by apply elem_of_nil in Hin.
  - destruct (staged_of r') as [sr|] eqn:Hsr; simpl; [|done].
    intros Hrest [->|Hin]%elem_of_cons; [|by eapply IH].
    destruct (staging_upsert_has sr sr tbl0) as (s1 & Hs1 & Ho1 & Hi1);
      [by right|].
    destruct (stage_all_keeps _ _ _ _ Hrest Hs1) as (s & Hs & Ho & Hi).
    apply staged_of_inv in Hsr as (-> & _). simpl in *.
    exists s. split_and!; [done|congruence|congruence].
Qed.

(** The first half of C1 where it holds: when no record of the batch has
    a null or empty item, the keys of [order_items] after the sync are
    exactly the keys of the records of the batch. *)
Lemma sync_children_are_staged (db db' : database) (kill : option nat)
    (batch : list validated_record) (k : sqlval * string) :
  persisted db → sync_run db kill batch = (Ok (), db') →
  (∀ r, r ∈ batch → ∃ i, item r = Some i ∧ i ≠ "") →
  is_Some (order_items db' !! k) ↔ ∃ r, r ∈ batch ∧ child_key r = k.
Proof.
  intros [Href _]%persisted_consistent Hsync%sync_run_ok_inv Hitems.
  destruct (sync_database_ok _ _ _ Hsync)
    as (tbl & Hstage & Hready & _ & Hlookup & _).
  destruct (stage_all_invariant _ _ _ Hstage staging_unique_nil)
    as (_ & Hnormal & Hfrom); [done|].
  rewrite Hlookup. split.
  - intros Hsome. case_decide as Hdead; [by destruct Hsome|].
    destruct (last_staged k tbl) as [s|] eqn:Hl.
    + apply last_staged_elem in Hl as [Hs <-].
      destruct (Hfrom s Hs) as [Hnil|(r & Hr & Hsr)];
        [by apply elem_of_nil in Hnil|].
      exists r. split; [done|].
      by destruct (staged_of_facts _ _ Hsr) as (_ & -> & _).
    + exfalso. destruct Hsome as [row Hrow].
      destruct (Href _ _ Hrow) as (z & Hz & _).
      destruct k as [oid it]. simpl in *. subst oid.
      destruct (kept_child_staged_order tbl z it Hnormal Hdead)
        as (s & Hs & Hoid & Hit).
      destruct (Hfrom s Hs) as [Hnil|(r & Hr & Hsr)];
        [by apply elem_of_nil in Hnil|].
      destruct (Hitems r Hr) as (i & Hi & Hne).
      destruct (staged_of_facts _ _ Hsr) as (_ & _ & _ & Hsi & _).
      rewrite Hsi, Hi in Hit. simpl in Hit. unfold sql_eq in Hit.
      case_decide as Heq; [|done]. injection Heq as ->.
      assert (staged_child_key s = (SqlInt z, i)) as Hkey.
      { unfold staged_child_key, item_or_blank.
        rewrite Hoid, Hsi, Hi. simpl. by rewrite decide_False. }
      destruct (last_filter_is_Some
                  (λ x, staged_child_key x = (SqlInt z, i)) tbl s Hs Hkey)
        as [s' Hs'].
      unfold last_staged in Hl. congruence.
  - intros (r & Hr & <-).
    destruct (stage_all_has _ _ _ _ Hstage Hr) as (s & Hs & Hoid & Hit).
    destruct (Hitems r Hr) as (i & Hi & Hne).
    assert (staging_normal s) as Hn by by eapply Forall_forall in Hnormal.
    assert (staged_child_key s = child_key r) as Hkey.
    { unfold staged_child_key, child_key.
      by rewrite Hoid, Hit, integer_affinity_idempotent. }
    rewrite decide_False.
    + destruct (last_filter_is_Some
                  (λ x, staged_child_key x = child_key r) tbl s Hs Hkey)
        as [s' Hs'].
      unfold last_staged. rewrite Hs'. eauto.
    + rewrite <- Hkey. apply staged_row_kept; [done|done|].
      rewrite Hit, Hi. congruence.
Qed.

(** The first half of C1 where it fails: a record of the batch without an
    item keeps every child its order had before the sync. *)
Lemma null_item_keeps_stale_children (db db' : database) (kill : option nat)
    (batch : list validated_record) (r : validated_record) (z : Z)
    (it : string) :
  sync_run db kill batch = (Ok (), db') →
  r ∈ batch → item r = None →
  integer_affinity (bind_text (order_id r)) = SqlInt z →
  is_Some (order_items db !! (SqlInt z, it)) →
  is_Some (order_items db' !! (SqlInt z, it)).
Proof.
  intros Hsync%sync_run_ok_inv Hr Hnull Hz Hold.
  destruct (sync_database_ok _ _ _ Hsync)
    as (tbl & Hstage & _ & _ & Hlookup & _).
  destruct (stage_all_has _ _ _ _ Hstage Hr) as (s & Hs & Hoid & Hit).
  rewrite Hlookup, decide_False.
  - by destruct (last_staged (SqlInt z, it) tbl).
  - simpl. rewrite sql_row_in_false. intros Hall.
    specialize (Hall (st_order_id s, bind_text (st_item s))).
    rewrite Hoid, Hz, Hit, Hnull in Hall. unfold sql_row_eq in Hall.
    simpl in Hall. rewrite decide_True in Hall by done. simpl in Hall.
    assert (TNull = TFalse) as Habsurd; [|done].
    apply Hall. unfold staging_keys. apply list_elem_of_fmap.
    exists s. split; [|done]. by rewrite Hoid, Hz, Hit, Hnull.
Qed.

End KeySets.

(** * Properties of the aggregations and of the export *)

Section QueryFacts.
Context `{Platform}.

(** The children of an order are the rows of [order_items] with its id. *)
Lemma elem_of_children_of (db : database) (z : Z) (it : string)
    (row : item_row) :
  (it, row) ∈ children_of db z ↔ order_items db !! (SqlInt z, it) = Some row.
Proof.
  unfold children_of. rewrite list_elem_of_omap. split.
  - intros ([[oid it'] row'] & Hin & Hf). simpl in Hf.
    case_decide as Hoid; [|done]. injection Hf as -> ->. subst oid.
    by apply elem_of_map_to_list in Hin.
  - intros Hrow. exists ((SqlInt z, it), row). split.
    + by apply elem_of_map_to_list.
    + simpl. by rewrite decide_True.
Qed.

Lemma NoDup_omap_keys {K A B C} `{Countable K} (m : gmap K A)
    (f : K * A → option B) (g : B → C) (h : C → K) :
  (∀ kv y, f kv = Some y → h (g y) = kv.1) →
  NoDup (g <$> omap f (map_to_list m)).
Proof.
  intros Hf. pose proof (NoDup_fst_map_to_list m) as Hnd.
  induction (map_to_list m) as [|kv l IH]; simpl; [constructor|].
  apply NoDup_cons in Hnd as [Hkv Hnd].
  destruct (f kv) as [y|] eqn:Hy; simpl; [|by apply IH].
  apply NoDup_cons. split; [|by apply IH].
  intros (y' & Hg & Hy')%list_elem_of_fmap.
  apply list_elem_of_omap in Hy' as (kv' & Hkv' & Hf').
  apply Hkv. apply list_elem_of_fmap. exists kv'. split; [|done].
  by rewrite <- (Hf _ _ Hy), Hg, (Hf _ _ Hf').
Qed.

Lemma NoDup_children_items (db : database) (z : Z) :
  NoDup ((children_of db z).*1).
Proof.
  unfold children_of.
  apply (NoDup_omap_keys _ _ fst (λ it, (SqlInt z, it))).
  intros [[oid it] row] y Hy. simpl in *.
  case_decide; [|done]. injection Hy as <-. simpl. by subst.
Qed.

Lemma filter_key_singleton {A} (l : list (string * A)) (k : string) (v : A) :
  NoDup (l.*1) → (k, v) ∈ l → filter (λ c : string * A, c.1 = k) l = [(k, v)].
Proof.
  induction l as [|[k' v'] l IH]; intros Hnd Hin; [by apply elem_of_nil in Hin|].
  simpl in Hnd. apply NoDup_cons in Hnd as [Hk' Hnd].
  apply elem_of_cons in Hin as [[= <- <-]|Hin].
  - rewrite filter_cons_True by done. f_equal.
    apply filter_none. intros [k'' v''] Hin' Heq. simpl in Heq. subst k''.
    apply Hk'. apply list_elem_of_fmap. by exists (k, v'').
  - rewrite filter_cons_False; [by apply IH|].
    simpl. intros ->. apply Hk'. apply list_elem_of_fmap. by exists (k, v).
Qed.

Lemma export_terms_priced (items : list (string * item_row)) :
  Some <$> export_terms items
  = (λ c : string * item_row, line_total c.2) <$> filter priced_child items.
Proof.
  induction items as [|[it row] items IH]; [done|].
  unfold export_terms. cbn [omap list_omap fst snd].
  change (omap _ items) with (export_terms items).
  destruct (decide (it = BLANK_ITEM)) as [->|Hit].
  - rewrite filter_cons_False by (by intros [? _]). done.
  - destruct (i_quantity row) as [q|] eqn:Hq.
    + destruct (i_unit_price row) as [p|] eqn:Hp.
      * rewrite filter_cons_True
          by (unfold priced_child; simpl; rewrite Hq, Hp; eauto).
        simpl. unfold line_total at 1. rewrite Hq, Hp. simpl.
        f_equal. exact IH.
      * rewrite filter_cons_False; [done|].
        unfold priced_child. simpl. rewrite Hp. by intros (_ & _ & [? ?]).
    + rewrite filter_cons_False; [done|].
      unfold priced_child. simpl. rewrite Hq. by intros (_ & [? ?] & _).
Qed.

Lemma elem_of_export_json (db : database) (e : export_order) :
  e ∈ export_json db →
  ∃ o, orders db !! eo_order_id e = Some o
       ∧ children_of db (eo_order_id e) ≠ []
       ∧ eo_total_price e
         = py_round2 (py_sum (export_terms (children_of db (eo_order_id e)))).
Proof.
  unfold export_json. intros ([z o] & Hin & Hf)%list_elem_of_omap.
  simpl in Hf. apply elem_of_map_to_list in Hin.
  destruct (children_of db z) as [|c items] eqn:Hitems; [done|].
  injection Hf as <-. simpl. rewrite Hitems. eauto.
Qed.

Lemma export_json_has (db : database) (z : Z) (o : order_row) :
  orders db !! z = Some o → children_of db z ≠ [] →
  ∃ e, e ∈ export_json db ∧ eo_order_id e = z
       ∧ eo_total_price e = py_round2 (py_sum (export_terms (children_of db z))).
Proof.
  intros Ho Hitems. unfold export_json.
  destruct (children_of db z) as [|c items] eqn:Hc; [done|].
  eexists. split.
  - apply list_elem_of_omap. exists (z, o). split.
    + by apply elem_of_map_to_list.
    + simpl. by rewrite Hc.
  - done.
Qed.

Lemma children_nonempty (db : database) (z : Z) :
  children_of db z ≠ [] ↔ ∃ it, is_Some (order_items db !! (SqlInt z, it)).
Proof.
  split.
  - destruct (children_of db z) as [|[it row] items] eqn:Hc; [done|].
    intros _. exists it, row. apply elem_of_children_of. rewrite Hc. by left.
  - intros (it & row & Hrow%elem_of_children_of) Hnil.
    rewrite Hnil in Hrow. by apply elem_of_nil in Hrow.
Qed.

Lemma totals_where_priced (c : string * item_row) :
  totals_where c = true ↔ priced_child c.
Proof.
  unfold totals_where, priced_child.
  rewrite !andb_true_iff, !bool_decide_eq_true. tauto.
Qed.

Lemma order_total_inputs_priced (db : database) (z : Z) :
  order_total_inputs db z
  = (λ c : string * item_row, sql_line_value c.2)
      <$> filter priced_child (children_of db z).
Proof.
  unfold order_total_inputs. f_equal.
  apply list_filter_iff. intros c. apply totals_where_priced.
Qed.

Lemma NoDup_fst_omap {A B C} (f : A * B → option (A * C)) (l : list (A * B)) :
  (∀ c y, f c = Some y → y.1 = c.1) → NoDup (l.*1) → NoDup ((omap f l).*1).
Proof.
  intros Hf. induction l as [|c l IH]; intros Hnd; [constructor|].
  simpl in Hnd. apply NoDup_cons in Hnd as [Hc Hnd]. simpl.
  destruct (f c) as [y|] eqn:Hy; simpl; [|by apply IH].
  apply NoDup_cons. split; [|by apply IH].
  intros (y' & Heq & (c' & Hc' & Hf')%list_elem_of_omap)%list_elem_of_fmap.
  apply Hc. apply list_elem_of_fmap. exists c'. split; [|done].
  by rewrite <- (Hf _ _ Hy), Heq, (Hf _ _ Hf').
Qed.

(** The children of an order that count for a total, in the order in which
    the model scans them: the terms of the export and the values of the
    SQL sum are their products. *)
Lemma priced_children_listed (db : database) (z : Z) :
  ∃ cs : list (string * (Z * float)),
    lists_priced_children db z cs
    ∧ export_terms (children_of db z)
      = (λ c, float_mul (float_of_int c.2.1) c.2.2) <$> cs
    ∧ order_total_inputs db z
      = (λ c, if float_is_nan (float_mul (float_of_int c.2.1) c.2.2)
              then None
              else Some (float_mul (float_of_int c.2.1) c.2.2)) <$> cs.
Proof.
  set (f := λ c : string * item_row,
         if decide (c.1 = BLANK_ITEM) then None
         else match i_quantity c.2, i_unit_price c.2 with
              | Some q, Some p => Some (c.1, (q, p))
              | _, _ => None
              end).
  assert (∀ c y, f c = Some y →
            y.1 = c.1 ∧ c.1 ≠ BLANK_ITEM
            ∧ i_quantity c.2 = Some y.2.1 ∧ i_unit_price c.2 = Some y.2.2)
    as Hf.
  { intros [it row] y. unfold f. simpl. case_decide; [done|].
    destruct (i_quantity row), (i_unit_price row); try done.
    by intros [= <-]. }
  assert (∀ c, f c = None → ¬ priced_child c) as Hnone.
  { intros [it row]. unfold f, priced_child. simpl.
    case_decide; [by intros _ [? _]|].
    destruct (i_quantity row), (i_unit_price row); try done.
    - by intros _ (_ & _ & [? ?]).
    - by intros _ (_ & [? ?] & _).
    - by intros _ (_ & [? ?] & _). }
  exists (omap f (children_of db z)). split_and!.
  - split.
    + apply NoDup_fst_omap; [|apply NoDup_children_items].
      intros c y Hy. by destruct (Hf c y Hy).
    + intros it q p. rewrite list_elem_of_omap. split.
      * intros ([it' row] & Hin%elem_of_children_of & Hy).
        destruct (Hf _ _ Hy) as (Hit & Hblank & Hq & Hp). simpl in *.
        subst it'. eauto.
      * intros (Hit & row & Hrow & Hq & Hp). exists (it, row).
        split; [by apply elem_of_children_of|].
        unfold f. simpl. rewrite decide_False by done. by rewrite Hq, Hp.
  - unfold export_terms.
    induction (children_of db z) as [|[it row] l IH]; [done|].
    cbn [omap list_omap]. rewrite IH. unfold f. cbn [fst snd].
    destruct (decide (it = BLANK_ITEM)); [done|].
    by destruct (i_quantity row), (i_unit_price row).
  - rewrite order_total_inputs_priced.
    induction (children_of db z) as [|c l IH]; [done|].
    cbn [omap list_omap]. destruct (f c) as [y|] eqn:Hy.
    + destruct (Hf _ _ Hy) as (Hit & Hblank & Hq & Hp).
      rewrite filter_cons_True by (unfold priced_child; rewrite Hq, Hp; eauto).
      cbn [fmap list_fmap]. rewrite <- IH. f_equal.
      unfold sql_line_value. by rewrite Hq, Hp.
    + rewrite filter_cons_False by by apply Hnone. exact IH.
Qed.

Lemma export_total_listed (db : database) (e : export_order) :
  e ∈ export_json db →
  ∃ cs, lists_priced_children db (eo_order_id e) cs
        ∧ eo_total_price e
          = match (λ c : string * (Z * float),
                     float_mul (float_of_int c.2.1) c.2.2) <$> cs with
            | [] => NumInt 0
            | xs => NumFloat (float_round2 (py_sum_floats xs))
            end.
Proof.
  intros (o & _ & _ & ->)%elem_of_export_json.
  destruct (priced_children_listed db (eo_order_id e)) as (cs & Hcs & -> & _).
  exists cs. split; [done|].
  unfold py_sum, py_round2. by destruct (_ <$> cs).
Qed.

(** C8: the export has exactly one element for every Parent with at least
    one Child and none for a Parent without, and the total_price of an
    element is Python's sum, rounded to two places, of quantity times
    unit_price over exactly those of its Children whose item is not the
    placeholder and whose quantity and unit_price are non-null, each of
    them once; with no such Child it is the int 0 the sum starts from. *)
Theorem export_one_element_per_parent (db : database) :
  NoDup (eo_order_id <$> export_json db)
  ∧ (∀ z, z ∈ (eo_order_id <$> export_json db) ↔
          is_Some (orders db !! z)
          ∧ ∃ it, is_Some (order_items db !! (SqlInt z, it)))
  ∧ (∀ e, e ∈ export_json db →
       ∃ cs, lists_priced_children db (eo_order_id e) cs
             ∧ eo_total_price e
               = match (λ c : string * (Z * float),
                          float_mul (float_of_int c.2.1) c.2.2) <$> cs with
                 | [] => NumInt 0
                 | xs => NumFloat (float_round2 (py_sum_floats xs))
                 end).
Proof.
  split_and!.
  - unfold export_json. apply (NoDup_omap_keys _ _ eo_order_id id).
    intros [z o] y Hy. simpl in *.
    destruct (children_of db z); [done|]. by injection Hy as <-.
  - intros z. rewrite <- children_nonempty. split.
    + intros (e & -> & He)%list_elem_of_fmap.
      apply elem_of_export_json in He as (o & Ho & Hc & _). eauto.
    + intros [[o Ho] Hc].
      destruct (export_json_has db z o Ho Hc) as (e & He & <- & _).
      apply list_elem_of_fmap. by exists e.
  - apply export_total_listed.
Qed.

Lemma elem_of_spend_rows (db : database) (z : Z) (o : order_row) (it : string)
    (row : item_row) :
  orders db !! z = Some o → order_items db !! (SqlInt z, it) = Some row →
  is_Some (i_quantity row) → is_Some (i_unit_price row) →
  (o_customer_id o, sql_line_value row) ∈ spend_rows db.
Proof.
  intros Ho Hrow Hq Hp. unfold spend_rows.
  apply list_elem_of_bind. exists (z, o). split; [|by apply elem_of_map_to_list].
  simpl. apply list_elem_of_fmap. exists (it, row). split; [done|].
  apply list_elem_of_filter. split; [|by apply elem_of_children_of].
  unfold spend_where. simpl.
  by rewrite !bool_decide_eq_true_2.
Qed.

Lemma top_fold_is_Some (gs : list (sqlval * option float))
    (best : option (sqlval * option float)) :
  is_Some best →
  is_Some (foldl (λ best g,
                    match best with
                    | None => Some g
                    | Some b => if total_lt b.2 g.2 then Some g else Some b
                    end) best gs).
Proof.
  revert best. induction gs as [|g gs IH]; intros best Hbest; [done|].
  simpl. apply IH. destruct best as [b|]; [|done].
  by destruct (total_lt b.2 g.2).
Qed.

(** A child with a quantity and a unit price is summed, whatever its
    is_valid flag: once in the total of its order and in the exported
    total_price, when its item is not the placeholder, and among the values
    of its customer. *)
Lemma priced_children_are_summed (db : database) (z : Z) (o : order_row)
    (it : string) (row : item_row) (q : Z) (p : float) :
  orders db !! z = Some o →
  order_items db !! (SqlInt z, it) = Some row →
  i_quantity row = Some q →
  i_unit_price row = Some p →
  let product := λ c : string * (Z * float),
                   float_mul (float_of_int c.2.1) c.2.2 in
  let sql_term := λ c : string * (Z * float),
                    if float_is_nan (product c) then None
                    else Some (product c) in
  let sql_total := λ vs : list (option float),
                     match omap id vs with
                     | [] => None
                     | ys => if float_is_nan (sql_sum ys) then None
                             else Some (sql_sum ys)
                     end in
  sql_term (it, (q, p)) ∈ customer_spend_inputs db (o_customer_id o)
  ∧ (o_customer_id o,
     sql_total (customer_spend_inputs db (o_customer_id o)))
    ∈ customer_totals db
  ∧ is_Some (_get_top_customer db)
  ∧ (it ≠ BLANK_ITEM →
     ∃ c1 c2 e,
       lists_priced_children db z (c1 ++ (it, (q, p)) :: c2)
       ∧ (z, o_customer_id o,
          sql_total (sql_term <$> (c1 ++ (it, (q, p)) :: c2)))
         ∈ _get_total_order_values db
       ∧ e ∈ export_json db ∧ eo_order_id e = z
       ∧ eo_total_price e
         = NumFloat (float_round2
                       (py_sum_floats
                          (product <$> (c1 ++ (it, (q, p)) :: c2))))).
Proof.
  intros Ho Hrow Hq Hp product sql_term sql_total.
  assert (sql_line_value row = sql_term (it, (q, p))) as Hterm.
  { unfold sql_line_value. by rewrite Hq, Hp. }
  assert ((o_customer_id o, sql_line_value row) ∈ spend_rows db) as Hspend.
  { eapply elem_of_spend_rows; try done; by rewrite ?Hq, ?Hp. }
  assert ((o_customer_id o,
           sql_total (customer_spend_inputs db (o_customer_id o)))
          ∈ customer_totals db) as Htotals.
  { unfold customer_totals. apply list_elem_of_fmap.
    exists (o_customer_id o). split; [done|].
    apply elem_of_remove_dups, list_elem_of_fmap.
    by exists (o_customer_id o, sql_line_value row). }
  split_and!.
  - rewrite <- Hterm. unfold customer_spend_inputs. apply list_elem_of_fmap.
    exists (o_customer_id o, sql_line_value row). split; [done|].
    by apply list_elem_of_filter.
  - done.
  - unfold _get_top_customer.
    destruct (customer_totals db) as [|g gs]; [by apply elem_of_nil in Htotals|].
    simpl. by apply top_fold_is_Some.
  - intros Hit.
    destruct (priced_children_listed db z) as (cs & Hcs & Hexport & Hinputs).
    assert ((it, (q, p)) ∈ cs) as Hin.
    { apply Hcs. split; [done|]. eauto. }
    apply list_elem_of_split in Hin as (c1 & c2 & ->).
    exists c1, c2.
    assert (children_of db z ≠ []) as Hsome.
    { intros Hnil. apply elem_of_children_of in Hrow.
      rewrite Hnil in Hrow. by apply elem_of_nil in Hrow. }
    destruct (export_json_has db z o Ho Hsome) as (e & He & Hz & Htotal).
    exists e. split_and!; [done| |done|done|].
    + unfold _get_total_order_values. apply list_elem_of_omap.
      exists (z, o). split; [by apply elem_of_map_to_list|]. cbn [fst snd].
      rewrite Hinputs. by destruct c1.
    + rewrite Htotal, Hexport. unfold py_sum, py_round2. by destruct c1.
Qed.

(** C10, as the code has it: none of the monetary aggregations filters on
    is_valid.  In every store the pipeline leaves behind, a Child with
    is_valid false and non-null quantity and unit_price has its Parent and
    is among the values summed for that Parent's customer in the
    top-spender query; when its item is not the placeholder it is summed
    once in the total of its order and once in the total_price of the
    export, together with the other Children of the order that count.  Its
    term is quantity times unit_price, except that in the two SQL sums a
    product that is NaN is NULL, which SUM skips.  A SQL total is SUM over
    the values that are not NULL, and NULL when none is left or when the
    sum is NaN; the exported total is Python's sum rounded to two
    places. *)
Theorem invalid_children_are_summed (db : database) (oid : sqlval)
    (it : string) (row : item_row) (q : Z) (p : float) :
  persisted db →
  order_items db !! (oid, it) = Some row →
  i_is_valid row = false →
  i_quantity row = Some q →
  i_unit_price row = Some p →
  let product := λ c : string * (Z * float),
                   float_mul (float_of_int c.2.1) c.2.2 in
  let sql_term := λ c : string * (Z * float),
                    if float_is_nan (product c) then None
                    else Some (product c) in
  let sql_total := λ vs : list (option float),
                     match omap id vs with
                     | [] => None
                     | ys => if float_is_nan (sql_sum ys) then None
                             else Some (sql_sum ys)
                     end in
  ∃ z o,
    oid = SqlInt z ∧ orders db !! z = Some o
    ∧ sql_term (it, (q, p)) ∈ customer_spend_inputs db (o_customer_id o)
    ∧ (o_customer_id o,
       sql_total (customer_spend_inputs db (o_customer_id o)))
      ∈ customer_totals db
    ∧ is_Some (_get_top_customer db)
    ∧ (it ≠ BLANK_ITEM →
       (∃ c1 c2,
          lists_priced_children db z (c1 ++ (it, (q, p)) :: c2)
          ∧ (z, o_customer_id o,
             sql_total (sql_term <$> (c1 ++ (it, (q, p)) :: c2)))
            ∈ _get_total_order_values db)
       ∧ ∃ e c1 c2,
           e ∈ export_json db ∧ eo_order_id e = z
           ∧ lists_priced_children db z (c1 ++ (it, (q, p)) :: c2)
           ∧ eo_total_price e
             = NumFloat (float_round2
                           (py_sum_floats
                              (product <$> (c1 ++ (it, (q, p)) :: c2))))).
Proof.
  intros [Href _]%persisted_consistent Hrow _ Hq Hp product sql_term sql_total.
  destruct (Href _ _ Hrow) as (z & Hz & [o Ho]). simpl in Hz. subst oid.
  exists z, o.
  destruct (priced_children_are_summed db z o it row q p Ho Hrow Hq Hp)
    as (Hin & Htotal & Htop & Hrest).
  split_and!; try done.
  intros Hit. destruct (Hrest Hit) as (c1 & c2 & e & Hcs & Hsql & He & Hz & Hpy).
  split; [by exists c1, c2|by exists e, c1, c2].
Qed.

End QueryFacts.

(** * The validator and the sync together *)

Section Duplicates.
Context `{Platform}.

(** Every yielded record is what [_validate_row] returned for some row, or
    that record marked as a duplicate. *)
Lemma validate_rows_shape (seen : gset (option string * option string))
    (rows : list raw_row) (out : list validated_record) (r : validated_record) :
  validate_rows seen rows = Ok out → r ∈ out →
  ∃ row r0, _validate_row row = Ok r0
            ∧ (r = r0 ∨ (r = mark_duplicate r0 ∧ is_valid r0 = true)).
Proof.
  revert seen out. induction rows as [|row rows IH]; intros seen out; simpl.
  - intros [= <-] Hin. by apply elem_of_nil in Hin.
  - destruct (_validate_row row) as [r0|] eqn:Hv; [|done]. simpl.
    destruct (is_valid r0) eqn:Hvalid.
    + destruct (decide (order_key r0 ∈ seen)).
      * destruct (validate_rows seen rows) as [out'|] eqn:Hrest; [|done].
        simpl. intros [= <-] [->|Hin]%elem_of_cons; [|by eapply IH].
        exists row, r0. eauto.
      * destruct (validate_rows _ rows) as [out'|] eqn:Hrest; [|done].
        simpl. intros [= <-] [->|Hin]%elem_of_cons; [|by eapply IH].
        exists row, r0. eauto.
    + destruct (validate_rows seen rows) as [out'|] eqn:Hrest; [|done].
      simpl. intros [= <-] [->|Hin]%elem_of_cons; [|by eapply IH].
      exists row, r0. eauto.
Qed.

Lemma yielded_item_not_empty (rows : list raw_row)
    (out : list validated_record) (r : validated_record) :
  valid_order_rows_flexible rows = Ok out → r ∈ out → item r ≠ Some "".
Proof.
  intros Hrows Hin.
  destruct (validate_rows_shape _ _ _ _ Hrows Hin) as (row & r0 & Hv & Hr).
  assert (item r = item r0) as -> by (by destruct Hr as [->|[-> _]]).
  destruct (validate_row_inv _ _ Hv) as (errors & Hve).
  destruct (validate_row_errors_inv _ _ _ Hve)
    as (c & o & i & q & p & d & _ & _ & Hi & _ & _ & _ & _ & ->).
  simpl. intros ->. by apply validated_string_stripped in Hi as [_ ?].
Qed.

Lemma yielded_complete_invalid (rows : list raw_row)
    (out : list validated_record) (r : validated_record) :
  valid_order_rows_flexible rows = Ok out → r ∈ out →
  all_fields_present r → is_valid r = false →
  error_message r = Some "Duplicate order_id and item".
Proof.
  intros Hrows Hin Hall Hinvalid.
  destruct (validate_rows_shape _ _ _ _ Hrows Hin)
    as (row & r0 & Hv & [->|[-> _]]); [|done].
  apply validate_row_invariant in Hv as [Hiff _].
  apply Hiff in Hall. congruence.
Qed.

(** A record the sync has stored has an order_id that is an integer. *)
Lemma synced_record_key (db db' : database) (batch : list validated_record)
    (r : validated_record) :
  sync_database db batch = Ok db' → r ∈ batch →
  ∃ z, (child_key r).1 = SqlInt z.
Proof.
  intros Hsync Hin.
  destruct (sync_database_ok _ _ _ Hsync) as (tbl & Hstage & Hready & _).
  destruct (stage_all_has _ _ _ _ Hstage Hin) as (s & Hs & Hoid & _).
  eapply Forall_forall in Hready as [[z Hz] _]; [|exact Hs].
  exists z. unfold child_key. simpl.
  by rewrite <- Hz, Hoid, integer_affinity_idempotent.
Qed.

(** C3, as the code has it: of two rows of a batch with the same
    (order_id, item), the first valid and the second complete, the second
    is yielded invalid with the duplicate message and, when no later row
    has the key and the item is not the placeholder, it is the second that
    the store holds after the sync: the key has one row in [order_items],
    with the quantity and unit_price of the second row (NULL for a
    unit_price that is NaN), is_valid false and the duplicate message, and
    this row is the only one of the order with that item.  The order has
    its row in [orders].  When the unit_price of the second row is not NaN,
    the order has a row in the order totals, and the key is summed in it
    once, with the quantity times unit_price of the second row (as NULL,
    which SUM skips, when that product is NaN), next to the other children
    of the order that count; when it is NaN, the key is not among the
    children that count and adds nothing to the total. *)
Theorem duplicate_overwrites_first (rows : list raw_row)
    (batch : list validated_record) (i j : nat) (r1 r2 : validated_record)
    (db db' : database) :
  valid_order_rows_flexible rows = Ok batch →
  batch !! i = Some r1 → batch !! j = Some r2 → (i < j)%nat →
  is_valid r1 = true →
  order_key r2 = order_key r1 →
  all_fields_present r2 →
  (∀ (k : nat) (r : validated_record),
     (j < k)%nat → batch !! k = Some r → child_key r ≠ child_key r2) →
  item r2 ≠ Some BLANK_ITEM →
  sync_run db None batch = (Ok (), db') →
  is_valid r2 = false
  ∧ error_message r2 = Some "Duplicate order_id and item"
  ∧ order_items db' !! child_key r2 = Some (stored_item r2)
  ∧ i_is_valid (stored_item r2) = false
  ∧ (∀ z, (child_key r2).1 = SqlInt z →
          filter (λ c : string * item_row, c.1 = (child_key r2).2)
                 (children_of db' z)
          = [((child_key r2).2, stored_item r2)])
  ∧ ∃ z q p o,
      (child_key r2).1 = SqlInt z
      ∧ quantity r2 = Some q ∧ unit_price r2 = Some p
      ∧ orders db' !! z = Some o
      ∧ let it := (child_key r2).2 in
        let product := λ c : string * (Z * float),
                         float_mul (float_of_int c.2.1) c.2.2 in
        let sql_term := λ c : string * (Z * float),
                          if float_is_nan (product c) then None
                          else Some (product c) in
        let sql_total := λ vs : list (option float),
                           match omap id vs with
                           | [] => None
                           | ys => if float_is_nan (sql_sum ys) then None
                                   else Some (sql_sum ys)
                           end in
        if float_is_nan p
        then ∀ cs, lists_priced_children db' z cs → it ∉ cs.*1
        else ∃ c1 c2,
               lists_priced_children db' z (c1 ++ (it, (q, p)) :: c2)
               ∧ (z, o_customer_id o,
                  sql_total (sql_term <$> (c1 ++ (it, (q, p)) :: c2)))
                 ∈ _get_total_order_values db'.
Proof.
  intros Hrows Hi Hj Hij Hvalid1 Hkey Hall Hlater Hblank Hrun.
  assert (is_valid r2 = false) as Hinvalid.
  { destruct (validate_rows_spec _ _ _ Hrows j r2 Hj) as [Hiff _].
    destruct (is_valid r2) eqn:Hv; [|done].
    destruct Hiff as [Hiff _].
    destruct (Hiff eq_refl) as (_ & _ & Hbefore).
    by destruct (Hbefore i r1 Hij Hi Hvalid1). }
  assert (r2 ∈ batch) as Hin by by eapply list_elem_of_lookup_2.
  pose proof (sync_run_ok_inv _ _ _ _ Hrun) as Hsync.
  assert (order_items db' !! child_key r2 = Some (stored_item r2)) as Hstored.
  { rewrite <- (take_drop_middle batch j r2 Hj) in Hsync.
    eapply synced_child; [exact Hsync| | |done].
    - intros r' [n Hn]%list_elem_of_lookup.
      rewrite lookup_drop in Hn. by apply (Hlater (S j + n)%nat); [lia|].
    - by eapply yielded_item_not_empty. }
  split_and!.
  - done.
  - by eapply yielded_complete_invalid.
  - done.
  - done.
  - intros z Hz. apply filter_key_singleton; [apply NoDup_children_items|].
    apply elem_of_children_of. rewrite <- Hz.
    by destruct (child_key r2).
  - destruct (synced_record_key _ _ _ _ Hsync Hin) as [z Hz].
    pose proof (yielded_item_not_empty _ _ _ Hrows Hin) as Hempty.
    destruct Hall as (_ & _ & [it Hit] & [q Hq] & [p Hp] & _).
    assert (child_key r2 = (SqlInt z, it)) as Hk.
    { unfold child_key in *. simpl in Hz. rewrite Hz, Hit. simpl.
      rewrite decide_False; [done|]. intros ->. by rewrite Hit in Hempty. }
    rewrite Hk in Hstored. rewrite Hk. cbn [fst snd].
    destruct (synced_child_parent _ _ _ _ _ _ Hsync Hstored) as [o Ho].
    exists z, q, p, o. split_and!; try done.
    destruct (float_is_nan p) eqn:Hnan.
    + intros cs [_ Hcs] ([it' [q' p']] & Hit' & Hx)%list_elem_of_fmap.
      simpl in Hit'. subst it'.
      apply Hcs in Hx as (_ & row & Hrow & _ & Hp').
      rewrite Hstored in Hrow. injection Hrow as <-.
      simpl in Hp'. rewrite Hp in Hp'. simpl in Hp'. by rewrite Hnan in Hp'.
    + assert (it ≠ BLANK_ITEM) as Hitem.
      { intros ->. by rewrite Hit in Hblank. }
      assert (i_unit_price (stored_item r2) = Some p) as Hp'.
      { simpl. rewrite Hp. simpl. by rewrite Hnan. }
      destruct (priced_children_are_summed db' z o it (stored_item r2) q p
                  Ho Hstored Hq Hp') as (_ & _ & _ & Hrest).
      destruct (Hrest Hitem) as (c1 & c2 & e & Hcs & Hsql & _).
      by exists c1, c2.
Qed.

End Duplicates.

(** * The sync on concrete batches *)

Section SyncRuns.
#[local] Existing Instance Sample.platform.

(** C1 at an input where the code goes wrong: the store holds the child
    (5, Widget), the new batch has one row for order 5, without an item.
    The batch stages the key (5, placeholder) only, and the sync leaves
    (5, Widget) in [order_items] next to it: against a staged row with a
    NULL item the NOT IN of step 4 is NULL for every child of order 5, and
    nothing of that order is deleted. *)
Theorem stale_child_survives_sync :
  sync_run empty_database None Sample.widget_batch = (Ok (), Sample.db_widget)
  ∧ sync_run Sample.db_widget None Sample.blank_batch
    = (Ok (), Sample.db_after_blank)
  ∧ child_key <$> Sample.blank_batch = [(SqlInt 5, BLANK_ITEM)]
  ∧ dom (order_items Sample.db_after_blank)
    = {[(SqlInt 5, "Widget"); (SqlInt 5, BLANK_ITEM)]}
  ∧ dom (orders Sample.db_after_blank) = {[5]}.
Proof. split_and!; reflexivity. Qed.

(** C2, as the claim states it, fails on a batch whose order_id is no
    number: the INSERT into [orders] raises in step 3, after the staged rows
    were committed, and the database is not what it was before the sync. *)
Lemma failed_sync_keeps_staged_rows :
  sync_run empty_database None Sample.text_id_batch
  = (Raise (IntegrityError "datatype mismatch"), Sample.db_after_text_id)
  ∧ length (staging_order_items Sample.db_after_text_id) = 1%nat
  ∧ Sample.db_after_text_id ≠ empty_database.
Proof.
  split_and!; [reflexivity|reflexivity|].
  intros Heq. apply (f_equal staging_order_items) in Heq. discriminate.
Qed.

Example killed_sync_keeps_production :
  ∀ n, (n < 12)%nat →
       orders (sync_run Sample.db_widget (Some n) Sample.blank_batch).2
       = orders Sample.db_widget.
Proof.
  intros n Hn.
  do 12 (destruct n as [|n]; [reflexivity|]). lia.
Qed.

(** C3, as the claim states it, fails on two complete rows with the key
    (5, Bolt): the store holds one row for the key, that of the second row,
    and the total of order 5 is 3 x 1.50, not 2 x 9.99. *)
Lemma first_duplicate_row_is_lost :
  valid_order_rows_flexible Sample.two_bolts = Ok Sample.two_bolts_validated
  ∧ sync_run empty_database None Sample.two_bolts_validated
    = (Ok (), Sample.db_two_bolts)
  ∧ is_valid Sample.first_bolt = true
  ∧ map_to_list (order_items Sample.db_two_bolts)
    = [((SqlInt 5, "Bolt"), stored_item Sample.second_bolt)]
  ∧ i_is_valid (stored_item Sample.second_bolt) = false
  ∧ _get_total_order_values Sample.db_two_bolts = [(5, SqlText "C1", Some 450)]
  ∧ line_total (stored_item Sample.first_bolt) = Some 1998.
Proof. split_and!; reflexivity. Qed.

Lemma duplicate_overwrites_first_witness :
  valid_order_rows_flexible Sample.two_bolts = Ok Sample.two_bolts_validated
  ∧ sync_run empty_database None Sample.two_bolts_validated
    = (Ok (), Sample.db_two_bolts)
  ∧ order_items Sample.db_two_bolts !! child_key Sample.second_bolt
    = Some (stored_item Sample.second_bolt)
  ∧ error_message Sample.second_bolt = Some "Duplicate order_id and item"
  ∧ ∃ c1 c2,
      lists_priced_children Sample.db_two_bolts 5
        (c1 ++ ("Bolt", (3, 150)) :: c2).
Proof.
  assert (sync_run empty_database None Sample.two_bolts_validated
          = (Ok (), Sample.db_two_bolts)) as Hrun by reflexivity.
  destruct (duplicate_overwrites_first Sample.two_bolts
              Sample.two_bolts_validated 0 1 Sample.first_bolt
              Sample.second_bolt empty_database Sample.db_two_bolts)
    as (_ & Hmsg & Hstored & _ & _ & z & q & p & o & Hz & Hq & Hp & _ & Htotal).
  - reflexivity.
  - reflexivity.
  - reflexivity.
  - lia.
  - reflexivity.
  - reflexivity.
  - unfold all_fields_present. simpl. eauto 10.
  - intros [|[|k]] r Hk Hr; [lia|lia|]. simpl in Hr. discriminate.
  - discriminate.
  - exact Hrun.
  - assert ((child_key Sample.second_bolt).1 = SqlInt 5) as Hz' by reflexivity.
    assert (quantity Sample.second_bolt = Some 3) as Hq' by reflexivity.
    assert (unit_price Sample.second_bolt = Some 150) as Hp' by reflexivity.
    rewrite Hz' in Hz. rewrite Hq' in Hq. rewrite Hp' in Hp.
    injection Hz as <-. injection Hq as <-. injection Hp as <-.
    destruct Htotal as (c1 & c2 & Hcs & _).
    split_and!; [reflexivity|exact Hrun|exact Hstored|exact Hmsg|].
    exists c1, c2. exact Hcs.
Defined.

(** C5, as the claim states it, fails on a record without order_id: the
    first INSERT into the staging table raises and the sync is over. *)
Lemma missing_order_id_aborts_sync :
  valid_order_rows_flexible
    [Sample.csv_row "C1" "" "Bolt" "2" "9.99" "2025-06-01"]
  = Ok Sample.no_order_batch
  ∧ order_id <$> Sample.no_order_batch = [None]
  ∧ sync_run empty_database None Sample.no_order_batch
    = (Raise (IntegrityError
                "NOT NULL constraint failed: staging_order_items.order_id"),
       empty_database).
Proof. split_and!; reflexivity. Qed.

Lemma field_errors_and_the_sync_witness :
  Forall storable Sample.no_quantity_batch
  ∧ (is_valid <$> Sample.no_quantity_batch = [false])
  ∧ (∃ db', sync_run empty_database None Sample.no_quantity_batch = (Ok (), db')
       ∧ order_items db' !! (SqlInt 5, "Bolt")
         = Some {| i_quantity := None; i_unit_price := Some 999;
                   i_is_valid := false;
                   i_error_message := Some "Invalid or missing quantity" |})
  ∧ (order_id <$> Cases.late_no_order_batch = [Some "5"; None])
  ∧ (∃ b1 r1 b2 e db',
       Cases.late_no_order_batch = b1 ++ r1 :: b2
       ∧ Forall stageable b1 ∧ ¬ stageable r1
       ∧ sync_run empty_database None Cases.late_no_order_batch = (Raise e, db')
       ∧ ((∀ q : Z, quantity r1 = Some q → (- 2 ^ 63 ≤ q < 2 ^ 63)%Z) →
          e = IntegrityError
                "NOT NULL constraint failed: staging_order_items.order_id")
       ∧ (∀ q : Z, quantity r1 = Some q → ¬ (- 2 ^ 63 ≤ q < 2 ^ 63)%Z →
          e = OverflowError)
       ∧ orders db' = ∅ ∧ order_items db' = ∅).
Proof.
  assert (Forall storable Sample.no_quantity_batch) as Hstorable.
  { constructor; [|constructor].
    split; [by exists 5|]. intros q Hq. discriminate. }
  destruct (field_errors_and_the_sync empty_database Sample.no_quantity_batch)
    as [Hok _].
  destruct (Hok Hstorable) as (db' & Hrun & Hlast).
  destruct (field_errors_and_the_sync empty_database Cases.late_no_order_batch)
    as [_ Hraise].
  split_and!; [exact Hstorable|reflexivity| |reflexivity|].
  - exists db'. split; [exact Hrun|].
    match goal with
    | |- _ = Some ?row =>
        change (SqlInt 5, "Bolt")
          with (child_key (default Sample.blank_record
                             (Sample.no_quantity_batch !! 0%nat)));
        change row
          with (stored_item (default Sample.blank_record
                               (Sample.no_quantity_batch !! 0%nat)))
    end.
    apply (Hlast [] _ []); [reflexivity| |discriminate|discriminate].
    by intros r' ?%elem_of_nil.
  - apply (Hraise (default Sample.blank_record
                     (Cases.late_no_order_batch !! 1%nat)));
      [right; by left|reflexivity].
Defined.

(** The exception is that of the first record the staging table does not
    accept, and a quantity outside 64 bits is found before a missing
    order_id. *)
Example staging_errors_in_order :
  sync_run empty_database None Cases.late_no_order_batch
  = (Raise (IntegrityError
              "NOT NULL constraint failed: staging_order_items.order_id"),
     empty_database)
  ∧ order_id <$> Cases.huge_quantity_batch = [None]
  ∧ sync_run empty_database None Cases.huge_quantity_batch
    = (Raise OverflowError, empty_database).
Proof. split_and!; reflexivity. Qed.

Lemma invalid_children_are_summed_witness :
  persisted Sample.db_two_bolts
  ∧ order_items Sample.db_two_bolts !! (SqlInt 5, "Bolt")
    = Some (stored_item Sample.second_bolt)
  ∧ i_is_valid (stored_item Sample.second_bolt) = false
  ∧ Some 450 ∈ customer_spend_inputs Sample.db_two_bolts (SqlText "C1")
  ∧ (SqlText "C1", Some 450) ∈ customer_totals Sample.db_two_bolts
  ∧ (∃ c1 c2,
       lists_priced_children Sample.db_two_bolts 5
         (c1 ++ ("Bolt", (3, 150)) :: c2))
  ∧ ∃ e, e ∈ export_json Sample.db_two_bolts ∧ eo_order_id e = 5.
Proof.
  assert (persisted Sample.db_two_bolts) as Hdb.
  { exact (persisted_sync empty_database None Sample.two_bolts_validated
             persisted_empty). }
  destruct (invalid_children_are_summed Sample.db_two_bolts (SqlInt 5)
              "Bolt" (stored_item Sample.second_bolt) 3 150)
    as (z & o & Hz & Ho & Hspend & Htotal & _ & Hrest).
  - exact Hdb.
  - reflexivity.
  - reflexivity.
  - reflexivity.
  - reflexivity.
  - injection Hz as <-.
    assert (o = {| o_customer_id := SqlText "C1";
                   o_order_date :=
                     Some {| year := 2025; month := 6; day := 2 |} |}) as ->.
    { assert (orders Sample.db_two_bolts !! 5
              = Some {| o_customer_id := SqlText "C1";
                        o_order_date :=
                          Some {| year := 2025; month := 6; day := 2 |} |})
        as Ho' by reflexivity.
      congruence. }
    destruct Hrest as [(c1 & c2 & Hcs & _) (e & _ & _ & He & Hid & _)];
      [discriminate|].
    split_and!;
      [exact Hdb|reflexivity|reflexivity|exact Hspend|exact Htotal| |].
    + exists c1, c2. exact Hcs.
    + exists e. split; [exact He|exact Hid].
Defined.

(** The examples of the specification: one valid row of two widgets at
    9.99 gives the order total and the exported total_price 19.98, and a
    row without an item is stored under the placeholder, listed in the
    export and left out of both totals. *)
Example widget_order_total :
  _get_total_order_values Sample.db_widget = [(5, SqlText "C1", Some 1998)]
  ∧ eo_total_price <$> export_json Sample.db_widget = [NumFloat 1998].
Proof. split; reflexivity. Qed.

Example placeholder_row_not_summed :
  _get_total_order_values Sample.db_after_blank = [(5, SqlText "C1", Some 1998)]
  ∧ eo_total_price <$> export_json Sample.db_after_blank = [NumFloat 1998]
  ∧ (length ∘ eo_items) <$> export_json Sample.db_after_blank = [2%nat]
  ∧ _get_top_customer Sample.db_after_blank = Some (SqlText "C1", Some 2448).
Proof. split_and!; reflexivity. Qed.

End SyncRuns.

(** * The totals on a store with an infinite price *)

Section ExtendedRuns.
#[local] Existing Instance Extended.platform.

(** C10, as the claim states it, fails on a child with quantity 0 and an
    infinite unit_price.  Order 7 has two children: Gift, invalid for its
    date, with quantity 0 and unit_price inf, and Bolt, two at 1.50.  The
    product 0 x inf is NaN, which SQLite makes NULL and SUM skips: the
    total of the order and of its customer is 3.00, that of Bolt alone,
    and Gift has added nothing to it.  In the export the same product is
    summed, and the total_price is NaN. *)
Lemma nan_product_is_not_summed :
  valid_order_rows_flexible Extended.gift_rows = Ok Extended.gift_batch
  ∧ sync_run empty_database None Extended.gift_batch
    = (Ok (), Extended.db_gift)
  ∧ persisted Extended.db_gift
  ∧ order_items Extended.db_gift !! (SqlInt 7, "Gift")
    = Some {| i_quantity := Some 0;
              i_unit_price := Some Extended.PosInf;
              i_is_valid := false;
              i_error_message := Some "Invalid or missing date" |}
  ∧ float_mul (float_of_int 0) Extended.PosInf = Extended.NaN
  ∧ float_mul (float_of_int 2) (Extended.Finite 150) = Extended.Finite 300
  ∧ _get_total_order_values Extended.db_gift
    = [(7, SqlText "C1", Some (Extended.Finite 300))]
  ∧ _get_top_customer Extended.db_gift
    = Some (SqlText "C1", Some (Extended.Finite 300))
  ∧ eo_total_price <$> export_json Extended.db_gift
    = [NumFloat Extended.NaN].
Proof.
  split_and!; try reflexivity.
  exact (persisted_sync empty_database None Extended.gift_batch
           persisted_empty).
Qed.

End ExtendedRuns.

(** * Properties of the reader *)

Lemma py_lower_space (c : ascii) : py_isspace (py_lower c) = py_isspace c.
Proof. by destruct c as [[] [] [] [] [] [] [] []]. Qed.

Lemma py_lower_idempotent (c : ascii) : py_lower (py_lower c) = py_lower c.
Proof. by destruct c as [[] [] [] [] [] [] [] []]. Qed.

Lemma py_lower_no_blank (c : ascii) :
  py_lower c = " "%char → c = " "%char.
Proof. by destruct c as [[] [] [] [] [] [] [] []]. Qed.

Lemma string_map_map (f g : ascii → ascii) (s : string) :
  string_map f (string_map g s) = string_map (λ c, f (g c)) s.
Proof. induction s as [|c s IH]; simpl; by rewrite ?IH. Qed.

Lemma string_map_ext (f g : ascii → ascii) (s : string) :
  (∀ c, f c = g c) → string_map f s = string_map g s.
Proof. intros Hfg. induction s as [|c s IH]; simpl; by rewrite ?IH, ?Hfg. Qed.

Lemma lstrip_fixed (s : string) :
  lstrip s = s ↔ s = "" ∨ ∃ c t, s = String c t ∧ py_isspace c = false.
Proof.
  split.
  - intros Hs. destruct (lstrip_head s) as [He|(c & t & He & Hc)].
    + left. congruence.
    + right. exists c, t. split; [congruence|done].
  - intros [->|(c & t & -> & Hc)]; [done|]. by apply lstrip_nonspace.
Qed.

(** A map that sends no character outside the white space into it keeps a
    stripped string stripped. *)
Lemma lstrip_string_map (f : ascii → ascii) (s : string) :
  (∀ c, py_isspace c = false → py_isspace (f c) = false) →
  lstrip s = s → lstrip (string_map f s) = string_map f s.
Proof.
  intros Hf. rewrite !lstrip_fixed.
  intros [->|(c & t & -> & Hc)]; [by left|].
  right. exists (f c), (string_map f t). split; [done|by apply Hf].
Qed.

Lemma rstrip_string_map (f : ascii → ascii) (s : string) :
  (∀ c, py_isspace c = false → py_isspace (f c) = false) →
  rstrip s = s → rstrip (string_map f s) = string_map f s.
Proof.
  intros Hf. induction s as [|c s IH]; [done|].
  simpl. destruct (rstrip s) as [|c' t] eqn:Hr.
  - destruct (py_isspace c) eqn:Hc; [done|].
    intros [= <-]. simpl. by rewrite Hf.
  - intros [= Hs]. rewrite IH by done.
    rewrite <- Hs. simpl. done.
Qed.

Lemma lstrip_rstrip (s : string) : lstrip s = s → lstrip (rstrip s) = rstrip s.
Proof.
  rewrite !lstrip_fixed. intros [->|(c & t & -> & Hc)]; [by left|].
  right. destruct (rstrip_head c t Hc) as [t' ->]. eauto.
Qed.

Lemma lstrip_idempotent (s : string) : lstrip (lstrip s) = lstrip s.
Proof.
  apply lstrip_fixed. destruct (lstrip_head s) as [->|(c & t & -> & Hc)]; eauto.
Qed.

Lemma strip_fixed (s : string) : strip s = s ↔ lstrip s = s ∧ rstrip s = s.
Proof.
  unfold strip. split.
  - intros Hs. assert (lstrip s = s) as Hl.
    { rewrite <- Hs at 1. rewrite lstrip_rstrip by apply lstrip_idempotent.
      done. }
    split; [done|]. by rewrite Hl in Hs.
  - intros [-> ->]. done.
Qed.

Lemma strip_string_map (f : ascii → ascii) (s : string) :
  (∀ c, py_isspace c = false → py_isspace (f c) = false) →
  strip s = s → strip (string_map f s) = string_map f s.
Proof.
  intros Hf [Hl Hr]%strip_fixed. apply strip_fixed.
  split; [by apply lstrip_string_map|by apply rstrip_string_map].
Qed.

Lemma lower_idempotent (s : string) : lower (lower s) = lower s.
Proof.
  unfold lower. rewrite string_map_map. apply string_map_ext.
  apply py_lower_idempotent.
Qed.

Lemma replace_spaces_idempotent (s : string) :
  replace_spaces (replace_spaces s) = replace_spaces s.
Proof.
  unfold replace_spaces. rewrite string_map_map. apply string_map_ext.
  intros c. by repeat case_decide.
Qed.

Lemma lower_replace_spaces (s : string) :
  lower (replace_spaces s) = replace_spaces (lower s).
Proof.
  unfold lower, replace_spaces. rewrite !string_map_map.
  apply string_map_ext. intros c.
  destruct (decide (c = " "%char)) as [->|Hc]; [done|].
  rewrite decide_False; [done|]. intros Hl. by apply py_lower_no_blank in Hl.
Qed.

Lemma normalize_key_strip (h : string) :
  strip (normalize_key h) = normalize_key h.
Proof.
  unfold normalize_key, replace_spaces, lower.
  apply strip_string_map.
  - intros c Hc. case_decide; [by subst|done].
  - apply strip_string_map; [|apply strip_idempotent].
    intros c Hc. by rewrite py_lower_space.
Qed.

Lemma normalize_key_lower (h : string) :
  lower (normalize_key h) = normalize_key h.
Proof.
  unfold normalize_key. by rewrite lower_replace_spaces, lower_idempotent.
Qed.

Lemma normalize_key_again (h : string) :
  normalize_key (normalize_key h) = normalize_key h.
Proof.
  unfold normalize_key at 1.
  rewrite normalize_key_strip, normalize_key_lower.
  unfold normalize_key. apply replace_spaces_idempotent.
Qed.

(** X1: normalising a header name twice gives what normalising it once
    gives, so the second normalisation, of the keys of each row, leaves
    the field names as the first one set them; a normalised name has no
    white space around it, no upper case letter and no blank. *)
Theorem normalize_key_idempotent (h : string) :
  normalize_key (normalize_key h) = normalize_key h
  ∧ strip (normalize_key h) = normalize_key h
  ∧ lower (normalize_key h) = normalize_key h
  ∧ replace_spaces (normalize_key h) = normalize_key h.
Proof.
  split_and!.
  - apply normalize_key_again.
  - apply normalize_key_strip.
  - apply normalize_key_lower.
  - unfold normalize_key. apply replace_spaces_idempotent.
Qed.

Section ReaderFacts.
Context `{Platform}.

Lemma list_to_map_dict_set {V} (key : string) (value : V)
    (d : list (string * V)) :
  (list_to_map (dict_set key value d) : gmap string V)
  = <[key := value]> (list_to_map d).
Proof.
  induction d as [|[k v] d IH]; simpl; [done|].
  case_decide as Hk; simpl.
  - subst k. by rewrite insert_insert_eq.
  - by rewrite IH, insert_insert_ne.
Qed.

Lemma list_to_map_foldl_dict_set {V} (pairs d : list (string * V)) :
  (list_to_map (foldl (λ d kv, dict_set kv.1 kv.2 d) d pairs) : gmap string V)
  = foldl (λ m kv, <[kv.1 := kv.2]> m) (list_to_map d) pairs.
Proof.
  revert d. induction pairs as [|[k v] pairs IH]; intros d; simpl; [done|].
  by rewrite IH, list_to_map_dict_set.
Qed.

(** A [dict] built from pairs holds, for every key, the value of the last
    pair with that key. *)
Lemma list_to_map_dict_of {V} (pairs : list (string * V)) :
  (list_to_map (dict_of pairs) : gmap string V)
  = foldl (λ m kv, <[kv.1 := kv.2]> m) ∅ pairs.
Proof. unfold dict_of. by rewrite list_to_map_foldl_dict_set. Qed.

Lemma foldl_insert_lookup_ne {V} (l : list (string * V)) (m : gmap string V)
    (k : string) :
  (∀ kv, kv ∈ l → kv.1 ≠ k) →
  foldl (λ m kv, <[kv.1 := kv.2]> m) m l !! k = m !! k.
Proof.
  revert m. induction l as [|[k0 v0] l IH]; intros m Hl; simpl; [done|].
  rewrite IH by (intros kv Hkv; apply Hl; by right).
  apply lookup_insert_ne. apply (Hl (k0, v0)). by left.
Qed.

Lemma foldl_insert_lookup_last {V} (l : list (string * V)) (m : gmap string V)
    (i : nat) (k : string) (v : V) :
  l !! i = Some (k, v) →
  (∀ j kv, (i < j)%nat → l !! j = Some kv → kv.1 ≠ k) →
  foldl (λ m kv, <[kv.1 := kv.2]> m) m l !! k = Some v.
Proof.
  revert m i. induction l as [|[k0 v0] l IH]; intros m i Hi Hlater; [done|].
  destruct i as [|i]; simpl in *.
  - injection Hi as -> ->.
    rewrite foldl_insert_lookup_ne; [by rewrite lookup_insert_eq|].
    intros kv [j Hj]%list_elem_of_lookup. apply (Hlater (S j)); [lia|done].
  - apply (IH _ i); [done|].
    intros j kv Hij Hj. apply (Hlater (S j)); [lia|done].
Qed.

Lemma foldl_insert_normal (l : list (string * option string))
    (m : gmap string (option string)) :
  (∀ kv, kv ∈ l → normalize_key kv.1 = kv.1) →
  foldl (λ m kv, <[kv.1 := kv.2]> m) m
        ((λ kv : string * option string, (normalize_key kv.1, kv.2)) <$> l)
  = foldl (λ m kv, <[kv.1 := kv.2]> m) m l.
Proof.
  revert m. induction l as [|[k v] l IH]; intros m Hl; simpl; [done|].
  pose proof (Hl (k, v) ltac:(by left)) as Hk. simpl in Hk.
  rewrite Hk. apply IH.
  intros kv Hkv. apply Hl. by right.
Qed.

Lemma dict_set_keys {V} (key : string) (value : V) (d : list (string * V)) :
  NoDup (d.*1) →
  NoDup ((dict_set key value d).*1)
  ∧ ∀ k, k ∈ (dict_set key value d).*1 ↔ k = key ∨ k ∈ d.*1.
Proof.
  induction d as [|[k0 v0] d IH]; simpl.
  - intros _. split; [apply NoDup_singleton|].
    intros k. rewrite list_elem_of_singleton, elem_of_nil. tauto.
  - intros [Hk0 Hd]%NoDup_cons. destruct (IH Hd) as [IHnd IHin].
    case_decide as Hk; simpl.
    + subst k0. split; [by apply NoDup_cons|].
      intros k. rewrite elem_of_cons. tauto.
    + split.
      * apply NoDup_cons. split; [|done]. rewrite IHin. tauto.
      * intros k. rewrite !elem_of_cons, IHin. tauto.
Qed.

Lemma foldl_dict_set_keys {V} (pairs d : list (string * V)) :
  NoDup (d.*1) →
  NoDup ((foldl (λ d kv, dict_set kv.1 kv.2 d) d pairs).*1)
  ∧ ∀ k, k ∈ (foldl (λ d kv, dict_set kv.1 kv.2 d) d pairs).*1
         ↔ k ∈ pairs.*1 ∨ k ∈ d.*1.
Proof.
  revert d. induction pairs as [|[k0 v0] pairs IH]; intros d Hd; simpl.
  - split; [done|]. intros k. rewrite elem_of_nil. tauto.
  - destruct (dict_set_keys k0 v0 d Hd) as [Hnd Hin].
    destruct (IH _ Hnd) as [IHnd IHin]. split; [done|].
    intros k. rewrite IHin, Hin, elem_of_cons. tauto.
Qed.

(** The keys of a [dict] are those of its pairs, each once. *)
Lemma dict_of_keys {V} (pairs : list (string * V)) :
  NoDup ((dict_of pairs).*1)
  ∧ ∀ k, k ∈ (dict_of pairs).*1 ↔ k ∈ pairs.*1.
Proof.
  destruct (foldl_dict_set_keys pairs ([] : list (string * V)))
    as [Hnd Hin]; [constructor|].
  split; [done|]. intros k. unfold dict_of. rewrite Hin, elem_of_nil. tauto.
Qed.

Lemma foldl_insert_list_to_map {V} (l : list (string * V)) :
  NoDup (l.*1) →
  foldl (λ m kv, <[kv.1 := kv.2]> m) (∅ : gmap string V) l = list_to_map l.
Proof.
  intros Hnd. apply map_eq. intros k.
  destruct (list_to_map l !! k) as [v|] eqn:Hk.
  - apply elem_of_list_to_map in Hk as Hin; [|done].
    apply list_elem_of_lookup in Hin as [i Hi].
    apply (foldl_insert_lookup_last _ _ i); [done|].
    intros j [k' v'] Hij Hj Heq. simpl in Heq. subst k'.
    assert (l.*1 !! i = Some k) as Hi1 by by rewrite list_lookup_fmap, Hi.
    assert (l.*1 !! j = Some k) as Hj1 by by rewrite list_lookup_fmap, Hj.
    pose proof (NoDup_lookup _ _ _ _ Hnd Hi1 Hj1). lia.
  - rewrite foldl_insert_lookup_ne; [done|].
    intros [k' v'] Hin Heq. simpl in Heq. subst k'.
    apply not_elem_of_list_to_map_2 in Hk. apply Hk.
    apply list_elem_of_fmap. by exists (k, v').
Qed.

Lemma list_to_map_values {A B} (f : A → B) (l : list (string * A)) :
  (list_to_map ((λ kv : string * A, (kv.1, f kv.2)) <$> l) : gmap string B)
  = f <$> list_to_map l.
Proof.
  induction l as [|[k v] l IH]; [symmetry; apply fmap_empty|].
  rewrite fmap_cons. simpl fst. simpl snd.
  by rewrite !list_to_map_cons, fmap_insert, IH.
Qed.

Lemma foldl_dict_set_restval (keys : list string)
    (d : list (string * option string)) :
  foldl (λ d key, dict_set key None d) d keys
  = foldl (λ d kv, dict_set kv.1 kv.2 d) d ((λ key, (key, None)) <$> keys).
Proof. revert d. induction keys as [|k keys IH]; intros d; simpl; [done|apply IH]. Qed.

(** The reader's dictionary of a line *)
Lemma dictreader_row_short (fieldnames cells : list string) :
  (length cells ≤ length fieldnames)%nat →
  dictreader_row fieldnames cells
  = {| named := dict_of (reader_pairs fieldnames cells); rest := None |}.
Proof.
  intros Hlen. unfold dictreader_row.
  rewrite (proj2 (Nat.ltb_ge _ _)) by done.
  f_equal. unfold dict_of, reader_pairs.
  by rewrite foldl_app, foldl_dict_set_restval.
Qed.

Lemma dictreader_row_long (fieldnames cells : list string) :
  (length fieldnames < length cells)%nat →
  rest (dictreader_row fieldnames cells)
  = Some (drop (length fieldnames) cells).
Proof.
  intros Hlen. unfold dictreader_row.
  by rewrite (proj2 (Nat.ltb_lt _ _)) by done.
Qed.

Lemma reader_pairs_keys (fieldnames cells : list string) (kv : string * option string) :
  kv ∈ reader_pairs fieldnames cells → kv.1 ∈ fieldnames.
Proof.
  unfold reader_pairs. rewrite elem_of_app. intros [Hin|Hin].
  - destruct kv as [k v]. by apply elem_of_zip_l in Hin.
  - apply list_elem_of_fmap in Hin as (k & -> & Hk). simpl.
    apply list_elem_of_lookup in Hk as [i Hi].
    rewrite lookup_drop in Hi. by eapply list_elem_of_lookup_2.
Qed.

(** The row of a line with no more cells than field names, the field
    names being normal: every key has the value of its last assignment. *)
Lemma line_row_short (fieldnames cells : list string) :
  (length cells ≤ length fieldnames)%nat →
  (∀ k, k ∈ fieldnames → normalize_key k = k) →
  line_row fieldnames cells
  = Ok (py_of_option PyStr
          <$> foldl (λ m kv, <[kv.1 := kv.2]> m) ∅
                (reader_pairs fieldnames cells)).
Proof.
  intros Hlen Hnormal. unfold line_row, normalize_row.
  rewrite dictreader_row_short by done. simpl. f_equal.
  destruct (dict_of_keys (reader_pairs fieldnames cells)) as [Hnd Hkeys].
  rewrite list_to_map_values.
  f_equal. rewrite list_to_map_dict_of, foldl_insert_normal.
  - rewrite foldl_insert_list_to_map by done. apply list_to_map_dict_of.
  - intros kv Hkv. apply Hnormal.
    assert (kv.1 ∈ (dict_of (reader_pairs fieldnames cells)).*1) as Hk.
    { apply list_elem_of_fmap. by exists kv. }
    apply Hkeys in Hk. apply list_elem_of_fmap in Hk as (kv' & -> & Hkv').
    by eapply reader_pairs_keys.
Qed.

Lemma line_row_long (fieldnames cells : list string) :
  (length fieldnames < length cells)%nat →
  line_row fieldnames cells = Raise AttributeError.
Proof.
  intros Hlen. unfold line_row, normalize_row.
  by rewrite dictreader_row_long.
Qed.

Lemma reader_pairs_lookup (fieldnames cells : list string) (i : nat) :
  (length cells ≤ length fieldnames)%nat →
  reader_pairs fieldnames cells !! i
  = (λ key, (key, cells !! i)) <$> (fieldnames !! i).
Proof.
  intros Hlen. unfold reader_pairs.
  assert (length (zip fieldnames (Some <$> cells)) = length cells) as Hzip.
  { rewrite length_zip, length_fmap. lia. }
  destruct (decide (i < length cells)%nat) as [Hi|Hi].
  - rewrite lookup_app_l by lia.
    destruct (lookup_lt_is_Some_2 cells i Hi) as [c Hc].
    destruct (lookup_lt_is_Some_2 fieldnames i ltac:(lia)) as [k Hk].
    rewrite Hk, Hc. simpl. apply lookup_zip_with_Some.
    exists k, (Some c). by rewrite list_lookup_fmap, Hc.
  - rewrite lookup_app_r by lia. rewrite Hzip.
    rewrite list_lookup_fmap, lookup_drop.
    replace (length cells + (i - length cells))%nat with i by lia.
    rewrite (lookup_ge_None_2 cells i) by lia. done.
Qed.

Lemma line_row_inv (fieldnames cells : list string) (row : raw_row) :
  line_row fieldnames cells = Ok row →
  (∀ k, k ∈ fieldnames → normalize_key k = k) →
  (length cells ≤ length fieldnames)%nat
  ∧ row = py_of_option PyStr
            <$> foldl (λ m kv, <[kv.1 := kv.2]> m) ∅
                  (reader_pairs fieldnames cells).
Proof.
  intros Hrow Hnormal.
  destruct (decide (length fieldnames < length cells)%nat) as [Hlong|Hshort].
  - by rewrite line_row_long in Hrow.
  - split; [lia|]. rewrite line_row_short in Hrow by (done || lia).
    by injection Hrow.
Qed.

Lemma normal_fieldnames (header : list string) (k : string) :
  k ∈ normalize_key <$> header → normalize_key k = k.
Proof.
  intros (h & -> & _)%list_elem_of_fmap. apply normalize_key_again.
Qed.

Lemma line_row_csv_typed (fieldnames cells : list string) (row : raw_row) :
  line_row fieldnames cells = Ok row → csv_typed row.
Proof.
  unfold line_row, normalize_row. destruct (rest _); [done|].
  intros [= <-] k v. rewrite list_to_map_values, lookup_fmap.
  destruct (_ !! k) as [[s|]|]; simpl; intros [= <-]; eauto.
Qed.

(** X2: in the row of a line, the cell under a header is found under the
    normalised name of the header, the last of several columns with one
    normalised name winning; a cell the line has not got reads as [None],
    no other key is in the row, and every value is a [str] or [None].  A
    line gives a row only when it has no more cells than the header. *)
Theorem header_cell_lookup (header cells : list string) (row : raw_row) :
  line_row (normalize_key <$> header) cells = Ok row →
  (length cells ≤ length header)%nat
  ∧ (∀ (i : nat) (h : string),
       header !! i = Some h →
       (∀ (j : nat) (h' : string),
          (i < j)%nat → header !! j = Some h' →
          normalize_key h' ≠ normalize_key h) →
       row !! normalize_key h = Some (py_of_option PyStr (cells !! i)))
  ∧ (∀ k, k ∉ normalize_key <$> header → row !! k = None)
  ∧ csv_typed row.
Proof.
  intros Hrow. pose proof (line_row_csv_typed _ _ _ Hrow) as Htyped.
  apply line_row_inv in Hrow as [Hlen ->]; [|apply normal_fieldnames].
  rewrite length_fmap in Hlen. split_and!; [done| | |done].
  - intros i h Hi Hlast. rewrite lookup_fmap.
    erewrite (foldl_insert_lookup_last _ _ i); [done| |].
    + rewrite reader_pairs_lookup by (by rewrite length_fmap).
      by rewrite list_lookup_fmap, Hi.
    + intros j [k v] Hij Hj. simpl.
      rewrite reader_pairs_lookup in Hj by (by rewrite length_fmap).
      rewrite list_lookup_fmap in Hj.
      destruct (header !! j) as [h'|] eqn:Hj'; [|done].
      injection Hj as <- _. by apply (Hlast j).
  - intros k Hk. rewrite lookup_fmap, foldl_insert_lookup_ne; [done|].
    intros kv Hkv <-. apply Hk. by eapply reader_pairs_keys.
Qed.

End ReaderFacts.

Section FileFacts.
Context `{Platform}.

Lemma row_get_csv_typed (row : raw_row) (key : string) :
  csv_typed row → row_get row key = PyNone ∨ ∃ s, row_get row key = PyStr s.
Proof.
  intros Htyped. unfold row_get.
  destruct (row !! key) as [v|] eqn:Hv; simpl; [by eapply Htyped|by left].
Qed.

Lemma parse_string_field_total (value : pyval) :
  value = PyNone ∨ (∃ s, value = PyStr s) →
  ∃ x, _parse_string_field value = Ok x.
Proof.
  intros [->|[s ->]]; simpl; [eauto|]. case_decide; eauto.
Qed.

Lemma parse_int_field_total (value : pyval) :
  value = PyNone ∨ (∃ s, value = PyStr s) →
  ∃ x, _parse_int_field value = Ok x.
Proof.
  intros [->|[s ->]]; simpl; [eauto|]. case_decide; eauto.
Qed.

Lemma parse_float_field_total (value : pyval) :
  value = PyNone ∨ (∃ s, value = PyStr s) →
  ∃ x, _parse_float_field value = Ok x.
Proof.
  intros [->|[s ->]]; simpl; [eauto|]. case_decide; eauto.
Qed.

Lemma parse_date_total (value : pyval) :
  value = PyNone ∨ (∃ s, value = PyStr s) →
  ∃ x, _parse_date value = Ok x.
Proof.
  intros [->|[s ->]]; unfold _parse_date; simpl; [eauto|].
  case_bool_decide; simpl; eauto.
Qed.

(** On the rows of a file no parser raises. *)
Lemma validate_row_total (row : raw_row) :
  csv_typed row → ∃ r, _validate_row row = Ok r.
Proof.
  intros Htyped. unfold _validate_row, _validate_row_errors.
  destruct (parse_string_field_total _ (row_get_csv_typed row "customer_id" Htyped))
    as [c ->].
  destruct (parse_string_field_total _ (row_get_csv_typed row "order_id" Htyped))
    as [o ->].
  destruct (parse_string_field_total _ (row_get_csv_typed row "item" Htyped))
    as [i ->].
  destruct (parse_int_field_total _ (row_get_csv_typed row "quantity" Htyped))
    as [q ->].
  destruct (parse_float_field_total _ (row_get_csv_typed row "unit_price" Htyped))
    as [p ->].
  destruct (parse_date_total _ (row_get_csv_typed row "date" Htyped))
    as [d ->].
  simpl. eauto.
Qed.

Lemma read_row_cases (fieldnames cells : list string) :
  (∃ row r, line_row fieldnames cells = Ok row ∧ _validate_row row = Ok r
            ∧ read_row fieldnames cells = Ok r)
  ∨ ((length fieldnames < length cells)%nat
     ∧ line_row fieldnames cells = Raise AttributeError
     ∧ read_row fieldnames cells = Raise AttributeError).
Proof.
  unfold read_row. fold (line_row fieldnames cells).
  destruct (decide (length fieldnames < length cells)%nat) as [Hlong|Hshort].
  - right. by rewrite line_row_long.
  - left. destruct (line_row fieldnames cells) as [row|e] eqn:Hrow.
    + destruct (validate_row_total row) as [r Hr];
        [by eapply line_row_csv_typed|].
      exists row, r. simpl. by rewrite Hr.
    + exfalso. unfold line_row, normalize_row in Hrow.
      unfold dictreader_row in Hrow.
      rewrite (proj2 (Nat.ltb_ge _ _)) in Hrow by lia. done.
Qed.

(** The loop over the lines of a file is the loop of the validator over
    the rows of the lines that have cells. *)
Lemma read_rows_validate_rows (fieldnames : list string)
    (seen : gset (option string * option string)) (lines : list (list string)) :
  read_rows fieldnames seen lines
  = (mapM (line_row fieldnames) (filter (λ cells, cells ≠ []) lines)
       ≫= validate_rows seen).
Proof.
  revert seen. induction lines as [|cells lines IH]; intros seen; [done|].
  destruct cells as [|c cells].
  { rewrite filter_cons_False by (by intros []). apply IH. }
  rewrite filter_cons_True by done.
  cbn [read_rows mapM].
  destruct (read_row_cases fieldnames (c :: cells))
    as [(row & r & Hrow & Hr & ->)|(_ & Hrow & ->)]; rewrite Hrow; [|done].
  cbn [mbind result_bind]. rewrite !IH.
  destruct (mapM (line_row fieldnames) (filter (λ cells, cells ≠ []) lines))
    as [rows|e]; cbn [mbind result_bind mret result_ret].
  - cbn [validate_rows]. rewrite Hr. cbn [mbind result_bind]. done.
  - by repeat case_match.
Qed.

Lemma read_rows_long (fieldnames : list string)
    (seen : gset (option string * option string)) (lines : list (list string)) :
  Exists (λ cells, (length fieldnames < length cells)%nat) lines →
  read_rows fieldnames seen lines = Raise AttributeError.
Proof.
  revert seen. induction lines as [|cells lines IH]; intros seen Hex.
  { by apply Exists_nil in Hex. }
  destruct cells as [|c cells].
  { apply Exists_cons in Hex as [Hlen|Hex]; [simpl in Hlen; lia|].
    simpl. by apply IH. }
  cbn [read_rows].
  destruct (read_row_cases fieldnames (c :: cells))
    as [(row & r & Hrow & Hr & ->)|(_ & Hrow & ->)]; [|done].
  apply Exists_cons in Hex as [Hlen|Hex].
  { by rewrite line_row_long in Hrow. }
  cbn [mbind result_bind]. repeat case_match; by rewrite IH.
Qed.

Lemma read_rows_short (fieldnames : list string)
    (seen : gset (option string * option string)) (lines : list (list string)) :
  Forall (λ cells, (length cells ≤ length fieldnames)%nat) lines →
  ∃ out, read_rows fieldnames seen lines = Ok out
         ∧ length out = length (filter (λ cells, cells ≠ []) lines).
Proof.
  revert seen. induction lines as [|cells lines IH]; intros seen Hall.
  { by exists []. }
  apply Forall_cons in Hall as [Hlen Hall].
  destruct cells as [|c cells].
  { rewrite filter_cons_False by (by intros []). simpl. by apply IH. }
  rewrite filter_cons_True by done. cbn [read_rows].
  destruct (read_row_cases fieldnames (c :: cells))
    as [(row & r & Hrow & Hr & ->)|(Hlong & _)]; [|lia].
  cbn [mbind result_bind].
  destruct (is_valid r); [case_decide|].
  - destruct (IH seen Hall) as (out & -> & Hout). simpl.
    eexists; split; [done|]. simpl. by rewrite Hout.
  - destruct (IH ({[order_key r]} ∪ seen) Hall) as (out & -> & Hout).
    simpl. eexists; split; [done|]. simpl. by rewrite Hout.
  - destruct (IH seen Hall) as (out & -> & Hout). simpl.
    eexists; split; [done|]. simpl. by rewrite Hout.
Qed.

(** X3: the records of a file are the records the validator yields on the
    rows of its lines, lines without cells left out; a file without a
    header row ends in a TypeError. *)
Theorem file_records_are_row_records (file : list (list string)) :
  valid_order_rows_file file
  = match file with
    | [] => RaisedTypeError
    | header :: lines =>
        outcome_of
          (mapM (line_row (normalize_key <$> header))
                (filter (λ cells, cells ≠ []) lines)
             ≫= valid_order_rows_flexible)
    end.
Proof.
  destruct file as [|header lines]; [done|].
  unfold valid_order_rows_file, valid_order_rows_flexible.
  by rewrite read_rows_validate_rows.
Qed.

(** X4: reading a file raises exactly when a line has more cells than
    the header, and what it raises is the AttributeError of the key [None];
    otherwise it yields one record for every line that has cells, rows
    that are short or wrong in a field included. *)
Theorem file_raises_on_long_lines (header : list string)
    (lines : list (list string)) :
  (Exists (λ cells, (length header < length cells)%nat) lines →
   valid_order_rows_file (header :: lines) = Raised AttributeError)
  ∧ (Forall (λ cells, (length cells ≤ length header)%nat) lines →
     ∃ out, valid_order_rows_file (header :: lines) = Returned out
            ∧ length out = length (filter (λ cells, cells ≠ []) lines)).
Proof.
  unfold valid_order_rows_file. split.
  - intros Hex. rewrite read_rows_long; [done|].
    by rewrite length_fmap.
  - intros Hall.
    destruct (read_rows_short (normalize_key <$> header) ∅ lines)
      as (out & -> & Hout); [by rewrite length_fmap|].
    by exists out.
Qed.

End FileFacts.

Section ReaderRuns.
#[local] Existing Instance Sample.platform.

Lemma header_cell_lookup_witness :
  ∃ row,
    line_row (normalize_key <$> ["Order ID"; "Item"; " ITEM "]) ["5"; "Nut"]
    = Ok row
    ∧ row !! "order_id" = Some (PyStr "5")
    ∧ row !! "item" = Some PyNone
    ∧ row !! "Item" = None.
Proof.
  destruct (read_row_cases (normalize_key <$> ["Order ID"; "Item"; " ITEM "])
              ["5"; "Nut"])
    as [(row & r & Hrow & _)|(Hlong & _)]; [|simpl in Hlong; lia].
  exists row. split; [exact Hrow|].
  destruct (header_cell_lookup ["Order ID"; "Item"; " ITEM "] ["5"; "Nut"] row
              Hrow) as (_ & Hcell & Hnone & _).
  split_and!.
  - apply (Hcell 0%nat "Order ID"); [reflexivity|].
    intros [|[|[|j]]] h' Hj Hh'; simpl in Hh'; try lia; try discriminate;
      injection Hh' as <-; discriminate.
  - apply (Hcell 2%nat " ITEM "); [reflexivity|].
    intros [|[|[|j]]] h' Hj Hh'; simpl in Hh'; try lia; discriminate.
  - apply Hnone. intros Hin. simpl in Hin.
    repeat (apply elem_of_cons in Hin as [Hin|Hin]; [discriminate|]).
    by apply elem_of_nil in Hin.
Defined.

Lemma file_raises_on_long_lines_witness :
  valid_order_rows_file [["order_id"; "item"]; ["5"; "Bolt"]; ["6"; "Nut"; "x"]]
  = Raised AttributeError
  ∧ ∃ out, valid_order_rows_file [["order_id"; "item"]; ["5"]; []; ["6"; "Nut"]]
           = Returned out
           ∧ length out = 2%nat.
Proof.
  split.
  - apply (file_raises_on_long_lines ["order_id"; "item"]
             [["5"; "Bolt"]; ["6"; "Nut"; "x"]]).
    apply Exists_cons_tl, Exists_cons_hd. simpl. lia.
  - destruct (file_raises_on_long_lines ["order_id"; "item"]
                [["5"]; []; ["6"; "Nut"]]) as [_ Hshort].
    destruct Hshort as (out & Hout & Hlen).
    + repeat (constructor; [simpl; lia|]). constructor.
    + exists out. split; [exact Hout|exact Hlen].
Defined.

End ReaderRuns.

Section RowFacts.
Context `{Platform}.

Lemma parse_string_field_text (value : pyval) :
  _parse_string_field value = _parse_string_field (cell_text value).
Proof.
  destruct value as [|s| | | |]; simpl; try done.
  by rewrite strip_idempotent.
Qed.

Lemma parse_int_field_text (value : pyval) :
  _parse_int_field value = _parse_int_field (cell_text value).
Proof.
  destruct value as [|s| | | |]; simpl; try done.
  by rewrite strip_idempotent.
Qed.

Lemma parse_float_field_text (value : pyval) :
  _parse_float_field value = _parse_float_field (cell_text value).
Proof.
  destruct value as [|s| | | |]; simpl; try done.
  by rewrite strip_idempotent.
Qed.

Lemma parse_date_text (value : pyval) :
  (∀ fmt, fmt ∈ date_formats → strptime "" fmt = None) →
  _parse_date value = _parse_date (cell_text value).
Proof.
  intros Hempty. destruct value as [|s| | | |]; try done.
  simpl cell_text. rewrite !parse_date_str, strip_idempotent.
  destruct (decide (s = "")) as [->|Hs]; [done|].
  destruct (decide (strip s = "")) as [->|Hs']; [|done].
  by rewrite try_formats_None.
Qed.

Lemma validate_row_errors_texts (row1 row2 : raw_row) :
  (∀ fmt, fmt ∈ date_formats → strptime "" fmt = None) →
  (∀ key, key ∈ required_columns →
          cell_text (row_get row1 key) = cell_text (row_get row2 key)) →
  _validate_row_errors row1 = _validate_row_errors row2.
Proof.
  intros Hempty Hcells. unfold _validate_row_errors.
  rewrite (parse_string_field_text (row_get row1 "customer_id")),
    (parse_string_field_text (row_get row1 "order_id")),
    (parse_string_field_text (row_get row1 "item")),
    (parse_int_field_text (row_get row1 "quantity")),
    (parse_float_field_text (row_get row1 "unit_price")),
    (parse_date_text (row_get row1 "date")) by done.
  rewrite (parse_string_field_text (row_get row2 "customer_id")),
    (parse_string_field_text (row_get row2 "order_id")),
    (parse_string_field_text (row_get row2 "item")),
    (parse_int_field_text (row_get row2 "quantity")),
    (parse_float_field_text (row_get row2 "unit_price")),
    (parse_date_text (row_get row2 "date")) by done.
  rewrite !Hcells; [done|..]; unfold required_columns;
    repeat first [by left | right].
Qed.

(** X5: the record of a row depends on nothing but the text of its six
    columns, white space around a cell left out and a column that is not
    there read as an empty cell: two rows that agree on these six texts
    give the same record, whatever other columns they have. *)
Theorem record_depends_on_cell_texts (row1 row2 : raw_row) :
  (∀ fmt, fmt ∈ date_formats → strptime "" fmt = None) →
  (∀ key, key ∈ required_columns →
          cell_text (row_get row1 key) = cell_text (row_get row2 key)) →
  _validate_row row1 = _validate_row row2.
Proof.
  intros Hempty Hcells. unfold _validate_row.
  by rewrite (validate_row_errors_texts row1 row2).
Qed.

(** X6: no two valid records of a file have the same order_id and item. *)
Theorem valid_records_have_distinct_keys (rows : list raw_row)
    (out : list validated_record) (i j : nat) (r r' : validated_record) :
  valid_order_rows_flexible rows = Ok out →
  out !! i = Some r → out !! j = Some r' →
  is_valid r = true → is_valid r' = true →
  order_key r = order_key r' → i = j.
Proof.
  intros Hout Hi Hj Hr Hr' Hkey.
  destruct (validate_rows_spec ∅ rows out Hout i r Hi) as [Hvi _].
  destruct (validate_rows_spec ∅ rows out Hout j r' Hj) as [Hvj _].
  apply Hvi in Hr as Hfirst. destruct Hfirst as (_ & _ & Hfirst).
  apply Hvj in Hr' as Hfirst'. destruct Hfirst' as (_ & _ & Hfirst').
  destruct (Nat.lt_trichotomy i j) as [Hlt|[Heq|Hgt]]; [|done|].
  - by destruct (Hfirst' i r Hlt Hi Hr).
  - by destruct (Hfirst j r' Hgt Hj Hr').
Qed.

Lemma validate_rows_aligned (seen : gset (option string * option string))
    (rows : list raw_row) (out : list validated_record) :
  validate_rows seen rows = Ok out →
  length out = length rows
  ∧ ∀ (i : nat) (row : raw_row) (r : validated_record),
      rows !! i = Some row → out !! i = Some r →
      ∃ r0, _validate_row row = Ok r0
            ∧ parsed_fields r = parsed_fields r0
            ∧ (r = r0 ∨ (is_valid r0 = true ∧ r = mark_duplicate r0)).
Proof.
  revert seen out. induction rows as [|row rows IH]; intros seen out.
  { intros [= <-]. split; [done|]. by intros i row r Hi. }
  cbn [validate_rows].
  destruct (_validate_row row) as [r0|e] eqn:Hr0; [|done].
  cbn [mbind result_bind].
  assert (∀ seen' (r1 : validated_record) out',
            validate_rows seen' rows = Ok out' →
            parsed_fields r1 = parsed_fields r0 →
            (r1 = r0 ∨ (is_valid r0 = true ∧ r1 = mark_duplicate r0)) →
            length (r1 :: out') = length (row :: rows)
            ∧ ∀ (i : nat) (row' : raw_row) (r : validated_record),
                (row :: rows) !! i = Some row' → (r1 :: out') !! i = Some r →
                ∃ r0', _validate_row row' = Ok r0'
                       ∧ parsed_fields r = parsed_fields r0'
                       ∧ (r = r0' ∨ (is_valid r0' = true
                                      ∧ r = mark_duplicate r0'))) as Hstep.
  { intros seen' r1 out' Hout' Hfields Hr1.
    destruct (IH _ _ Hout') as [Hlen Hrows]. split; [simpl; by rewrite Hlen|].
    intros [|i] row' r; simpl.
    - intros [= <-] [= <-]. eauto.
    - apply Hrows. }
  destruct (is_valid r0) eqn:Hvalid; [case_decide|].
  - destruct (validate_rows seen rows) as [out'|] eqn:Hout'; [|done].
    intros [= <-]. apply (Hstep seen); [done|done|]. by right.
  - destruct (validate_rows _ rows) as [out'|] eqn:Hout'; [|done].
    intros [= <-]. apply (Hstep ({[order_key r0]} ∪ seen)); [done|done|].
    by left.
  - destruct (validate_rows seen rows) as [out'|] eqn:Hout'; [|done].
    intros [= <-]. apply (Hstep seen); [done|done|]. by left.
Qed.

(** X7: the validator yields one record for every row, in the order of
    the rows, and skips none: the record at a position has the six fields
    parsed from the row at that position, and it is that row's record as
    it stands or, for a duplicate, with the two flags changed. *)
Theorem yields_one_record_per_row (rows : list raw_row)
    (out : list validated_record) :
  valid_order_rows_flexible rows = Ok out →
  length out = length rows
  ∧ ∀ (i : nat) (row : raw_row) (r : validated_record),
      rows !! i = Some row → out !! i = Some r →
      ∃ r0, _validate_row row = Ok r0
            ∧ parsed_fields r = parsed_fields r0
            ∧ (r = r0 ∨ (is_valid r0 = true ∧ r = mark_duplicate r0)).
Proof. apply validate_rows_aligned. Qed.

End RowFacts.

Section RowRuns.
#[local] Existing Instance Sample.platform.

Lemma sample_strptime_empty (fmt : string) :
  fmt ∈ date_formats → strptime "" fmt = None.
Proof.
  unfold date_formats. intros Hin.
  repeat (apply elem_of_cons in Hin as [->|Hin]; [reflexivity|]).
  by apply elem_of_nil in Hin.
Qed.

Lemma record_depends_on_cell_texts_witness :
  _validate_row
    (<["note" := PyStr "urgent"]>
       (delete "item"
          (Sample.csv_row " C1" "5 " "" " 2 " "9.99" " 2025-06-01 ")))
  = _validate_row (Sample.csv_row "C1" "5" " " "2" "9.99" "2025-06-01").
Proof.
  apply record_depends_on_cell_texts; [exact sample_strptime_empty|].
  unfold required_columns. intros key Hin.
  repeat (apply elem_of_cons in Hin as [->|Hin]; [reflexivity|]).
  by apply elem_of_nil in Hin.
Defined.

Lemma valid_records_have_distinct_keys_witness :
  valid_order_rows_flexible Sample.two_bolts = Ok Sample.two_bolts_validated
  ∧ Sample.two_bolts_validated !! 0%nat = Some Sample.first_bolt
  ∧ is_valid Sample.first_bolt = true
  ∧ 0%nat = 0%nat.
Proof.
  split_and!; [reflexivity|reflexivity|reflexivity|].
  apply (valid_records_have_distinct_keys Sample.two_bolts
           Sample.two_bolts_validated 0 0 Sample.first_bolt Sample.first_bolt);
    reflexivity.
Defined.

Lemma yields_one_record_per_row_witness :
  length Sample.two_bolts_validated = 2%nat
  ∧ ∃ r0, _validate_row (Sample.csv_row "C1" "5" "Bolt" "3" "1.50" "02/06/2025")
          = Ok r0
          ∧ parsed_fields Sample.second_bolt = parsed_fields r0
          ∧ (Sample.second_bolt = r0
             ∨ (is_valid r0 = true ∧ Sample.second_bolt = mark_duplicate r0)).
Proof.
  destruct (yields_one_record_per_row Sample.two_bolts
              Sample.two_bolts_validated) as [Hlen Hrows]; [reflexivity|].
  split; [exact Hlen|].
  apply (Hrows 1%nat); reflexivity.
Defined.

End RowRuns.

(** * Properties of the overwrite mode *)

Section OverwriteFacts.
Context `{Platform}.

Lemma unwritten_steps (db : database) k w t s s' :
  unwritten db {| committed := k; working := w; in_transaction := t;
                  steps_left := s |} →
  unwritten db {| committed := k; working := w; in_transaction := t;
                  steps_left := s' |}.
Proof. done. Qed.

Lemma unwritten_held (db : database) (c : connection) :
  unwritten db c → held db c.
Proof. by intros [? _]. Qed.

Lemma tick_unwritten (db : database) :
  hoare (unwritten db) tick (λ _, unwritten db) (held db).
Proof.
  eapply hoare_weaken; [apply (hoare_tick (unwritten db))| | |];
    eauto using unwritten_steps, unwritten_held.
Qed.

Lemma execute_ddl_unwritten (db : database) :
  hoare (unwritten db) (execute_ddl (λ db, db)) (λ _, unwritten db) (held db).
Proof.
  unfold execute_ddl. eapply hoare_bind; [apply tick_unwritten|].
  intros ? c [Hk Hw]. unfold unwritten. simpl.
  destruct (in_transaction c); [done|]. by rewrite Hw.
Qed.

Lemma execute_dml_unwritten (db : database) (stmt : database → result database) :
  hoare (unwritten db) (execute_dml stmt) (λ _, unwritten db) (held db).
Proof.
  unfold execute_dml. eapply hoare_bind; [apply tick_unwritten|].
  intros ? c [Hk Hw]. simpl. by destruct (stmt (working c)).
Qed.

Lemma commit_unwritten (db : database) :
  hoare (unwritten db) commit (λ _ _, True) (held db).
Proof.
  unfold commit. eapply hoare_bind; [apply tick_unwritten|].
  by intros ? c Hc.
Qed.

(** Until its last commit an overwrite commits nothing. *)
Lemma overwrite_unwritten (db : database) (batch : list validated_record) :
  hoare (unwritten db) (setup_database batch true) (λ _ _, True) (held db).
Proof.
  unfold setup_database, _create_main_tables, _overwrite_load,
    _upsert_order, _upsert_order_item.
  eapply hoare_bind.
  { eapply hoare_bind; [apply execute_ddl_unwritten|intros ?].
    apply execute_ddl_unwritten. }
  intros ?. eapply hoare_bind; [|intros ?; apply commit_unwritten].
  eapply hoare_bind; [apply execute_dml_unwritten|intros ?].
  eapply hoare_bind; [apply execute_dml_unwritten|intros ?].
  apply hoare_for_each. intros row.
  eapply hoare_bind; [apply execute_dml_unwritten|intros ?].
  apply execute_dml_unwritten.
Qed.

Lemma overwrite_run_raise (db db' : database) (kill : option nat)
    (batch : list validated_record) (e : exn) :
  overwrite_run db kill batch = (Raise e, db') → db' = db.
Proof.
  unfold overwrite_run. intros Hrun.
  assert (unwritten db (connect db kill)) as Hc by done.
  pose proof (overwrite_unwritten db batch _ Hc) as Hheld.
  destruct (setup_database batch true (connect db kill)) as [[[]|e'] c'].
  - done.
  - injection Hrun as _ <-. done.
Qed.

Lemma budget_free_overwrite (batch : list validated_record) :
  budget_free (setup_database batch true).
Proof.
  unfold setup_database, _create_main_tables, _overwrite_load,
    _upsert_order, _upsert_order_item.
  repeat first
    [ apply budget_free_execute_dml
    | apply budget_free_execute_ddl
    | apply budget_free_commit
    | apply budget_free_for_each; intros ?
    | apply budget_free_bind; [|intros ?] ].
Qed.

Lemma record_round_alive (r : validated_record) (c : connection) :
  steps_left c = None →
  match upsert_record r (working c) with
  | Ok w =>
      (_upsert_order (bind_text (order_id r)) (bind_text (customer_id r))
         (date r) ;;
       _upsert_order_item (bind_text (order_id r)) (item r) (quantity r)
         (unit_price r) (is_valid r) (error_message r)) c
      = (Ok (), {| committed := committed c; working := w;
                   in_transaction := true; steps_left := None |})
  | Raise e =>
      ∃ c',
        (_upsert_order (bind_text (order_id r)) (bind_text (customer_id r))
           (date r) ;;
         _upsert_order_item (bind_text (order_id r)) (item r) (quantity r)
           (unit_price r) (is_valid r) (error_message r)) c
        = (Raise e, c')
  end.
Proof.
  intros Hc. unfold _upsert_order, _upsert_order_item, upsert_record.
  rewrite bind_run, execute_dml_alive by done.
  destruct (sql_upsert_order _ _ _ (working c)) as [w1|e]; simpl; [|eauto].
  rewrite execute_dml_alive by done. simpl.
  destruct (bind_int (quantity r)) as [q|e]; simpl; [|eauto].
  destruct (sql_upsert_order_item _ _ _ w1); eauto.
Qed.

Lemma load_loop_alive (batch : list validated_record) (c : connection) :
  steps_left c = None →
  match load_all batch (working c) with
  | Ok w =>
      ∃ t, for_each batch (λ row,
             _upsert_order (bind_text (order_id row))
               (bind_text (customer_id row)) (date row) ;;
             _upsert_order_item (bind_text (order_id row)) (item row)
               (quantity row) (unit_price row) (is_valid row)
               (error_message row)) c
           = (Ok (), {| committed := committed c; working := w;
                        in_transaction := t; steps_left := None |})
  | Raise e =>
      ∃ c', for_each batch (λ row,
              _upsert_order (bind_text (order_id row))
                (bind_text (customer_id row)) (date row) ;;
              _upsert_order_item (bind_text (order_id row)) (item row)
                (quantity row) (unit_price row) (is_valid row)
                (error_message row)) c
            = (Raise e, c')
  end.
Proof.
  revert c. induction batch as [|r batch IH]; intros c Hc; simpl.
  - exists (in_transaction c). destruct c; simpl in *; by subst.
  - rewrite bind_run. pose proof (record_round_alive r c Hc) as Hround.
    destruct (upsert_record r (working c)) as [w|e]; simpl.
    2: { destruct Hround as [c' ->]. eauto. }
    rewrite Hround.
    match goal with
    | |- context [for_each _ _ ?c1] => specialize (IH c1 eq_refl)
    end.
    simpl in IH. destruct (load_all batch w); [|done].
    destruct IH as [t IH]. exists t. by rewrite IH.
Qed.

Lemma overwrite_load_alive (batch : list validated_record) (c : connection) :
  steps_left c = None →
  match load_all batch
          (set_orders (λ _, ∅) (set_order_items (λ _, ∅) (working c))) with
  | Ok w =>
      ∃ t, _overwrite_load batch c
           = (Ok (), {| committed := committed c; working := w;
                        in_transaction := t; steps_left := None |})
  | Raise e => ∃ c', _overwrite_load batch c = (Raise e, c')
  end.
Proof.
  intros Hc. unfold _overwrite_load.
  erewrite run_bind_ok by (by apply execute_total_alive).
  erewrite run_bind_ok by (by apply execute_total_alive).
  cbn [working committed].
  match goal with
  | |- context [for_each batch _ ?c1] =>
      pose proof (load_loop_alive batch c1 eq_refl) as Hload
  end.
  cbn [working committed] in Hload.
  destruct (load_all batch _) as [w|e]; [|done].
  destruct Hload as [t Hload]. by exists t.
Qed.

(** The whole of [setup_database] in overwrite mode, for a process that is
    left alone: it returns exactly when [overwrite_database] does, with
    that database committed, and raises what [overwrite_database] raises,
    with nothing committed. *)
Lemma overwrite_run_alive (db : database) (batch : list validated_record) :
  match overwrite_database db batch with
  | Ok db' => overwrite_run db None batch = (Ok (), db')
  | Raise e => overwrite_run db None batch = (Raise e, db)
  end.
Proof.
  assert (∀ e db', overwrite_run db None batch = (Raise e, db') →
                   overwrite_run db None batch = (Raise e, db)) as Hraise.
  { intros e db' Hrun. by rewrite Hrun, (overwrite_run_raise _ _ _ _ _ Hrun). }
  revert Hraise.
  unfold overwrite_database, overwrite_run, setup_database, _create_main_tables.
  erewrite (run_bind_ok (execute_ddl _ ;; execute_ddl _)).
  2: { erewrite run_bind_ok by (by apply execute_ddl_alive).
       by apply execute_ddl_alive. }
  cbn [working committed in_transaction connect].
  match goal with
  | |- context [mbind _ (_overwrite_load batch) ?c1] =>
      pose proof (overwrite_load_alive batch c1 eq_refl) as Hload
  end.
  cbn [working committed] in Hload.
  destruct (load_all batch _) as [w|e].
  - destruct Hload as [t Hload]. intros _.
    erewrite run_bind_ok by exact Hload.
    by rewrite commit_alive.
  - destruct Hload as [c' Hload]. intros Hraise.
    erewrite run_bind_raise in Hraise |- * by exact Hload.
    by eapply Hraise.
Qed.

(** An overwrite either returns, with what [overwrite_database] computes
    committed, or raises and leaves the database file as it was. *)
Lemma overwrite_run_cases (db : database) (kill : option nat)
    (batch : list validated_record) :
  (∃ db', overwrite_run db kill batch = (Ok (), db')
          ∧ overwrite_run db None batch = (Ok (), db')
          ∧ overwrite_database db batch = Ok db')
  ∨ (∃ e, overwrite_run db kill batch = (Raise e, db)).
Proof.
  destruct (overwrite_run db kill batch) as [[[]|e] db'] eqn:Hrun.
  - left. exists db'. split; [done|].
    assert (overwrite_run db None batch = (Ok (), db')) as Hnone.
    { revert Hrun. unfold overwrite_run.
      destruct (setup_database batch true (connect db kill)) as [[[]|e] c']
        eqn:Hsetup; [|done].
      apply budget_free_overwrite in Hsetup.
      change (unlimited (connect db kill)) with (connect db None) in Hsetup.
      rewrite Hsetup. by intros [= <-]. }
    split; [done|].
    pose proof (overwrite_run_alive db batch) as Halive.
    destruct (overwrite_database db batch) as [db''|e]; congruence.
  - right. exists e. by rewrite (overwrite_run_raise _ _ _ _ _ Hrun).
Qed.

End OverwriteFacts.

Section OverwriteResult.
Context `{Platform}.

Lemma bind_int_storable (q : option Z) :
  bind_int q = Ok q ↔ ∀ z : Z, q = Some z → (- 2 ^ 63 ≤ z < 2 ^ 63)%Z.
Proof.
  unfold bind_int. destruct q as [z|]; [|by split].
  case_bool_decide as Hz; split.
  - by intros _ ? [= <-].
  - done.
  - done.
  - intros Hq. destruct Hz. by apply Hq.
Qed.

Lemma bind_int_cases (q : option Z) :
  bind_int q = Ok q ∨ bind_int q = Raise OverflowError.
Proof. unfold bind_int. destruct q; [case_bool_decide|]; eauto. Qed.

Lemma upsert_record_ok (r : validated_record) (db db' : database) :
  upsert_record r db = Ok db' →
  storable r
  ∧ (∃ z, integer_affinity (bind_text (order_id r)) = SqlInt z
          ∧ orders db' = <[z := stored_order r]> (orders db))
  ∧ order_items db' = <[child_key r := stored_item r]> (order_items db)
  ∧ staging_order_items db' = staging_order_items db.
Proof.
  unfold upsert_record, sql_upsert_order, sql_upsert_order_item, storable,
    child_key, stored_item, stored_order.
  destruct (integer_affinity (bind_text (order_id r))) as [|z| |] eqn:Hoid;
    try done.
  { cbn [mbind result_bind].
    destruct (bind_int_cases (quantity r)) as [Hq|Hq]; rewrite Hq; [|done].
    cbn [mbind result_bind]. by rewrite decide_True. }
  cbn [mbind result_bind].
  destruct (bind_int_cases (quantity r)) as [Hq|Hq]; rewrite Hq; [|done].
  cbn [mbind result_bind]. rewrite decide_False by done.
  intros [= <-]. split_and!; try done.
  - eauto.
  - by apply bind_int_storable.
  - eauto.
Qed.

Lemma upsert_record_storable (r : validated_record) (db : database) :
  storable r → ∃ db', upsert_record r db = Ok db'.
Proof.
  intros [[z Hz] Hq%bind_int_storable].
  unfold upsert_record, sql_upsert_order, sql_upsert_order_item.
  rewrite Hz. cbn [mbind result_bind]. rewrite Hq. cbn [mbind result_bind].
  rewrite decide_False by done. eauto.
Qed.

Lemma load_all_ok (batch : list validated_record) (db db' : database) :
  load_all batch db = Ok db' →
  Forall storable batch
  ∧ (∀ k, order_items db' !! k
          = match last_record k batch with
            | Some r => Some (stored_item r)
            | None => order_items db !! k
            end)
  ∧ (∀ z, orders db' !! z
          = match last_order_record z batch with
            | Some r => Some (stored_order r)
            | None => orders db !! z
            end)
  ∧ staging_order_items db' = staging_order_items db.
Proof.
  revert db. induction batch as [|r batch IH]; intros db; simpl.
  { intros [= <-]. by split_and!. }
  destruct (upsert_record r db) as [db1|e] eqn:Hr; [|done].
  cbn [mbind result_bind]. intros Hrest.
  destruct (upsert_record_ok _ _ _ Hr)
    as (Hstorable & (z & Hz & Horders) & Hitems & Hstaging).
  destruct (IH _ Hrest) as (Hall & IHitems & IHorders & IHstaging).
  split_and!.
  - by constructor.
  - intros k. rewrite IHitems. unfold last_record.
    destruct (decide (child_key r = k)) as [<-|Hk].
    + rewrite filter_cons_True by done. rewrite last_cons.
      destruct (last _); [done|]. by rewrite Hitems, lookup_insert_eq.
    + rewrite filter_cons_False by done.
      destruct (last _); [done|]. by rewrite Hitems, lookup_insert_ne.
  - intros z'. rewrite IHorders. unfold last_order_record.
    destruct (decide (z = z')) as [<-|Hz'].
    + rewrite filter_cons_True by done. rewrite last_cons.
      destruct (last _); [done|]. by rewrite Horders, lookup_insert_eq.
    + rewrite filter_cons_False by (rewrite Hz; congruence).
      destruct (last _); [done|]. by rewrite Horders, lookup_insert_ne.
  - congruence.
Qed.

Lemma load_all_storable (batch : list validated_record) (db : database) :
  Forall storable batch → ∃ db', load_all batch db = Ok db'.
Proof.
  revert db. induction batch as [|r batch IH]; intros db Hall; simpl; [eauto|].
  apply Forall_cons in Hall as [Hr Hall].
  destruct (upsert_record_storable r db Hr) as [db1 ->].
  cbn [mbind result_bind]. by apply IH.
Qed.

Lemma overwrite_database_ok (db db' : database) (batch : list validated_record) :
  overwrite_database db batch = Ok db' →
  Forall storable batch
  ∧ (∀ k, order_items db' !! k = stored_item <$> last_record k batch)
  ∧ (∀ z, orders db' !! z = stored_order <$> last_order_record z batch)
  ∧ staging_order_items db' = staging_order_items db.
Proof.
  unfold overwrite_database.
  intros (Hall & Hitems & Horders & Hstaging)%load_all_ok.
  split_and!; [done| | |done].
  - intros k. rewrite Hitems. by destruct (last_record k batch).
  - intros z. rewrite Horders. by destruct (last_order_record z batch).
Qed.

(** X8: an overwrite that returns leaves, for every key, the columns of
    the last record of the batch with that key, in [order_items] and in
    [orders] alike, and nothing of what the two tables held before; the
    staging table is not touched. *)
Theorem overwrite_keeps_last_record (db db' : database) (kill : option nat)
    (batch : list validated_record) :
  overwrite_run db kill batch = (Ok (), db') →
  (∀ k, order_items db' !! k = stored_item <$> last_record k batch)
  ∧ (∀ z, orders db' !! z = stored_order <$> last_order_record z batch)
  ∧ staging_order_items db' = staging_order_items db.
Proof.
  intros Hrun.
  destruct (overwrite_run_cases db kill batch)
    as [(db1 & Hrun1 & _ & Hdb)|(e & Hraise)]; [|congruence].
  assert (db1 = db') as -> by congruence.
  by destruct (overwrite_database_ok _ _ _ Hdb) as (_ & ? & ? & ?).
Qed.

(** X9: an overwrite is all or nothing for the whole database file:
    whatever statement fails and at whatever call the process dies, the
    file is as it was before the run, the two DELETEs undone; a run that
    returns under a budget returns the same without one. *)
Theorem overwrite_all_or_nothing (db : database) (kill : option nat)
    (batch : list validated_record) :
  (∃ db', overwrite_run db kill batch = (Ok (), db')
          ∧ overwrite_run db None batch = (Ok (), db'))
  ∨ (∃ e, overwrite_run db kill batch = (Raise e, db)).
Proof.
  destruct (overwrite_run_cases db kill batch)
    as [(db' & Hrun & Hnone & _)|Hraise]; [left|by right].
  by exists db'.
Qed.

Lemma overwrite_returns (db : database) (batch : list validated_record) :
  (∃ db', overwrite_run db None batch = (Ok (), db')) ↔ Forall storable batch.
Proof.
  split.
  - intros [db' Hrun].
    destruct (overwrite_run_cases db None batch)
      as [(db1 & _ & _ & Hdb)|(e & Hraise)]; [|congruence].
    by destruct (overwrite_database_ok _ _ _ Hdb).
  - intros Hall. pose proof (overwrite_run_alive db batch) as Halive.
    unfold overwrite_database in Halive.
    destruct (load_all_storable batch
                (set_orders (λ _, ∅) (set_order_items (λ _, ∅) db)) Hall)
      as [db' Hdb].
    rewrite Hdb in Halive. eauto.
Qed.

Lemma sync_returns (db : database) (batch : list validated_record) :
  (∃ db', sync_run db None batch = (Ok (), db')) ↔ Forall storable batch.
Proof.
  split.
  - intros [db' Hrun%sync_run_ok_inv].
    destruct (sync_database_ok _ _ _ Hrun) as (tbl & Hstage & Hready & _).
    apply Forall_forall. intros r Hr.
    destruct (staged_of r) as [s|e] eqn:Hs.
    + destruct (staged_of_inv _ _ Hs) as (_ & Hq & _).
      destruct (stage_all_has _ _ _ _ Hstage Hr) as (s' & Hs' & Hoid & _).
      eapply Forall_forall in Hready as [[z Hz] _]; [|exact Hs'].
      split.
      * exists z. by rewrite <- Hz, Hoid, integer_affinity_idempotent.
      * by apply bind_int_storable.
    + destruct (stage_all_raise batch [] r Hr) as [e' He'];
        [intros s; congruence|congruence].
  - intros Hall.
    destruct (stage_all_storable batch [] Hall) as [tbl Htbl].
    destruct (sync_database_ready db batch tbl Htbl) as [db' Hdb].
    { by eapply stage_all_ready. }
    pose proof (sync_run_alive db batch) as Halive.
    rewrite Hdb in Halive. eauto.
Qed.

(** X10: in either mode, a run that is left alone returns exactly when
    every record of the batch can be stored: its order_id is stored as an
    integer and its quantity fits 64 bits.  Nothing else in a record, and
    nothing in the store, makes a run fail. *)
Theorem setup_returns_iff_storable (db : database)
    (batch : list validated_record) :
  ((∃ db', sync_run db None batch = (Ok (), db')) ↔ Forall storable batch)
  ∧ ((∃ db', overwrite_run db None batch = (Ok (), db'))
     ↔ Forall storable batch).
Proof. split; [apply sync_returns|apply overwrite_returns]. Qed.

End OverwriteResult.

(** * More properties of the sync *)

Section SnapshotFacts.
Context `{Platform}.

Lemma last_filter_split {A} (P : A → Prop) `{∀ x, Decision (P x)}
    (l : list A) (x : A) :
  last (filter P l) = Some x →
  ∃ l1 l2, l = l1 ++ x :: l2 ∧ P x ∧ ∀ y, y ∈ l2 → ¬ P y.
Proof.
  induction l as [|a l IH]; [done|].
  destruct (decide (P a)) as [Ha|Ha].
  - rewrite filter_cons_True by done. rewrite last_cons.
    destruct (last (filter P l)) as [y|] eqn:Hl.
    + intros [= ->]. destruct (IH eq_refl) as (l1 & l2 & -> & Hx & Hl2).
      by exists (a :: l1), l2.
    + intros [= ->]. exists [], l. split_and!; [done|done|].
      intros y Hy HPy.
      destruct (last_filter_is_Some P l y Hy HPy) as [? ?]. congruence.
  - rewrite filter_cons_False by done. intros Hl.
    destruct (IH Hl) as (l1 & l2 & -> & Hx & Hl2). by exists (a :: l1), l2.
Qed.

Lemma last_filter_None {A} (P : A → Prop) `{∀ x, Decision (P x)}
    (l : list A) :
  last (filter P l) = None ↔ ∀ y, y ∈ l → ¬ P y.
Proof.
  split.
  - intros Hl y Hy HPy.
    destruct (last_filter_is_Some P l y Hy HPy) as [? ?]. congruence.
  - intros Hl. by rewrite filter_none.
Qed.

(** After the sync of a batch in which every record has an item, a child
    is in the store only as a staged row wrote it. *)
Lemma sync_clean_lookup (db db' : database) (batch : list validated_record) :
  consistent db →
  (∀ r, r ∈ batch → ∃ i, item r = Some i ∧ i ≠ "") →
  sync_database db batch = Ok db' →
  ∃ tbl,
    stage_all batch [] = Ok tbl
    ∧ (∀ s, s ∈ tbl → ∃ r, r ∈ batch ∧ staged_of r = Ok s)
    ∧ ∀ k, order_items db' !! k
           = if decide (sql_row_in (k.1, SqlText k.2) (staging_keys tbl)
                        = TFalse)
             then None else staged_item <$> last_staged k tbl.
Proof.
  intros [Href _] Hitems Hsync.
  destruct (sync_database_ok _ _ _ Hsync)
    as (tbl & Hstage & Hready & _ & Hlookup & _).
  destruct (stage_all_invariant _ _ _ Hstage staging_unique_nil)
    as (_ & Hnormal & Hfrom); [done|].
  assert (∀ s, s ∈ tbl → ∃ r, r ∈ batch ∧ staged_of r = Ok s) as Hfrom'.
  { intros s Hs. destruct (Hfrom s Hs) as [Hnil|?]; [|done].
    by apply elem_of_nil in Hnil. }
  exists tbl. split_and!; [done|done|].
  intros k. rewrite Hlookup. case_decide as Hdead; [done|].
  destruct (last_staged k tbl) as [s|] eqn:Hl; [done|]. simpl.
  destruct (order_items db !! k) as [row|] eqn:Hrow; [exfalso|done].
  destruct (Href _ _ Hrow) as (z & Hz & _).
  destruct k as [oid it]. simpl in *. subst oid.
  destruct (kept_child_staged_order tbl z it Hnormal Hdead)
    as (s & Hs & Hoid & Hit).
  destruct (Hfrom' s Hs) as (r & Hr & Hsr).
  destruct (Hitems r Hr) as (i & Hi & Hne).
  destruct (staged_of_facts _ _ Hsr) as (_ & _ & _ & Hsi & _).
  rewrite Hsi, Hi in Hit. simpl in Hit. unfold sql_eq in Hit.
  case_decide as Heq; [|done]. injection Heq as ->.
  assert (staged_child_key s = (SqlInt z, i)) as Hkey.
  { unfold staged_child_key, item_or_blank.
    rewrite Hoid, Hsi, Hi. simpl. by rewrite decide_False. }
  destruct (last_filter_is_Some
              (λ x, staged_child_key x = (SqlInt z, i)) tbl s Hs Hkey)
    as [s' Hs'].
  unfold last_staged in Hl. congruence.
Qed.

(** ... and so only with the columns of a record of the batch. *)
Lemma sync_children_from_batch (db db' : database)
    (batch : list validated_record) (k : sqlval * string) (row : item_row) :
  consistent db →
  (∀ r, r ∈ batch → ∃ i, item r = Some i ∧ i ≠ "") →
  sync_database db batch = Ok db' →
  order_items db' !! k = Some row →
  ∃ r, r ∈ batch ∧ child_key r = k ∧ row = stored_item r.
Proof.
  intros Hdb Hitems Hsync Hrow.
  destruct (sync_clean_lookup _ _ _ Hdb Hitems Hsync)
    as (tbl & _ & Hfrom & Hlookup).
  rewrite Hlookup in Hrow. case_decide; [done|].
  destruct (last_staged k tbl) as [s|] eqn:Hl; [|done].
  injection Hrow as <-.
  apply last_staged_elem in Hl as [Hs <-].
  destruct (Hfrom s Hs) as (r & Hr & Hsr).
  destruct (staged_of_facts _ _ Hsr) as (_ & Hkey & Hitem & _).
  by exists r.
Qed.

Lemma empty_consistent : consistent empty_database.
Proof.
  split.
  - intros k row Hk. simpl in Hk. by rewrite lookup_empty in Hk.
  - intros z [o Ho]. simpl in Ho. by rewrite lookup_empty in Ho.
Qed.

Lemma database_eq (d1 d2 : database) :
  orders d1 = orders d2 → order_items d1 = order_items d2 →
  staging_order_items d1 = staging_order_items d2 → d1 = d2.
Proof. destruct d1, d2. simpl. by intros -> -> ->. Qed.

(** What the sync of a batch in which every record has an item leaves
    does not depend on the store it started from. *)
Lemma sync_database_snapshot (db1 db2 d1 d2 : database)
    (batch : list validated_record) :
  consistent db1 → consistent db2 →
  (∀ r, r ∈ batch → ∃ i, item r = Some i ∧ i ≠ "") →
  sync_database db1 batch = Ok d1 → sync_database db2 batch = Ok d2 →
  d1 = d2.
Proof.
  intros Hdb1 Hdb2 Hitems Hs1 Hs2.
  destruct (sync_clean_lookup _ _ _ Hdb1 Hitems Hs1)
    as (tbl & Hstage & Hfrom & Hlookup1).
  destruct (sync_clean_lookup _ _ _ Hdb2 Hitems Hs2)
    as (tbl' & Hstage' & _ & Hlookup2).
  assert (tbl' = tbl) as -> by congruence.
  assert (order_items d1 = order_items d2) as Hchildren.
  { apply map_eq. intros k. by rewrite Hlookup1, Hlookup2. }
  pose proof (sync_database_consistent _ _ _ Hdb1 Hs1) as [Href1 _].
  destruct (sync_database_ok _ _ _ Hs1)
    as (tbl1 & Hstage1 & _ & Hst1 & _ & Horders1).
  destruct (sync_database_ok _ _ _ Hs2)
    as (tbl2 & Hstage2 & _ & Hst2 & _ & Horders2).
  assert (tbl1 = tbl) as -> by congruence.
  assert (tbl2 = tbl) as -> by congruence.
  apply database_eq; [|done|congruence].
  apply map_eq. intros z. rewrite Horders1, Horders2.
  unfold item_order_ids. rewrite <- Hchildren.
  fold (item_order_ids d1).
  case_decide as Horphan; [done|].
  destruct (last_order z tbl) as [s|] eqn:Hl; [done|]. exfalso.
  apply sql_in_not_false in Horphan as (id & Hid & Hne).
  apply elem_of_item_order_ids in Hid as (it & row & Hrow).
  destruct (Href1 _ _ Hrow) as (z' & Hz' & _). simpl in Hz'. subst id.
  destruct (sql_eq_int_not_false _ _ Hne) as [[= ->]|?]; [|done].
  destruct (sync_children_from_batch _ _ _ _ _ Hdb1 Hitems Hs1 Hrow)
    as (r & Hr & Hkey & _).
  destruct (stage_all_has _ _ _ _ Hstage Hr) as (s & Hs & Hoid & _).
  assert (integer_affinity (st_order_id s) = SqlInt z) as Hz.
  { rewrite Hoid, integer_affinity_idempotent.
    by apply (f_equal fst) in Hkey. }
  destruct (last_filter_is_Some
              (λ x, integer_affinity (st_order_id x) = SqlInt z) tbl s Hs Hz)
    as [s' Hs'].
  unfold last_order in Hl. congruence.
Qed.

(** X11: the sync of a batch in which every record has an item is a
    snapshot load: the database it leaves is the one the same batch leaves
    on an empty store, whatever the store held before. *)
Theorem sync_is_snapshot (db db' : database) (kill : option nat)
    (batch : list validated_record) :
  persisted db →
  (∀ r, r ∈ batch → ∃ i, item r = Some i ∧ i ≠ "") →
  sync_run db kill batch = (Ok (), db') →
  sync_run empty_database None batch = (Ok (), db').
Proof.
  intros Hdb%persisted_consistent Hitems Hrun%sync_run_ok_inv.
  destruct (sync_database_ok _ _ _ Hrun) as (tbl & Hstage & Hready & _).
  destruct (sync_database_ready empty_database batch tbl Hstage Hready)
    as [d2 Hd2].
  pose proof (sync_run_alive empty_database batch) as Halive.
  rewrite Hd2 in Halive. rewrite Halive. f_equal.
  symmetry. by eapply (sync_database_snapshot db empty_database);
    eauto using empty_consistent.
Qed.

(** X12: a batch without records empties the store: the sync deletes
    every child, since nothing is staged, and then every order. *)
Theorem empty_batch_empties_store (db : database) :
  sync_run db None [] = (Ok (), empty_database).
Proof.
  pose proof (sync_run_alive db []) as Halive.
  destruct (sync_database db []) as [db'|e] eqn:Hsync; [|done].
  rewrite Halive. f_equal.
  destruct (sync_database_ok _ _ _ Hsync)
    as (tbl & [= <-] & _ & Hstaging & Hitems & Horders).
  assert (order_items db' = ∅) as Hchildren.
  { apply map_eq. intros k. rewrite Hitems, lookup_empty.
    by rewrite decide_True. }
  apply database_eq; [|done|done].
  apply map_eq. intros z. simpl. rewrite Horders, lookup_empty.
  unfold item_order_ids. rewrite Hchildren, map_to_list_empty.
  by rewrite decide_True.
Qed.

Lemma regular_item_named (batch : list validated_record) :
  (∀ r, r ∈ batch → regular_item r) →
  ∀ r, r ∈ batch → ∃ i, item r = Some i ∧ i ≠ "".
Proof.
  intros Hreg r Hr. destruct (Hreg r Hr) as (i & Hi & Hne & _). eauto.
Qed.

(** After the sync of a batch of regular items every key has the columns
    of the last record with that key. *)
Lemma sync_last_record (db db' : database) (batch : list validated_record)
    (k : sqlval * string) :
  consistent db →
  (∀ r, r ∈ batch → regular_item r) →
  sync_database db batch = Ok db' →
  order_items db' !! k = stored_item <$> last_record k batch.
Proof.
  intros Hdb Hreg Hsync. unfold last_record.
  destruct (last (filter (λ r, child_key r = k) batch)) as [r|] eqn:Hlast.
  - apply last_filter_split in Hlast as (b1 & b2 & -> & <- & Hb2).
    assert (r ∈ b1 ++ r :: b2) as Hr.
    { rewrite elem_of_app, elem_of_cons. eauto. }
    destruct (Hreg r Hr) as (i & Hi & Hne & Hblank).
    simpl. apply (synced_child db db' b1 b2 r); [done|done| |];
      rewrite Hi; congruence.
  - simpl. destruct (order_items db' !! k) as [row|] eqn:Hrow; [|done].
    destruct (sync_children_from_batch _ _ _ _ _ Hdb
                (regular_item_named _ Hreg) Hsync Hrow) as (r & Hr & Hkey & _).
    rewrite last_filter_None in Hlast. by destruct (Hlast r Hr).
Qed.

(** X13: after the sync of a batch of regular items, on a store the
    pipeline left, [order_items] holds for every key the columns of the
    last record of the batch with that key and nothing else, which is the
    table an overwrite with the same batch builds; the orders are those
    of the batch, and the staging table is empty. *)
Theorem sync_keeps_last_record (db db' : database) (kill : option nat)
    (batch : list validated_record) :
  persisted db →
  (∀ r, r ∈ batch → regular_item r) →
  sync_run db kill batch = (Ok (), db') →
  (∀ k, order_items db' !! k = stored_item <$> last_record k batch)
  ∧ (∀ z, is_Some (orders db' !! z) ↔ is_Some (last_order_record z batch))
  ∧ staging_order_items db' = []
  ∧ ∀ db2 kill2 d2,
      overwrite_run db2 kill2 batch = (Ok (), d2) →
      order_items d2 = order_items db' ∧ dom (orders d2) = dom (orders db').
Proof.
  intros Hdb%persisted_consistent Hreg Hrun%sync_run_ok_inv.
  pose proof (sync_database_consistent _ _ _ Hdb Hrun) as [Href Hchild].
  assert (∀ k, order_items db' !! k = stored_item <$> last_record k batch)
    as Hitems by (intros k; by apply (sync_last_record db)).
  assert (∀ z, is_Some (orders db' !! z) ↔ is_Some (last_order_record z batch))
    as Horders.
  { intros z. split.
    - intros (it & Hit)%Hchild. rewrite Hitems in Hit.
      destruct (last_record (SqlInt z, it) batch) as [r|] eqn:Hl;
        [|by destruct Hit].
      apply last_filter_split in Hl as (b1 & b2 & -> & Hkey & _).
      apply (last_filter_is_Some _ _ r).
      + rewrite elem_of_app, elem_of_cons. eauto.
      + by apply (f_equal fst) in Hkey.
    - intros [r Hl].
      apply last_filter_split in Hl as (b1 & b2 & -> & Hz & _).
      assert (is_Some (order_items db' !! child_key r)) as [row Hrow].
      { rewrite Hitems. apply fmap_is_Some.
        apply (last_filter_is_Some _ _ r); [|done].
        rewrite elem_of_app, elem_of_cons. eauto. }
      destruct (Href _ _ Hrow) as (z' & Hz' & Hsome).
      unfold child_key in Hz'. simpl in Hz'. rewrite Hz in Hz'.
      by injection Hz' as <-. }
  split_and!; [done|done| |].
  { by destruct (sync_database_ok _ _ _ Hrun) as (? & _ & _ & ? & _). }
  intros db2 kill2 d2 Hover.
  destruct (overwrite_run_cases db2 kill2 batch)
    as [(d & Hd & _ & Hdb2)|(e & Hraise)]; [|congruence].
  assert (d = d2) as -> by congruence.
  destruct (overwrite_database_ok _ _ _ Hdb2) as (_ & Hitems2 & Horders2 & _).
  split.
  - apply map_eq. intros k. by rewrite Hitems, Hitems2.
  - apply set_eq. intros z. rewrite !elem_of_dom, Horders, Horders2.
    by rewrite fmap_is_Some.
Qed.

End SnapshotFacts.

(** * More properties of the queries and of the export *)

Section ReportFacts.
Context `{Platform}.

Lemma remove_dups_NoDup {A} `{EqDecision A} (l : list A) :
  NoDup l → remove_dups l = l.
Proof.
  induction 1 as [|x l Hx Hl IH]; simpl; [done|].
  case_decide; [done|]. by rewrite IH.
Qed.

Lemma NoDup_fst_filter {A B} (P : A * B → Prop) `{∀ x, Decision (P x)}
    (l : list (A * B)) :
  NoDup (l.*1) → NoDup ((filter P l).*1).
Proof.
  induction l as [|x l IH]; simpl; [done|].
  intros [Hx Hl]%NoDup_cons.
  destruct (decide (P x)).
  - rewrite filter_cons_True by done. simpl. apply NoDup_cons.
    split; [|by apply IH].
    intros (y & Hy & Hin)%list_elem_of_fmap.
    apply list_elem_of_filter in Hin as [_ Hin].
    apply Hx. apply list_elem_of_fmap. by exists y.
  - rewrite filter_cons_False by done. by apply IH.
Qed.

Lemma filter_nil_not_elem {A} (P : A → Prop) `{∀ x, Decision (P x)}
    (l : list A) :
  filter P l = [] ↔ ∀ x, x ∈ l → ¬ P x.
Proof.
  split.
  - intros Hnil x Hx HP.
    assert (x ∈ filter P l) as Hin by by apply list_elem_of_filter.
    rewrite Hnil in Hin. by apply elem_of_nil in Hin.
  - apply filter_none.
Qed.

Lemma elem_of_invalid_rows (db : database) (k : sqlval * string)
    (row : item_row) :
  (k, row) ∈ invalid_rows db
  ↔ order_items db !! k = Some row ∧ i_is_valid row = false.
Proof.
  unfold invalid_rows. rewrite list_elem_of_filter, elem_of_map_to_list.
  simpl. tauto.
Qed.

(** X14: the review queries show the invalid children and nothing else:
    [get_invalid_items] has one row for every child with is_valid false,
    with the columns stored for it, [count_invalid_items] is the number of
    these rows, and it is 0 exactly when every child in the store is
    valid. *)
Theorem invalid_items_are_listed (db : database) :
  count_invalid_items db = length (get_invalid_items db)
  ∧ NoDup ((λ t : sqlval * string * option Z * option float * option string,
              (t.1.1.1.1, t.1.1.1.2)) <$> get_invalid_items db)
  ∧ (∀ oid it q p e,
       (oid, it, q, p, e) ∈ get_invalid_items db
       ↔ ∃ row, order_items db !! (oid, it) = Some row
                ∧ i_is_valid row = false
                ∧ q = i_quantity row ∧ p = i_unit_price row
                ∧ e = i_error_message row)
  ∧ (count_invalid_items db = 0%nat
     ↔ ∀ k row, order_items db !! k = Some row → i_is_valid row = true).
Proof.
  split_and!.
  - unfold count_invalid_items, get_invalid_items. by rewrite length_fmap.
  - unfold get_invalid_items. rewrite <- list_fmap_compose.
    assert (NoDup ((invalid_rows db).*1)) as Hnd.
    { apply NoDup_fst_filter, NoDup_fst_map_to_list. }
    erewrite list_fmap_ext; [exact Hnd|]. by intros _ [[] ?] _.
  - intros oid it q p e. unfold get_invalid_items.
    rewrite list_elem_of_fmap. split.
    + intros ([k row] & [= -> -> -> -> ->] & Hin).
      apply elem_of_invalid_rows in Hin as [Hrow Hvalid].
      destruct k. exists row. by split_and!.
    + intros (row & Hrow & Hvalid & -> & -> & ->).
      exists ((oid, it), row). split; [done|].
      by apply elem_of_invalid_rows.
  - unfold count_invalid_items. rewrite length_zero_iff_nil.
    unfold invalid_rows. rewrite filter_nil_not_elem. split.
    + intros Hall k row Hrow.
      apply elem_of_map_to_list in Hrow. apply Hall in Hrow. simpl in Hrow.
      by destruct (i_is_valid row).
    + intros Hall [k row] Hin%elem_of_map_to_list. simpl.
      by rewrite (Hall k row).
Qed.

Lemma staged_order_stored (r : validated_record) (s : staging_row) :
  staged_of r = Ok s → staged_order s = stored_order r.
Proof.
  intros (-> & _)%staged_of_inv. unfold staged_order, stored_order. simpl.
  by rewrite integer_affinity_idempotent.
Qed.

(** X15: a sync writes nothing but the batch: a child that is in the
    store after a sync has the columns, flag and message of a record of
    the batch with its key, or is a child the store had before, with the
    columns it had; an order has the customer and date of a record of the
    batch with its order_id, or is an order the store had before. *)
Theorem synced_rows_come_from_batch (db db' : database)
    (kill : option nat) (batch : list validated_record) :
  sync_run db kill batch = (Ok (), db') →
  (∀ k row,
     order_items db' !! k = Some row →
     (∃ r, r ∈ batch ∧ child_key r = k ∧ row = stored_item r)
     ∨ order_items db !! k = Some row)
  ∧ (∀ z o,
       orders db' !! z = Some o →
       (∃ r, r ∈ batch
             ∧ integer_affinity (bind_text (order_id r)) = SqlInt z
             ∧ o = stored_order r)
       ∨ orders db !! z = Some o).
Proof.
  intros Hsync%sync_run_ok_inv.
  destruct (sync_database_ok _ _ _ Hsync)
    as (tbl & Hstage & _ & _ & Hlookup & Horders).
  destruct (stage_all_invariant _ _ _ Hstage staging_unique_nil)
    as (_ & Hnormal & Hfrom); [done|].
  assert (∀ s, s ∈ tbl → ∃ r, r ∈ batch ∧ staged_of r = Ok s) as Hfrom'.
  { intros s Hs. destruct (Hfrom s Hs) as [Hnil|?]; [|done].
    by apply elem_of_nil in Hnil. }
  split.
  - intros k row Hrow. rewrite Hlookup in Hrow. case_decide; [done|].
    destruct (last_staged k tbl) as [s|] eqn:Hl; [left|by right].
    injection Hrow as <-. apply last_staged_elem in Hl as [Hs <-].
    destruct (Hfrom' s Hs) as (r & Hr & Hsr).
    destruct (staged_of_facts _ _ Hsr) as (_ & Hkey & Hitem & _).
    by exists r.
  - intros z o Ho. rewrite Horders in Ho. case_decide; [done|].
    destruct (last_order z tbl) as [s|] eqn:Hl; [left|by right].
    injection Ho as <-. unfold last_order in Hl.
    apply last_filter_split in Hl as (l1 & l2 & -> & Hz & _).
    destruct (Hfrom' s) as (r & Hr & Hsr).
    { rewrite elem_of_app, elem_of_cons. eauto. }
    exists r. split_and!; [done| |by apply staged_order_stored].
    apply staged_of_inv in Hsr as (-> & _). simpl in Hz.
    by rewrite integer_affinity_idempotent in Hz.
Qed.

(** X16: when every record the validator yields for a file is valid, the
    sync of these records, on a store the pipeline left, leaves no invalid
    child: the review has nothing to show. *)
Theorem valid_file_leaves_no_invalid_item (rows : list raw_row)
    (batch : list validated_record) (db db' : database) (kill : option nat) :
  valid_order_rows_flexible rows = Ok batch →
  (∀ r, r ∈ batch → is_valid r = true) →
  persisted db →
  sync_run db kill batch = (Ok (), db') →
  count_invalid_items db' = 0%nat ∧ get_invalid_items db' = [].
Proof.
  intros Hbatch Hvalid Hdb%persisted_consistent Hsync%sync_run_ok_inv.
  assert (∀ r, r ∈ batch → ∃ i, item r = Some i ∧ i ≠ "") as Hitems.
  { intros r Hr. pose proof (yielded_item_not_empty _ _ _ Hbatch Hr) as Hne.
    apply list_elem_of_lookup in Hr as Hi. destruct Hi as [i Hi].
    destruct (validate_rows_spec ∅ rows batch Hbatch i r Hi) as [Hiff _].
    apply Hiff in Hvalid as [(_ & _ & [it Hit] & _) _]; [|done].
    exists it. split; [done|]. congruence. }
  assert (invalid_rows db' = []) as Hnone.
  { apply filter_nil_not_elem. intros [k row] Hin%elem_of_map_to_list.
    simpl.
    destruct (sync_children_from_batch db db' batch k row Hdb Hitems Hsync Hin)
      as (r & Hr & _ & ->).
    simpl. by rewrite (Hvalid r Hr). }
  unfold count_invalid_items, get_invalid_items. by rewrite Hnone.
Qed.

(** X17: a store the pipeline left has the order of every child and a
    child of every order, the order_id of a child being an integer; so
    the export, which passes over an order without children, leaves out
    no order of such a store. *)
Theorem store_has_no_orphans (db : database) :
  persisted db →
  (∀ oid it row,
     order_items db !! (oid, it) = Some row →
     ∃ z, oid = SqlInt z ∧ is_Some (orders db !! z))
  ∧ (∀ z, is_Some (orders db !! z) →
          ∃ it, is_Some (order_items db !! (SqlInt z, it)))
  ∧ (∀ z, is_Some (orders db !! z) →
          ∃ e, e ∈ export_json db ∧ eo_order_id e = z).
Proof.
  intros [Href Hchild]%persisted_consistent. split_and!.
  - intros oid it row Hrow. destruct (Href _ _ Hrow) as (z & Hz & Hsome).
    simpl in Hz. subst oid. by exists z.
  - done.
  - intros z [o Ho].
    destruct (export_json_has db z o Ho) as (e & He & Hid & _).
    + apply children_nonempty, Hchild. by exists o.
    + by exists e.
Qed.

End ReportFacts.

Section AggregationFacts.
Context `{Platform}.


(** X19: the order totals and the export add up the same products: for
    an order none of whose products is NaN, the values SUM receives are
    the values Python's sum receives, child for child. *)
Theorem totals_and_export_sum_the_same (db : database) (z : Z) :
  (∀ x, x ∈ export_terms (children_of db z) → float_is_nan x = false) →
  order_total_inputs db z = Some <$> export_terms (children_of db z).
Proof.
  intros Hnan.
  rewrite order_total_inputs_priced, export_terms_priced.
  apply list_fmap_ext. intros _ [it row] Hc%list_elem_of_lookup_2.
  apply list_elem_of_filter in Hc as [(Hit & [q Hq] & [p Hp]) Hc].
  simpl in *. unfold sql_line_value, line_total. rewrite Hq, Hp. simpl.
  rewrite Hnan; [done|].
  unfold export_terms. apply list_elem_of_omap. exists (it, row).
  split; [done|]. simpl. rewrite decide_False by done. by rewrite Hq, Hp.
Qed.

Lemma NoDup_quantity_items (db : database) (z : Z) :
  NoDup ((filter (λ c : string * item_row, is_Some (i_quantity c.2))
                 (children_of db z)).*1).
Proof. apply NoDup_fst_filter, NoDup_children_items. Qed.

(** X20: the item counts have one row for every order with a child that
    has a quantity, and the count is the number of these children, the
    placeholder child and the invalid ones among them: the items of an
    order being distinct already, DISTINCT leaves none out. *)
Theorem unique_item_counts_count_children (db : database) :
  NoDup ((_get_unique_item_counts db).*1)
  ∧ ∀ z n,
      (z, n) ∈ _get_unique_item_counts db
      ↔ is_Some (orders db !! z)
        ∧ n = length (filter (λ c : string * item_row,
                                is_Some (i_quantity c.2))
                             (children_of db z))
        ∧ n ≠ 0%nat.
Proof.
  split.
  - unfold _get_unique_item_counts.
    apply (NoDup_omap_keys _ _ fst id).
    intros [z o] y Hy. simpl in *.
    destruct (filter _ (children_of db z)); [done|]. by injection Hy as <-.
  - intros z n. unfold _get_unique_item_counts.
    rewrite list_elem_of_omap.
    assert (∀ rows : list (string * item_row),
              NoDup (rows.*1) → length (remove_dups (rows.*1)) = length rows)
      as Hlen.
    { intros rows Hnd. by rewrite remove_dups_NoDup, length_fmap. }
    split.
    + intros ([z' o] & Hin%elem_of_map_to_list & Hrow). cbn [fst snd] in Hrow.
      pose proof (NoDup_quantity_items db z') as Hnd.
      destruct (filter _ (children_of db z')) as [|c cs] eqn:Hcs; [done|].
      rewrite Hlen in Hrow by done.
      injection Hrow as -> <-. rewrite Hcs.
      split_and!; [by exists o|done|done].
    + intros ([o Ho] & -> & Hn). exists (z, o).
      split; [by apply elem_of_map_to_list|]. cbn [fst snd].
      pose proof (NoDup_quantity_items db z) as Hnd.
      destruct (filter _ (children_of db z)) as [|c cs] eqn:Hcs; [done|].
      by rewrite Hlen.
Qed.

Lemma py_sum_float (x : float) (xs : list float) :
  ∃ f, py_sum (x :: xs) = NumFloat f.
Proof. unfold py_sum. eauto. Qed.

Lemma export_terms_nil (items : list (string * item_row)) :
  export_terms items = [] ↔ filter priced_child items = [].
Proof.
  pose proof (export_terms_priced items) as Heq.
  split; intros Hnil; rewrite Hnil in Heq.
  - symmetry in Heq. by apply fmap_nil_inv in Heq.
  - by apply fmap_nil_inv in Heq.
Qed.

Lemma elem_of_export_json_fields (db : database) (e : export_order) :
  e ∈ export_json db →
  ∃ o, orders db !! eo_order_id e = Some o
       ∧ eo_customer_id e = o_customer_id o
       ∧ eo_date e = o_order_date o
       ∧ eo_items e
         = (λ c : string * item_row,
              {| ei_item := c.1;
                 ei_quantity := i_quantity c.2;
                 ei_unit_price := i_unit_price c.2;
                 ei_is_valid := i_is_valid c.2;
                 ei_error_message := i_error_message c.2 |})
             <$> children_of db (eo_order_id e).
Proof.
  unfold export_json. intros ([z o] & Hin & Hf)%list_elem_of_omap.
  simpl in Hf. apply elem_of_map_to_list in Hin.
  destruct (children_of db z) as [|c items] eqn:Hitems; [done|].
  injection Hf as <-. simpl. rewrite Hitems. exists o. by split_and!.
Qed.

(** X21: the export shows every child of an order it lists, valid or
    not, under the placeholder or not, once and with the columns stored
    for it, and the order with its stored customer and date. *)
Theorem export_lists_every_child (db : database) (e : export_order) :
  e ∈ export_json db →
  (∃ o, orders db !! eo_order_id e = Some o
        ∧ eo_customer_id e = o_customer_id o
        ∧ eo_date e = o_order_date o)
  ∧ NoDup (ei_item <$> eo_items e)
  ∧ ∀ x, x ∈ eo_items e
         ↔ ∃ row, order_items db !! (SqlInt (eo_order_id e), ei_item x)
                  = Some row
                  ∧ ei_quantity x = i_quantity row
                  ∧ ei_unit_price x = i_unit_price row
                  ∧ ei_is_valid x = i_is_valid row
                  ∧ ei_error_message x = i_error_message row.
Proof.
  intros (o & Ho & Hcust & Hdate & Hitems)%elem_of_export_json_fields.
  rewrite Hitems. split_and!.
  - by exists o.
  - rewrite <- list_fmap_compose.
    erewrite list_fmap_ext; [apply (NoDup_children_items db (eo_order_id e))|].
    by intros _ [] _.
  - intros x. rewrite list_elem_of_fmap. split.
    + intros ([it row] & -> & Hrow%elem_of_children_of). simpl. eauto 10.
    + intros (row & Hrow%elem_of_children_of & Hq & Hp & Hv & Hm).
      exists (ei_item x, row). split; [|done].
      destruct x. simpl in *. by subst.
Qed.

(** X22: the exported total of an order is the integer 0 exactly when no
    child of the order counts, and such an order, which the export lists,
    is missing from the order totals; with a child that counts the total
    is a float. *)
Theorem unpriced_order_is_exported_with_zero (db : database)
    (e : export_order) :
  e ∈ export_json db →
  (eo_total_price e = NumInt 0
   ↔ filter priced_child (children_of db (eo_order_id e)) = [])
  ∧ (eo_total_price e = NumInt 0 ∨ ∃ f, eo_total_price e = NumFloat f)
  ∧ (eo_total_price e = NumInt 0 →
     ∀ cust total,
       (eo_order_id e, cust, total) ∉ _get_total_order_values db).
Proof.
  intros (o & Ho & Hsome & Htotal)%elem_of_export_json.
  rewrite Htotal. clear Htotal.
  rewrite <- export_terms_nil.
  assert (py_round2 (py_sum (export_terms (children_of db (eo_order_id e))))
          = NumInt 0
          ↔ export_terms (children_of db (eo_order_id e)) = []) as Hzero.
  { destruct (export_terms (children_of db (eo_order_id e))) as [|x xs];
      [done|].
    destruct (py_sum_float x xs) as [f ->]. done. }
  split_and!; [done| |].
  - destruct (export_terms (children_of db (eo_order_id e))) as [|x xs];
      [by left|].
    destruct (py_sum_float x xs) as [f ->]. right. by eexists.
  - intros Hnil%Hzero%export_terms_nil cust total Hin.
    apply list_elem_of_omap in Hin as ([z' o'] & _ & Hrow). simpl in Hrow.
    destruct (order_total_inputs db z') as [|x xs] eqn:Hxs; [done|].
    injection Hrow as -> _ _.
    rewrite order_total_inputs_priced, Hnil in Hxs. done.
Qed.

End AggregationFacts.

Section TopCustomer.
Context `{Platform}.






End TopCustomer.

(** * Properties of the whole run *)

Section MainFacts.
Context `{Platform}.

Lemma hoare_any {A} (m : M A) :
  hoare (λ _, True) m (λ _ _, True) (λ _, True).
Proof. intros c _. by destruct (m c) as [[] ?]. Qed.

(** When [setup_database] returns, nothing is pending: the cursor sees
    what the file holds. *)
Lemma setup_database_settled (batch : list validated_record)
    (overwrite : bool) (c c' : connection) (u : unit) :
  setup_database batch overwrite c = (Ok u, c') → working c' = committed c'.
Proof.
  intros Hrun.
  assert (hoare (λ _, True) (setup_database batch overwrite)
            (λ _ c, working c = committed c) (λ _, True)) as Hsetup.
  { unfold setup_database.
    eapply hoare_bind; [apply hoare_any|intros ?].
    eapply hoare_bind; [apply hoare_any|intros ?].
    unfold commit. eapply hoare_bind; [apply hoare_any|intros ?].
    by intros ? _. }
  specialize (Hsetup c I). by rewrite Hrun in Hsetup.
Qed.

Lemma run_setup_sync (batch : list validated_record) (st : files) :
  run_setup batch st
  = match sync_run (db_file st) None batch with
    | (Ok _, db') =>
        (Returned db', {| db_file := db'; json_file := json_file st;
                          stdout := stdout st ++ [SyncMode] |})
    | (Raise e, db') =>
        (Raised e, {| db_file := db'; json_file := json_file st;
                      stdout := stdout st ++ [SyncMode] |})
    end.
Proof.
  unfold run_setup, sync_run.
  destruct (setup_database batch false (connect (db_file st) None))
    as [[[]|e] c] eqn:Hrun; [|done].
  by rewrite (setup_database_settled _ _ _ _ _ Hrun).
Qed.

Lemma bindP_run {A B} (m : P A) (f : A → P B) (st : files) :
  (m ≫= f) st
  = match m st with
    | (Returned a, st') => f a st'
    | (Raised e, st') => (Raised e, st')
    | (RaisedTypeError, st') => (RaisedTypeError, st')
    end.
Proof. done. Qed.

Lemma print_run (l : line) (st : files) :
  print l st = (Returned (), add_lines [l] st).
Proof. done. Qed.

Lemma add_lines_app (l1 l2 : list line) (st : files) :
  add_lines l2 (add_lines l1 st) = add_lines (l1 ++ l2) st.
Proof. unfold add_lines. simpl. by rewrite app_assoc. Qed.

Lemma add_lines_nil (st : files) : add_lines [] st = st.
Proof. destruct st. unfold add_lines. simpl. by rewrite app_nil_r. Qed.

Lemma print_then {B} (l : line) (f : unit → P B) (st : files) :
  (print l ≫= f) st = f () (add_lines [l] st).
Proof. done. Qed.

Lemma for_lines_print {A} (g : A → line) (l : list A) (st : files) :
  for_lines l (λ x, print (g x)) st = (Returned (), add_lines (g <$> l) st).
Proof.
  revert st. induction l as [|x l IH]; intros st; simpl.
  - by rewrite add_lines_nil.
  - rewrite print_then, IH, add_lines_app. done.
Qed.

Lemma for_lines_totals {A} (mk : A → float → line) (total : A → option float)
    (rows : list A) (st : files) :
  for_lines rows (λ row, t ← call (format_2f (total row)); print (mk row t)) st
  = let '(o, ls) := total_lines mk total rows in (o, add_lines ls st).
Proof.
  revert st. induction rows as [|row rows IH]; intros st; simpl.
  - by rewrite add_lines_nil.
  - rewrite bindP_run. destruct (total row) as [t|].
    + change ((call (format_2f (Some t)) ≫= λ t, print (mk row t)) st)
        with (Returned (), add_lines [mk row t] st).
      cbv beta iota. rewrite IH. destruct (total_lines mk total rows) as [o ls].
      by rewrite add_lines_app.
    + change ((call (format_2f None) ≫= λ t, print (mk row t)) st)
        with (RaisedTypeError : outcome unit, st).
      by rewrite add_lines_nil.
Qed.

Lemma review_run {B} (db : database) (f : unit → P B) (st : files) :
  (print (InvalidCount (count_invalid_items db)) ≫= λ _,
   (if decide (0 < count_invalid_items db)%nat
    then print InvalidTitle ;;
         for_lines (get_invalid_items db) (λ row, print (InvalidDetail row))
    else mret ()) ≫= f) st
  = f () (add_lines (review_lines db) st).
Proof.
  rewrite print_then, bindP_run. unfold review_lines.
  case_decide.
  - rewrite print_then, for_lines_print, !add_lines_app. done.
  - change ((mret () : P unit) (add_lines [InvalidCount (count_invalid_items db)] st))
      with (Returned (), add_lines [InvalidCount (count_invalid_items db)] st).
    done.
Qed.

Lemma top_run (top_customer : option (sqlval * option float)) (st : files) :
  match top_customer with
  | Some top => total ← call (format_2f top.2); print (TopCustomer top.1 total)
  | None => mret ()
  end st
  = let '(o, ls) := total_lines (λ top : sqlval * option float,
                                   TopCustomer top.1) snd
                                (option_list top_customer) in
    (o, add_lines ls st).
Proof.
  destruct top_customer as [[cust [t|]]|]; simpl.
  - done.
  - by rewrite add_lines_nil.
  - by rewrite add_lines_nil.
Qed.

Lemma total_lines_outcome {A} (mk : A → float → line)
    (total : A → option float) (rows : list A) :
  (total_lines mk total rows).1 = Returned ()
  ∨ (total_lines mk total rows).1 = RaisedTypeError.
Proof.
  induction rows as [|row rows IH]; simpl; [by left|].
  destruct (total row); [|by right].
  by destruct (total_lines mk total rows).
Qed.

Ltac same_files :=
  unfold add_lines; cbn [db_file json_file stdout];
  f_equal; f_equal; rewrite <- ?app_assoc; simpl; rewrite <- ?app_assoc;
  simpl; done.

(** [main] goes through its stages as [main_stages] has them. *)
Lemma main_run (file : list (list string)) (st : files) :
  main (Some file) st = main_stages file st.
Proof.
  unfold main, main_stages.
  rewrite !print_then, add_lines_app. rewrite bindP_run.
  unfold call at 1.
  destruct (valid_order_rows_file file) as [batch|e|]; [|done|done].
  rewrite print_then, add_lines_app. rewrite bindP_run, run_setup_sync.
  cbn [add_lines db_file json_file stdout app].
  destruct (sync_run (db_file st) None batch) as [[[]|e] db'].
  2: { by rewrite <- app_assoc. }
  rewrite print_then, review_run, print_then.
  unfold run_aggregations. rewrite print_then.
  rewrite !add_lines_app. unfold report.
  rewrite bindP_run, for_lines_totals.
  pose proof (total_lines_outcome
                (λ order : Z * sqlval * option float,
                   OrderTotal order.1.1 order.1.2) snd
                (_get_total_order_values db')) as Ho1.
  destruct (total_lines _ snd (_get_total_order_values db')) as [o1 totals].
  rewrite add_lines_app. simpl in Ho1.
  destruct Ho1 as [->| ->]; [|same_files].
  rewrite bindP_run, top_run.
  pose proof (total_lines_outcome
                (λ top : sqlval * option float, TopCustomer top.1) snd
                (option_list (_get_top_customer db'))) as Ho2.
  destruct (total_lines _ snd (option_list (_get_top_customer db')))
    as [o2 top].
  rewrite add_lines_app. simpl in Ho2.
  destruct Ho2 as [->| ->]; [|same_files].
  rewrite print_then, bindP_run, for_lines_print.
  rewrite !print_then, !add_lines_app.
  unfold write_json. rewrite bindP_run. unfold print.
  same_files.
Qed.

Lemma total_lines_cases {A} (mk : A → float → line)
    (total : A → option float) (rows : list A) :
  (total_lines mk total rows
   = (Returned (), omap (λ row, mk row <$> total row) rows)
   ∧ Forall (λ row, is_Some (total row)) rows)
  ∨ (∃ ls row, total_lines mk total rows = (RaisedTypeError, ls)
               ∧ row ∈ rows ∧ total row = None).
Proof.
  induction rows as [|row rows IH]; simpl; [by left|].
  destruct (total row) as [t|] eqn:Ht.
  - destruct IH as [[-> Hall]|(ls & row' & -> & Hin & Hnone)].
    + left. split; [done|]. constructor; [by rewrite Ht|done].
    + right. exists (mk row t :: ls), row'. split_and!; [done|by right|done].
  - right. exists [], row. split_and!; [done|by left|done].
Qed.

(** How the report ends: it gets through when every fetched total is a
    number, and stops in a TypeError at the first that is [None]. *)
Lemma report_cases (db : database) :
  (∃ ls, report db = (Returned (), ls)
         ∧ (∀ order, order ∈ _get_total_order_values db → is_Some order.2)
         ∧ (∀ top, _get_top_customer db = Some top → is_Some top.2)
         ∧ ls = (DatabaseUpdated :: review_lines db
                   ++ [AnalyticsTitle; TotalsTitle])
                ++ omap (λ order : Z * sqlval * option float,
                           OrderTotal order.1.1 order.1.2 <$> order.2)
                        (_get_total_order_values db)
                ++ omap (λ top : sqlval * option float,
                           TopCustomer top.1 <$> top.2)
                        (option_list (_get_top_customer db))
                ++ UniqueTitle
                   :: ((λ item : Z * nat, UniqueItems item.1 item.2)
                         <$> _get_unique_item_counts db)
                   ++ [ExportTitle; Json (export_json db); JsonSaved])
  ∨ (∃ ls, report db = (RaisedTypeError, ls)
           ∧ ((∃ order, order ∈ _get_total_order_values db ∧ order.2 = None)
              ∨ ∃ top, _get_top_customer db = Some top ∧ top.2 = None)).
Proof.
  unfold report.
  destruct (total_lines_cases
              (λ order : Z * sqlval * option float,
                 OrderTotal order.1.1 order.1.2) snd
              (_get_total_order_values db))
    as [[-> Hall]|(ls & row & -> & Hin & Hnone)].
  2: { right. eexists. split; [done|]. left. by exists row. }
  destruct (total_lines_cases
              (λ top : sqlval * option float, TopCustomer top.1) snd
              (option_list (_get_top_customer db)))
    as [[-> Htop]|(ls & row & -> & Hin & Hnone)].
  - left. eexists. split_and!; [done| | |done].
    + intros order Horder. by eapply Forall_forall in Hall.
    + intros top Htop'. rewrite Htop' in Htop. simpl in Htop.
      by apply Forall_cons in Htop as [? _].
  - right. eexists. split; [done|]. right. exists row. split; [|done].
    destruct (_get_top_customer db) as [top|]; simpl in Hin.
    + by apply list_elem_of_singleton in Hin as ->.
    + by apply elem_of_nil in Hin.
Qed.

Lemma review_lines_details (db : database)
    (row : sqlval * string * option Z * option float * option string) :
  InvalidDetail row ∈ review_lines db ↔ row ∈ get_invalid_items db.
Proof.
  unfold review_lines. rewrite elem_of_cons. split.
  - intros [?|Hin]; [done|]. case_decide; [|by apply elem_of_nil in Hin].
    apply elem_of_cons in Hin as [?|Hin]; [done|].
    by apply list_elem_of_fmap in Hin as (row' & [= ->] & Hin).
  - intros Hin. right. rewrite decide_True.
    + right. apply list_elem_of_fmap. by exists row.
    + unfold count_invalid_items. fold (get_invalid_items db).
      destruct (invalid_rows db) as [|r rs] eqn:Hrows; simpl; [|lia].
      unfold get_invalid_items in Hin. rewrite Hrows in Hin.
      by apply elem_of_nil in Hin.
Qed.

(** X24: when [main] returns on a CSV file that is there, the database
    file holds what the sync of the validated rows left, the JSON file
    holds the export of that database and nothing else, every fetched
    total was a number, and the report, added to what was printed before,
    shows the count of the invalid items, one detail line for every
    invalid item and no other, one total line for every row of the order
    totals, and the export. *)
Theorem main_returns_with_export (file : list (list string))
    (st st' : files) :
  main (Some file) st = (Returned (), st') →
  ∃ batch,
    valid_order_rows_file file = Returned batch
    ∧ sync_run (db_file st) None batch = (Ok (), db_file st')
    ∧ json_file st' = Some (export_json (db_file st'))
    ∧ (∀ order, order ∈ _get_total_order_values (db_file st') →
                is_Some order.2)
    ∧ (∀ top, _get_top_customer (db_file st') = Some top → is_Some top.2)
    ∧ ∃ ls,
        stdout st' = stdout st ++ ls
        ∧ InvalidCount (count_invalid_items (db_file st')) ∈ ls
        ∧ (∀ row, InvalidDetail row ∈ ls
                  ↔ row ∈ get_invalid_items (db_file st'))
        ∧ (∀ z cust total,
             OrderTotal z cust total ∈ ls
             ↔ (z, cust, Some total) ∈ _get_total_order_values (db_file st'))
        ∧ Json (export_json (db_file st')) ∈ ls.
Proof.
  rewrite main_run. unfold main_stages.
  destruct (valid_order_rows_file file) as [batch|e|]; [|done|done].
  destruct (sync_run (db_file st) None batch) as [[[]|e] db'] eqn:Hsync;
    [|done].
  destruct (report_cases db')
    as [(ls & -> & Htotals & Htop & Hls)|(ls & -> & _)]; [|done].
  intros [= <-]. cbn [db_file json_file stdout].
  exists batch. split_and!; [done|done|done|done|done|].
  eexists. split; [done|]. rewrite Hls. clear Hls ls.
  set (ls := (DatabaseUpdated :: review_lines db'
                ++ [AnalyticsTitle; TotalsTitle])
             ++ omap (λ order : Z * sqlval * option float,
                        OrderTotal order.1.1 order.1.2 <$> order.2)
                     (_get_total_order_values db')
             ++ omap (λ top : sqlval * option float,
                        TopCustomer top.1 <$> top.2)
                     (option_list (_get_top_customer db'))
             ++ UniqueTitle
                :: ((λ item : Z * nat, UniqueItems item.1 item.2)
                      <$> _get_unique_item_counts db')
                ++ [ExportTitle; Json (export_json db'); JsonSaved]).
  assert (∀ l : line,
            l ∈ ls →
            l ∈ review_lines db'
            ∨ (∃ z cust total,
                 l = OrderTotal z cust total
                 ∧ (z, cust, Some total) ∈ _get_total_order_values db')
            ∨ l = DatabaseUpdated ∨ l = AnalyticsTitle ∨ l = TotalsTitle
            ∨ (∃ cust total, l = TopCustomer cust total)
            ∨ l = UniqueTitle
            ∨ (∃ z n, l = UniqueItems z n)
            ∨ l = ExportTitle ∨ l = Json (export_json db')
            ∨ l = JsonSaved) as Hfrom.
  { intros l. unfold ls.
    rewrite !elem_of_app, !elem_of_cons, !elem_of_app, !elem_of_cons,
      !list_elem_of_omap, !list_elem_of_fmap, elem_of_nil.
    intros [[?|[?|[?|[?|[]]]]]|[Hl|[Hl|[?|[Hl|[?|[?|[?|[]]]]]]]]];
      try tauto.
    - destruct Hl as ([[z c] [t|]] & Hl & [= <-]).
      right. left. by exists z, c, t.
    - destruct Hl as ([c [t|]] & _ & [= <-]).
      do 5 right. left. by exists c, t.
    - destruct Hl as ([z n] & -> & _).
      do 7 right. left. by exists z, n. }
  assert (∀ l, l ∈ review_lines db' → l ∈ ls) as Hreview.
  { intros l Hl. unfold ls. rewrite !elem_of_app, !elem_of_cons, elem_of_app.
    tauto. }
  assert (∀ z cust total,
            (z, cust, Some total) ∈ _get_total_order_values db' →
            OrderTotal z cust total ∈ ls) as Htotal_line.
  { intros z cust total Hl. unfold ls. rewrite !elem_of_app, list_elem_of_omap.
    right. left. by exists (z, cust, Some total). }
  assert (Json (export_json db') ∈ ls) as Hjson.
  { unfold ls.
    rewrite !elem_of_app, !elem_of_cons, !elem_of_app, !elem_of_cons. tauto. }
  assert (∀ l, l ∈ Banner :: Reading :: RowsProcessed (length batch)
                     :: SyncMode :: ls
               ↔ l = Banner ∨ l = Reading
                 ∨ l = RowsProcessed (length batch) ∨ l = SyncMode
                 ∨ l ∈ ls) as Hstart.
  { intros l. by rewrite !elem_of_cons. }
  clearbody ls. split_and!.
  - apply Hstart. do 4 right. apply Hreview. unfold review_lines. by left.
  - intros row. rewrite <- review_lines_details, Hstart. split.
    + intros [?|[?|[?|[?|Hl]]]]; try done.
      destruct (Hfrom _ Hl)
        as [?|[(? & ? & ? & ? & _)|[?|[?|[?|[(? & ? & ?)|[?|[(? & ? & ?)|[?|[?|?]]]]]]]]]];
        done.
    + intros Hl. do 4 right. by apply Hreview.
  - intros z cust total. rewrite Hstart. split.
    + intros [?|[?|[?|[?|Hl]]]]; try done.
      destruct (Hfrom _ Hl)
        as [Hr|[(? & ? & ? & [= -> -> ->] & ?)|[?|[?|[?|[(? & ? & ?)|[?|[(? & ? & ?)|[?|[?|?]]]]]]]]]];
        try done.
      unfold review_lines in Hr.
      apply elem_of_cons in Hr as [?|Hr]; [done|].
      case_decide; [|by apply elem_of_nil in Hr].
      apply elem_of_cons in Hr as [?|Hr]; [done|].
      by apply list_elem_of_fmap in Hr as (? & ? & _).
    + intros Hl. do 4 right. by apply Htotal_line.
  - apply Hstart. do 4 right. apply Hjson.
Qed.

(** X25: when [main] fails, the JSON file is left as it was; the orders
    and their items are as they were before the run, unless the failure
    is the TypeError of a fetched total that is [None]: that one comes
    after the sync of the validated rows has been committed. *)
Theorem main_failure_leaves_json (file : list (list string))
    (st st' : files) (o : outcome unit) :
  main (Some file) st = (o, st') →
  failed o →
  json_file st' = json_file st
  ∧ ((orders (db_file st') = orders (db_file st)
      ∧ order_items (db_file st') = order_items (db_file st))
     ∨ (o = RaisedTypeError
        ∧ ∃ batch,
            valid_order_rows_file file = Returned batch
            ∧ sync_run (db_file st) None batch = (Ok (), db_file st')
            ∧ ((∃ order, order ∈ _get_total_order_values (db_file st')
                         ∧ order.2 = None)
               ∨ ∃ top, _get_top_customer (db_file st') = Some top
                        ∧ top.2 = None))).
Proof.
  rewrite main_run. unfold main_stages.
  destruct (valid_order_rows_file file) as [batch|e|].
  - destruct (sync_run (db_file st) None batch) as [[[]|e] db'] eqn:Hsync.
    + destruct (report_cases db')
        as [(ls & -> & _)|(ls & -> & Hnone)].
      * by intros [= <- <-] [].
      * intros [= <- <-] _. cbn [db_file json_file].
        split; [done|]. right. split; [done|]. by exists batch.
    + intros [= <- <-] _. cbn [db_file json_file]. split; [done|].
      left. by eapply sync_run_raise_frozen.
  - intros [= <- <-] _. split; [done|]. by left.
  - intros [= <- <-] _. split; [done|]. by left.
Qed.

End MainFacts.

(** * The further properties on the sample store *)

Section FurtherRuns.
#[local] Existing Instance Sample.platform.

Lemma persisted_db_widget : persisted Sample.db_widget.
Proof.
  exact (persisted_sync empty_database None Sample.widget_batch
           persisted_empty).
Qed.

Lemma two_bolts_storable : Forall storable Sample.two_bolts_validated.
Proof.
  repeat (constructor;
          [split; [by exists 5|intros q [= <-]; split; reflexivity || done]|]).
  constructor.
Qed.

Lemma overwrite_keeps_last_record_witness :
  ∃ db',
    overwrite_run Sample.db_widget None Sample.two_bolts_validated
    = (Ok (), db')
    ∧ order_items db' !! (SqlInt 5, "Bolt")
      = Some (stored_item Sample.second_bolt)
    ∧ order_items db' !! (SqlInt 5, "Widget") = None
    ∧ orders db' !! 5 = Some (stored_order Sample.second_bolt).
Proof.
  destruct (proj2 (overwrite_returns Sample.db_widget
                     Sample.two_bolts_validated) two_bolts_storable)
    as [db' Hrun].
  exists db'. split; [exact Hrun|].
  destruct (overwrite_keeps_last_record Sample.db_widget db' None
              Sample.two_bolts_validated Hrun) as (Hitems & Horders & _).
  split_and!.
  - rewrite Hitems. reflexivity.
  - rewrite Hitems. reflexivity.
  - rewrite Horders. reflexivity.
Defined.

Lemma two_bolts_named :
  ∀ r, r ∈ Sample.two_bolts_validated → regular_item r.
Proof.
  intros r Hr.
  repeat (apply elem_of_cons in Hr as [->|Hr];
          [exists "Bolt"; by split_and!|]).
  by apply elem_of_nil in Hr.
Qed.

Lemma sync_is_snapshot_witness :
  sync_run Sample.db_widget None Sample.two_bolts_validated
  = (Ok (), Sample.db_two_bolts)
  ∧ sync_run empty_database None Sample.two_bolts_validated
    = (Ok (), Sample.db_two_bolts).
Proof.
  assert (sync_run Sample.db_widget None Sample.two_bolts_validated
          = (Ok (), Sample.db_two_bolts)) as Hrun by reflexivity.
  split; [exact Hrun|].
  apply (sync_is_snapshot Sample.db_widget Sample.db_two_bolts None).
  - exact persisted_db_widget.
  - intros r Hr. destruct (two_bolts_named r Hr) as (i & Hi & Hne & _).
    exists i. split; [exact Hi|exact Hne].
  - exact Hrun.
Defined.

Lemma sync_keeps_last_record_witness :
  sync_run Sample.db_widget None Sample.two_bolts_validated
  = (Ok (), Sample.db_two_bolts)
  ∧ order_items Sample.db_two_bolts !! (SqlInt 5, "Bolt")
    = Some (stored_item Sample.second_bolt)
  ∧ order_items Sample.db_two_bolts !! (SqlInt 5, "Widget") = None
  ∧ is_Some (orders Sample.db_two_bolts !! 5).
Proof.
  assert (sync_run Sample.db_widget None Sample.two_bolts_validated
          = (Ok (), Sample.db_two_bolts)) as Hrun by reflexivity.
  destruct (sync_keeps_last_record Sample.db_widget Sample.db_two_bolts None
              Sample.two_bolts_validated persisted_db_widget two_bolts_named
              Hrun) as (Hitems & Horders & _).
  split_and!.
  - exact Hrun.
  - rewrite Hitems. reflexivity.
  - rewrite Hitems. reflexivity.
  - apply Horders. eexists. reflexivity.
Defined.

Lemma synced_rows_come_from_batch_witness :
  sync_run Sample.db_widget None Sample.blank_batch
  = (Ok (), Sample.db_after_blank)
  ∧ order_items Sample.db_after_blank !! (SqlInt 5, "Widget")
    = Some {| i_quantity := Some 2; i_unit_price := Some 999;
              i_is_valid := true; i_error_message := None |}
  ∧ ((∃ r, r ∈ Sample.blank_batch
           ∧ child_key r = (SqlInt 5, "Widget")
           ∧ {| i_quantity := Some 2; i_unit_price := Some 999;
                i_is_valid := true; i_error_message := None |}
             = stored_item r)
     ∨ order_items Sample.db_widget !! (SqlInt 5, "Widget")
       = Some {| i_quantity := Some 2; i_unit_price := Some 999;
                 i_is_valid := true; i_error_message := None |}).
Proof.
  assert (sync_run Sample.db_widget None Sample.blank_batch
          = (Ok (), Sample.db_after_blank)) as Hrun by reflexivity.
  assert (order_items Sample.db_after_blank !! (SqlInt 5, "Widget")
          = Some {| i_quantity := Some 2; i_unit_price := Some 999;
                    i_is_valid := true; i_error_message := None |})
    as Hrow by reflexivity.
  split; [exact Hrun|]. split; [exact Hrow|].
  destruct (synced_rows_come_from_batch Sample.db_widget
              Sample.db_after_blank None Sample.blank_batch Hrun)
    as [Hchildren _].
  exact (Hchildren (SqlInt 5, "Widget") _ Hrow).
Defined.

Lemma store_has_no_orphans_witness :
  persisted Sample.db_after_blank
  ∧ ∃ e, e ∈ export_json Sample.db_after_blank ∧ eo_order_id e = 5.
Proof.
  assert (persisted Sample.db_after_blank) as Hdb.
  { exact (persisted_sync Sample.db_widget None Sample.blank_batch
             persisted_db_widget). }
  split; [exact Hdb|].
  destruct (store_has_no_orphans Sample.db_after_blank Hdb) as (_ & _ & Hexp).
  apply Hexp. eexists. reflexivity.
Defined.

Lemma widget_batch_valid :
  ∀ r, r ∈ Sample.widget_batch → is_valid r = true.
Proof.
  intros r Hr.
  repeat (apply elem_of_cons in Hr as [->|Hr]; [reflexivity|]).
  by apply elem_of_nil in Hr.
Qed.

Lemma valid_file_leaves_no_invalid_item_witness :
  valid_order_rows_flexible
    [Sample.csv_row "C1" "5" "Widget" "2" "9.99" "2025-06-01"]
  = Ok Sample.widget_batch
  ∧ sync_run empty_database None Sample.widget_batch
    = (Ok (), Sample.db_widget)
  ∧ count_invalid_items Sample.db_widget = 0%nat
  ∧ get_invalid_items Sample.db_widget = [].
Proof.
  assert (sync_run empty_database None Sample.widget_batch
          = (Ok (), Sample.db_widget)) as Hrun by reflexivity.
  assert (valid_order_rows_flexible
            [Sample.csv_row "C1" "5" "Widget" "2" "9.99" "2025-06-01"]
          = Ok Sample.widget_batch) as Hvalid by reflexivity.
  destruct (valid_file_leaves_no_invalid_item _ _ empty_database
              Sample.db_widget None Hvalid widget_batch_valid
              persisted_empty Hrun) as [Hcount Hnone].
  split_and!; [exact Hvalid|exact Hrun|exact Hcount|exact Hnone].
Defined.

Lemma totals_and_export_sum_the_same_witness :
  order_total_inputs Sample.db_widget 5
  = Some <$> export_terms (children_of Sample.db_widget 5).
Proof.
  apply totals_and_export_sum_the_same. intros x _. reflexivity.
Defined.


Lemma export_lists_every_child_witness :
  ∃ e, e ∈ export_json Sample.db_after_blank
       ∧ eo_order_id e = 5
       ∧ NoDup (ei_item <$> eo_items e)
       ∧ ∃ x, x ∈ eo_items e ∧ ei_item x = BLANK_ITEM
              ∧ ei_is_valid x = false.
Proof.
  destruct (export_json_has Sample.db_after_blank 5
              {| o_customer_id := SqlText "C1";
                 o_order_date := Some {| year := 2025; month := 6; day := 2 |} |})
    as (e & He & Hid & _).
  - reflexivity.
  - apply children_nonempty. exists "Widget". eexists. reflexivity.
  - exists e. split; [exact He|]. split; [exact Hid|].
    destruct (export_lists_every_child Sample.db_after_blank e He)
      as (_ & Hnd & Hitems).
    split; [exact Hnd|].
    exists (@Build_export_item Sample.platform BLANK_ITEM (Some 3) (Some 150)
              false (Some "Invalid or missing item")).
    split; [|split; reflexivity].
    apply Hitems. rewrite Hid. eexists. split; [reflexivity|].
    split_and!; reflexivity.
Defined.

Lemma unpriced_order_is_exported_with_zero_witness :
  ∃ e, e ∈ export_json Cases.db_blank_only
       ∧ eo_order_id e = 5
       ∧ eo_total_price e = NumInt 0
       ∧ ∀ cust total,
           (5, cust, total) ∉ _get_total_order_values Cases.db_blank_only.
Proof.
  destruct (export_json_has Cases.db_blank_only 5
              {| o_customer_id := SqlText "C1";
                 o_order_date := Some {| year := 2025; month := 6; day := 2 |} |})
    as (e & He & Hid & Htotal).
  - reflexivity.
  - apply children_nonempty. exists BLANK_ITEM. eexists. reflexivity.
  - exists e. split; [exact He|]. split; [exact Hid|].
    destruct (unpriced_order_is_exported_with_zero Cases.db_blank_only e He)
      as (_ & _ & Hmissing).
    assert (eo_total_price e = NumInt 0) as Hzero.
    { rewrite Htotal. reflexivity. }
    split; [exact Hzero|]. rewrite <- Hid. exact (Hmissing Hzero).
Defined.

End FurtherRuns.

Section MainRuns.
#[local] Existing Instance Sample.platform.

Lemma widget_file_records :
  valid_order_rows_file Cases.widget_file = Returned Sample.widget_batch.
Proof. reflexivity. Qed.

Lemma db_widget_totals :
  _get_total_order_values Sample.db_widget = [(5, SqlText "C1", Some 1998)]
  ∧ _get_top_customer Sample.db_widget = Some (SqlText "C1", Some 1998).
Proof. split; reflexivity. Qed.

Lemma main_returns_with_export_witness :
  ∃ st',
    main (Some Cases.widget_file)
      {| db_file := empty_database; json_file := None; stdout := [] |}
    = (Returned (), st')
    ∧ db_file st' = Sample.db_widget
    ∧ json_file st' = Some (export_json Sample.db_widget).
Proof.
  assert (sync_run empty_database None Sample.widget_batch
          = (Ok (), Sample.db_widget)) as Hrun by reflexivity.
  destruct (main (Some Cases.widget_file)
              {| db_file := empty_database; json_file := None; stdout := [] |})
    as [o st'] eqn:Hmain.
  assert (o = Returned () ∧ db_file st' = Sample.db_widget) as [-> Hdb].
  { rewrite main_run in Hmain. unfold main_stages in Hmain.
    rewrite widget_file_records in Hmain. cbn [db_file] in Hmain.
    rewrite Hrun in Hmain.
    destruct (report_cases Sample.db_widget)
      as [(ls & Hrep & _)|(ls & _ & Hnone)].
    - rewrite Hrep in Hmain. injection Hmain as <- <-. split; reflexivity.
    - exfalso. destruct db_widget_totals as [Htotals Htop].
      rewrite Htotals, Htop in Hnone.
      destruct Hnone as [(order & Hin & Hnone)|(top & Heq & Hnone)].
      + apply list_elem_of_singleton in Hin. subst order. discriminate Hnone.
      + injection Heq as <-. discriminate Hnone. }
  exists st'. split; [reflexivity|]. split; [exact Hdb|].
  destruct (main_returns_with_export Cases.widget_file _ st' Hmain)
    as (batch & _ & _ & Hjson & _).
  rewrite Hjson, Hdb. reflexivity.
Defined.

Lemma main_failure_leaves_json_witness :
  ∃ st',
    main (Some [["order_id"; "item"]; ["5"; "Bolt"; "x"]])
      {| db_file := Sample.db_widget; json_file := None; stdout := [] |}
    = (Raised AttributeError, st')
    ∧ json_file st' = None
    ∧ orders (db_file st') = orders Sample.db_widget.
Proof.
  destruct (main (Some [["order_id"; "item"]; ["5"; "Bolt"; "x"]])
              {| db_file := Sample.db_widget; json_file := None;
                 stdout := [] |})
    as [o st'] eqn:Hmain.
  assert (o = Raised AttributeError) as ->.
  { rewrite main_run in Hmain. unfold main_stages in Hmain.
    assert (valid_order_rows_file [["order_id"; "item"]; ["5"; "Bolt"; "x"]]
            = Raised AttributeError) as Hfile by reflexivity.
    rewrite Hfile in Hmain. by injection Hmain as <- _. }
  exists st'. split; [reflexivity|].
  destruct (main_failure_leaves_json _ _ st' _ Hmain I) as [Hjson Hdb].
  split; [exact Hjson|].
  destruct Hdb as [[Horders _]|[Habsurd _]]; [exact Horders|discriminate].
Defined.

End MainRuns.
